(** * Snowflake MCP server: concurrency, isolation and resource-control core

  A shallow embedding of the request-scoped database wrappers, the
  connection pool, the circuit breaker, the token-bucket rate limiter, the
  quota manager, the backoff schedule and the SQL validator, together with
  the properties the specification states about them.

  Conventions of the embedding.
  - Python [int] is [Z]; Python [float] (clock readings, delays, token
    counts) is an exact rational [Q]: rounding is not modelled.
  - A coroutine is a state-passing function; every clock reading it takes
    is an explicit argument, every answer of the warehouse driver is an
    explicit outcome flag.
  - A raised exception is a constructor of the result type.
  - Dictionaries are stdpp finite maps. *)

From Stdlib Require Import ZArith QArith Qminmax Qround Lia Lqa.
From stdpp Require Import base option list gmap strings fin_maps.

Open Scope Z_scope.

(** ** Request context ([utils/request_context.py]) *)

Module RequestContext.

Record RequestMetrics := mkMetrics {
  queries_executed : Z;
  errors : Z;
  transaction_operations : Z;
  transaction_commits : Z;
  transaction_rollbacks : Z
}.

Record t := mkCtx {
  database_context : option string;
  schema_context : option string;
  metrics : RequestMetrics
}.

Definition new : t :=
  mkCtx None None (mkMetrics 0 0 0 0 0).

Definition with_metrics (f : RequestMetrics -> RequestMetrics) (c : t) : t :=
  mkCtx (database_context c) (schema_context c) (f (metrics c)).

(* Python truthiness of an [Optional[str]]: neither [None] nor empty. *)
Definition truthy (o : option string) : bool :=
  match o with
  | Some s => negb (String.eqb s "")
  | None => false
  end.

Definition set_database_context (database : string) (schema : option string)
    (c : t) : t :=
  mkCtx (Some database)
        (if truthy schema then schema else schema_context c)
        (metrics c).

Definition increment_query_count : t -> t :=
  with_metrics (fun m => mkMetrics (queries_executed m + 1) (errors m)
    (transaction_operations m) (transaction_commits m) (transaction_rollbacks m)).

Definition add_error : t -> t :=
  with_metrics (fun m => mkMetrics (queries_executed m) (errors m + 1)
    (transaction_operations m) (transaction_commits m) (transaction_rollbacks m)).

Definition increment_transaction_operation : t -> t :=
  with_metrics (fun m => mkMetrics (queries_executed m) (errors m)
    (transaction_operations m + 1) (transaction_commits m) (transaction_rollbacks m)).

Definition increment_transaction_commit : t -> t :=
  with_metrics (fun m => mkMetrics (queries_executed m) (errors m)
    (transaction_operations m) (transaction_commits m + 1) (transaction_rollbacks m)).

Definition increment_transaction_rollback : t -> t :=
  with_metrics (fun m => mkMetrics (queries_executed m) (errors m)
    (transaction_operations m) (transaction_commits m) (transaction_rollbacks m + 1)).

End RequestContext.

(** ** The warehouse session as the wrappers see it

  The driver is external.  Its session carries the current database and
  schema ([None] is SQL NULL) and the auto-commit flag.  [USE DATABASE d]
  makes [d] current and moves the schema to the default schema of [d];
  [USE SCHEMA s] makes [s] current.  A statement that the driver rejects
  raises and leaves the session as it was. *)

Module Session.

Record t := mkSession {
  current_database : option string;
  current_schema : option string;
  autocommit : bool
}.

Inductive result (A : Type) :=
| Ok (a : A)
| Raised.
Arguments Ok {A} a.
Arguments Raised {A}.

Section Driver.
(* The schema a database opens on (PUBLIC when it exists). *)
Variable default_schema : string -> option string.

Definition use_database (ok : bool) (database : string) (s : t) : result t :=
  if ok
  then Ok (mkSession (Some database) (default_schema database) (autocommit s))
  else Raised.

Definition use_schema (ok : bool) (schema : string) (s : t) : result t :=
  if ok
  then Ok (mkSession (current_database s) (Some schema) (autocommit s))
  else Raised.

End Driver.

Definition set_autocommit (b : bool) (s : t) : t :=
  mkSession (current_database s) (current_schema s) b.

End Session.

(** ** Isolated wrapper ([utils/async_database.py], [IsolatedDatabaseOperations]) *)

Module IsolatedDatabaseOperations.

Import Session.

Record t := mkOps {
  connection : Session.t;
  request_context : RequestContext.t;
  _original_database : option string;
  _original_schema : option string;
  _context_changed : bool
}.

Definition __init__ (connection : Session.t) (ctx : RequestContext.t) : t :=
  mkOps connection ctx None None false.

(* What the driver answers to
   [SELECT CURRENT_DATABASE(), CURRENT_SCHEMA()]. *)
Inductive capture := CaptureRaises | CaptureNoRow | CaptureRow.

(* [value or "Unknown"] *)
Definition or_unknown (o : option string) : string :=
  if RequestContext.truthy o then default "Unknown"%string o else "Unknown"%string.

Definition get_current_context (c : capture) (s : Session.t)
  : result (string * string) :=
  match c with
  | CaptureRaises => Raised
  | CaptureNoRow => Ok ("Unknown"%string, "Unknown"%string)
  | CaptureRow => Ok (or_unknown (current_database s), or_unknown (current_schema s))
  end.

Definition __aenter__ (c : capture) (w : t) : t :=
  match get_current_context c (connection w) with
  | Ok (current_db, current_schema) =>
      mkOps (connection w) (request_context w)
            (Some current_db) (Some current_schema) (_context_changed w)
  | Raised => w
  end.

Section Driver.
Variable default_schema : string -> option string.

Definition use_database_isolated (ok : bool) (database : string) (w : t)
  : t * result unit :=
  match use_database default_schema ok database (connection w) with
  | Raised => (w, Raised)
  | Ok s' =>
      (mkOps s'
             (RequestContext.set_database_context database None (request_context w))
             (_original_database w) (_original_schema w) true,
       Ok tt)
  end.

Definition use_schema_isolated (ok : bool) (schema : string) (w : t)
  : t * result unit :=
  match use_schema ok schema (connection w) with
  | Raised => (w, Raised)
  | Ok s' =>
      let ctx := request_context w in
      let ctx' :=
        match RequestContext.database_context ctx with
        | Some db =>
            if RequestContext.truthy (Some db)
            then RequestContext.set_database_context db (Some schema) ctx
            else ctx
        | None => ctx
        end in
      (mkOps s' ctx' (_original_database w) (_original_schema w) true, Ok tt)
  end.

(* [o and o != "Unknown"] *)
Definition known (o : option string) : bool :=
  RequestContext.truthy o && negb (String.eqb (default ""%string o) "Unknown").

Definition _restore_original_context (ok_db ok_schema : bool) (w : t)
  : t * result unit :=
  if known (_original_database w) then
    match use_database default_schema ok_db
            (default ""%string (_original_database w)) (connection w) with
    | Raised => (w, Raised)
    | Ok s1 =>
        let w1 := mkOps s1 (request_context w) (_original_database w)
                        (_original_schema w) (_context_changed w) in
        if known (_original_schema w) then
          match use_schema ok_schema (default ""%string (_original_schema w)) s1 with
          | Raised => (w1, Raised)
          | Ok s2 =>
              (mkOps s2 (request_context w) (_original_database w)
                     (_original_schema w) (_context_changed w), Ok tt)
          end
        else (w1, Ok tt)
    end
  else (w, Ok tt).

(* The body of [__aexit__]: an exception of the restore is logged and
   swallowed; [cleanup] closes cursors and does not touch the session. *)
Definition __aexit__ (ok_db ok_schema : bool) (w : t) : t :=
  if _context_changed w && RequestContext.truthy (_original_database w)
  then fst (_restore_original_context ok_db ok_schema w)
  else w.

(* One call of the handler inside the scope, with the driver's answer. *)
Inductive call :=
| UseDatabaseIsolated (database : string) (ok : bool)
| UseSchemaIsolated (schema : string) (ok : bool).

Definition step (w : t) (c : call) : t :=
  match c with
  | UseDatabaseIsolated d ok => fst (use_database_isolated ok d w)
  | UseSchemaIsolated s ok => fst (use_schema_isolated ok s w)
  end.

(* [async with db_ops: ...]: the handler's calls in program order; a call
   that raises leaves the wrapper as it was, so a scope left early by an
   exception is the scope of the calls made up to then.  Returns the session
   handed back to the pool. *)
Definition run_scope (c : capture) (calls : list call) (ok_db ok_schema : bool)
    (s0 : Session.t) (ctx : RequestContext.t) : Session.t :=
  connection (__aexit__ ok_db ok_schema
                (fold_left step calls (__aenter__ c (__init__ s0 ctx)))).

End Driver.

End IsolatedDatabaseOperations.

(** ** Transaction manager ([utils/transaction_manager.py]) *)

Module TransactionManager.

Import Session.

Record t := mkTx {
  _in_transaction : bool;
  _autocommit_original : option bool
}.

Definition __init__ : t := mkTx false None.

(* What the driver answers to each statement kind during one call. *)
Record driver := mkDriver {
  query_ok : bool;
  begin_ok : bool;
  commit_ok : bool;
  rollback_ok : bool
}.

Definition begin_transaction (d : driver) (m : t) (s : Session.t)
  : t * Session.t * result unit :=
  if _in_transaction m then (m, s, Ok tt)
  else
    let m1 := mkTx false (Some (autocommit s)) in
    let s1 := set_autocommit false s in
    if begin_ok d then (mkTx true (Some (autocommit s)), s1, Ok tt)
    else (m1, s1, Raised).

Definition _cleanup_transaction (m : t) (s : Session.t) : t * Session.t :=
  (mkTx false None,
   match _autocommit_original m with
   | Some b => set_autocommit b s
   | None => s
   end).

Definition commit_transaction (d : driver) (m : t) (s : Session.t)
  : t * Session.t * result unit :=
  if negb (_in_transaction m) then (m, s, Ok tt)
  else (_cleanup_transaction m s, if commit_ok d then Ok tt else Raised).

Definition rollback_transaction (d : driver) (m : t) (s : Session.t)
  : t * Session.t * result unit :=
  if negb (_in_transaction m) then (m, s, Ok tt)
  else (_cleanup_transaction m s, if rollback_ok d then Ok tt else Raised).

Definition in_transaction (m : t) : bool := _in_transaction m.

(* [transaction_scope]: a fresh manager, [begin] before the protected block
   when [auto_commit] is off, the body, then [commit]; an exception of the
   body or of the commit is answered by [rollback] and raised again. *)
Definition transaction_scope {St : Type} (d : driver) (auto_commit : bool)
    (body : t -> Session.t -> St -> Session.t * St * result unit)
    (s : Session.t) (st : St) : Session.t * St * result unit :=
  let '(m1, s1, rb) :=
    if negb auto_commit then begin_transaction d __init__ s
    else (__init__, s, Ok tt) in
  match rb with
  | Raised => (s1, st, Raised)
  | Ok _ =>
      let '(s2, st2, rbody) := body m1 s1 st in
      let '(m3, s3, r3) :=
        match rbody with
        | Ok _ =>
            if negb auto_commit then commit_transaction d m1 s2
            else (m1, s2, Ok tt)
        | Raised => (m1, s2, Raised)
        end in
      match r3 with
      | Ok _ => (s3, st2, Ok tt)
      | Raised =>
          if negb auto_commit
          then let '(_, s4, _) := rollback_transaction d m3 s3 in (s4, st2, Raised)
          else (s3, st2, Raised)
      end
  end.

End TransactionManager.

(** ** Transactional wrapper ([utils/async_database.py],
    [TransactionalDatabaseOperations])

    The fields inherited from the isolated wrapper are not read or written
    by the transaction calls and are left out of the record. *)

Module TransactionalDatabaseOperations.

Import Session.
Export TransactionManager.

Record t := mkTOps {
  connection : Session.t;
  request_context : RequestContext.t;
  transaction_manager : option TransactionManager.t
}.

Definition __init__ (s : Session.t) (ctx : RequestContext.t) : t :=
  mkTOps s ctx None.

Definition __aenter__ (w : t) : t :=
  mkTOps (connection w) (request_context w) (Some TransactionManager.__init__).

Definition execute_query_isolated (d : driver) (ctx : RequestContext.t)
  : RequestContext.t * result unit :=
  let ctx1 := RequestContext.increment_query_count ctx in
  if query_ok d then (ctx1, Ok tt)
  else (RequestContext.add_error ctx1, Raised).

Definition execute_with_transaction (d : driver) (auto_commit : bool) (w : t)
  : t * result unit :=
  let ctx0 := RequestContext.increment_transaction_operation (request_context w) in
  let body (tx_manager : TransactionManager.t) (s : Session.t)
           (ctx : RequestContext.t) :=
    match execute_query_isolated d ctx with
    | (ctx1, Raised) => (s, ctx1, Raised)
    | (ctx1, Ok _) =>
        (s,
         if negb auto_commit && in_transaction tx_manager
         then RequestContext.increment_transaction_commit ctx1
         else ctx1,
         Ok tt)
    end in
  match transaction_scope d auto_commit body (connection w) ctx0 with
  | (s', ctx', Ok _) => (mkTOps s' ctx' (transaction_manager w), Ok tt)
  | (s', ctx', Raised) =>
      (mkTOps s'
              (if negb auto_commit
               then RequestContext.increment_transaction_rollback ctx'
               else ctx')
              (transaction_manager w),
       Raised)
  end.

Definition begin_explicit_transaction (d : driver) (w : t) : t * result unit :=
  match transaction_manager w with
  | Some m =>
      let ctx := RequestContext.increment_transaction_operation (request_context w) in
      let '(m', s', r) := begin_transaction d m (connection w) in
      (mkTOps s' ctx (Some m'), r)
  | None => (w, Ok tt)
  end.

Definition commit_transaction (d : driver) (w : t) : t * result unit :=
  match transaction_manager w with
  | Some m =>
      match TransactionManager.commit_transaction d m (connection w) with
      | (m', s', Ok _) =>
          (mkTOps s' (RequestContext.increment_transaction_commit (request_context w))
                  (Some m'), Ok tt)
      | (m', s', Raised) => (mkTOps s' (request_context w) (Some m'), Raised)
      end
  | None => (w, Ok tt)
  end.

Definition rollback_transaction (d : driver) (w : t) : t * result unit :=
  match transaction_manager w with
  | Some m =>
      match TransactionManager.rollback_transaction d m (connection w) with
      | (m', s', Ok _) =>
          (mkTOps s' (RequestContext.increment_transaction_rollback (request_context w))
                  (Some m'), Ok tt)
      | (m', s', Raised) => (mkTOps s' (request_context w) (Some m'), Raised)
      end
  | None => (w, Ok tt)
  end.

(* The calls a handler can make on the wrapper, each with the answers the
   driver gives during it. *)
Inductive call :=
| ExecuteWithTransaction (auto_commit : bool) (d : driver)
| BeginExplicitTransaction (d : driver)
| CommitTransaction (d : driver)
| RollbackTransaction (d : driver).

(* A handler may catch what a call raises and go on, so the wrapper state
   is threaded through every call of the sequence. *)
Definition step (w : t) (c : call) : t :=
  match c with
  | ExecuteWithTransaction ac d => fst (execute_with_transaction d ac w)
  | BeginExplicitTransaction d => fst (begin_explicit_transaction d w)
  | CommitTransaction d => fst (commit_transaction d w)
  | RollbackTransaction d => fst (rollback_transaction d w)
  end.

Definition run (calls : list call) (w : t) : t := fold_left step calls w.

(* commits + rollbacks <= operations, on the request's metrics *)
Definition counters_consistent (ctx : RequestContext.t) : Prop :=
  let m := RequestContext.metrics ctx in
  RequestContext.transaction_commits m + RequestContext.transaction_rollbacks m
  <= RequestContext.transaction_operations m.

End TransactionalDatabaseOperations.

(** ** Connection pool ([utils/async_pool.py]) *)

Module AsyncConnectionPool.

Record ConnectionPoolConfig := mkPoolConfig {
  min_size : Z;
  max_size : Z;
  connection_timeout : Q;
  retry_attempts : Z
}.

(* [connection] names the underlying driver session. *)
Record PooledConnection := mkConn {
  connection : nat;
  in_use : bool;
  is_healthy : bool;
  last_used : Q
}.

(* [_connections] is a Python set; the list is its iteration order. *)
Record t := mkPool {
  pool_config : ConnectionPoolConfig;
  _connections : list PooledConnection;
  _closed : bool
}.

Inductive error := RuntimeError_pool_closed | ConnectionFailed.

(* [Pending]: the coroutine is still inside its polling loop. *)
Inductive outcome (A : Type) :=
| Returned (a : A)
| Raised (e : error)
| Pending.
Arguments Returned {A} a.
Arguments Raised {A} e.
Arguments Pending {A}.

Definition available (c : PooledConnection) : bool :=
  negb (in_use c) && is_healthy c.

(* [for conn in self._connections: if not conn.in_use and conn.is_healthy:
   return conn] *)
Definition first_available (l : list PooledConnection) : option PooledConnection :=
  List.find available l.

(* [_create_connection]: [opened] is the driver's answer, the new session
   or a failure. *)
Definition _create_connection (opened : option nat) (now : Q) (p : t)
  : outcome (PooledConnection * t) :=
  match opened with
  | Some c =>
      let pooled_conn := mkConn c false true now in
      Returned (pooled_conn,
                mkPool (pool_config p) (_connections p ++ [pooled_conn]) (_closed p))
  | None => Raised ConnectionFailed
  end.

(* [while True: await asyncio.sleep(0.1); for conn in ...]: [seen k] is the
   connection set as the [k]-th poll finds it (other tasks release
   connections during the sleeps), [polls] bounds how many polls are
   observed. *)
Fixpoint wait_loop (seen : nat -> list PooledConnection) (polls k : nat)
  : outcome PooledConnection :=
  match polls with
  | O => Pending
  | S polls' =>
      match first_available (seen k) with
      | Some c => Returned c
      | None => wait_loop seen polls' (S k)
      end
  end.

Definition _get_connection (opened : option nat) (now : Q)
    (seen : nat -> list PooledConnection) (polls : nat) (p : t)
  : outcome (PooledConnection * t) :=
  match first_available (_connections p) with
  | Some c => Returned (c, p)
  | None =>
      if Z.of_nat (length (_connections p)) <? max_size (pool_config p)
      then _create_connection opened now p
      else
        match wait_loop seen polls 1 with
        | Returned c => Returned (c, p)
        | Raised e => Raised e
        | Pending => Pending
        end
  end.

(* [mark_in_use] and [mark_available] write the flags of one pooled
   connection; the entries of the set are told apart by their session. *)
Definition mark (busy : bool) (now : Q) (c : PooledConnection) (p : t) : t :=
  mkPool (pool_config p)
    (map (fun x => if (connection x =? connection c)%nat
                   then mkConn (connection x) busy (is_healthy x) now
                   else x)
         (_connections p))
    (_closed p).

Definition mark_in_use : Q -> PooledConnection -> t -> t := mark true.
Definition mark_available : Q -> PooledConnection -> t -> t := mark false.

(* The part of [acquire] that runs before the [yield]: the pooled
   connection chosen and the pool with it marked in use. *)
Definition acquire (opened : option nat) (now : Q)
    (seen : nat -> list PooledConnection) (polls : nat) (p : t)
  : outcome (PooledConnection * t) :=
  if _closed p then Raised RuntimeError_pool_closed
  else
    match _get_connection opened now seen polls p with
    | Returned (c, p') => Returned (c, mark_in_use now c p')
    | other => other
    end.

(* Seconds spent sleeping after [polls] polls of the waiting loop. *)
Definition waited (polls : nat) : Q := (inject_Z (Z.of_nat polls) * (1 # 10))%Q.

End AsyncConnectionPool.

(** ** Circuit breaker ([rate_limiting/circuit_breaker.py]) *)

Module CircuitBreaker.

Inductive CircuitState := CLOSED | OPEN | HALF_OPEN.

Record CircuitBreakerConfig := mkConfig {
  failure_threshold : Z;
  recovery_timeout : Q;
  success_threshold : Z;
  timeout : Q;
  monitoring_window : Z;
  exponential_backoff : bool;
  max_recovery_timeout : Q;
  half_open_max_calls : Z
}.

Record CircuitBreakerMetrics := mkMetrics {
  total_requests : Z;
  successful_requests : Z;
  failed_requests : Z;
  rejected_requests : Z;
  state_changes : Z;
  last_failure_time : option Q;
  last_success_time : option Q;
  recent_failures : list Q;
  recent_successes : list Q
}.

Record t := mkBreaker {
  config : CircuitBreakerConfig;
  state : CircuitState;
  state_changed_at : Q;
  failure_count : Z;
  success_count : Z;
  half_open_calls : Z;
  metrics : CircuitBreakerMetrics
}.

Definition new_metrics : CircuitBreakerMetrics :=
  mkMetrics 0 0 0 0 0 None None [] [].

Definition __init__ (config : CircuitBreakerConfig) (now : Q) : t :=
  mkBreaker config CLOSED now 0 0 0 new_metrics.

Definition state_eqb (a b : CircuitState) : bool :=
  match a, b with
  | CLOSED, CLOSED | OPEN, OPEN | HALF_OPEN, HALF_OPEN => true
  | _, _ => false
  end.

Definition Qltb (x y : Q) : bool := negb (Qle_bool y x).

Definition record_success (timestamp : Q) (m : CircuitBreakerMetrics) :=
  mkMetrics (total_requests m + 1) (successful_requests m + 1) (failed_requests m)
    (rejected_requests m) (state_changes m) (last_failure_time m) (Some timestamp)
    (recent_failures m) (recent_successes m ++ [timestamp]).

Definition record_failure (timestamp : Q) (m : CircuitBreakerMetrics) :=
  mkMetrics (total_requests m + 1) (successful_requests m) (failed_requests m + 1)
    (rejected_requests m) (state_changes m) (Some timestamp) (last_success_time m)
    (recent_failures m ++ [timestamp]) (recent_successes m).

Definition record_rejection (m : CircuitBreakerMetrics) :=
  mkMetrics (total_requests m) (successful_requests m) (failed_requests m)
    (rejected_requests m + 1) (state_changes m) (last_failure_time m)
    (last_success_time m) (recent_failures m) (recent_successes m).

Definition record_state_change (m : CircuitBreakerMetrics) :=
  mkMetrics (total_requests m) (successful_requests m) (failed_requests m)
    (rejected_requests m) (state_changes m + 1) (last_failure_time m)
    (last_success_time m) (recent_failures m) (recent_successes m).

(* [while q and q[0] < cutoff: q.popleft()] *)
Fixpoint popleft_old (cutoff : Q) (q : list Q) : list Q :=
  match q with
  | x :: q' => if Qltb x cutoff then popleft_old cutoff q' else q
  | [] => []
  end.

(* [get_failure_rate] then [get_recent_failure_count]: both deques are
   pruned, the count of recent failures is returned. *)
Definition get_recent_failure_count (now : Q) (window_seconds : Z)
    (m : CircuitBreakerMetrics) : CircuitBreakerMetrics * Z :=
  let cutoff := (now - inject_Z window_seconds)%Q in
  let fs := popleft_old cutoff (recent_failures m) in
  let ss := popleft_old cutoff (recent_successes m) in
  (mkMetrics (total_requests m) (successful_requests m) (failed_requests m)
     (rejected_requests m) (state_changes m) (last_failure_time m)
     (last_success_time m) fs ss,
   Z.of_nat (length fs)).

Definition with_metrics (m : CircuitBreakerMetrics) (b : t) : t :=
  mkBreaker (config b) (state b) (state_changed_at b) (failure_count b)
    (success_count b) (half_open_calls b) m.

Definition _transition_to_open (now : Q) (b : t) : t :=
  if negb (state_eqb (state b) OPEN)
  then mkBreaker (config b) OPEN now (failure_count b) 0 0
         (record_state_change (metrics b))
  else b.

Definition _transition_to_half_open (now : Q) (b : t) : t :=
  if negb (state_eqb (state b) HALF_OPEN)
  then mkBreaker (config b) HALF_OPEN now (failure_count b) 0 0
         (record_state_change (metrics b))
  else b.

Definition _transition_to_closed (now : Q) (b : t) : t :=
  if negb (state_eqb (state b) CLOSED)
  then mkBreaker (config b) CLOSED now 0 0 0 (record_state_change (metrics b))
  else b.

(* [None] is the [ZeroDivisionError] of
   [max_recovery_timeout / recovery_timeout]. *)
Definition _get_recovery_timeout (b : t) : option Q :=
  let c := config b in
  if negb (exponential_backoff c) then Some (recovery_timeout c)
  else if Qeq_bool (recovery_timeout c) 0 then None
  else
    let backoff_multiplier :=
      Qmin (inject_Z (2 ^ (state_changes (metrics b) / 2)))
           (max_recovery_timeout c / recovery_timeout c)%Q in
    Some (Qmin (recovery_timeout c * backoff_multiplier)%Q (max_recovery_timeout c)).

Definition _get_retry_after (now : Q) (b : t) : option Q :=
  match _get_recovery_timeout b with
  | Some rt => Some (Qmax 0 (rt - (now - state_changed_at b))%Q)
  | None => None
  end.

Definition _can_execute (now : Q) (b : t) : option (t * bool) :=
  match state b with
  | CLOSED => Some (b, true)
  | OPEN =>
      match _get_recovery_timeout b with
      | Some rt =>
          if Qle_bool rt (now - state_changed_at b)%Q
          then Some (_transition_to_half_open now b, true)
          else Some (b, false)
      | None => None
      end
  | HALF_OPEN =>
      Some (b, half_open_calls b <? half_open_max_calls (config b))
  end.

Definition _on_success (now : Q) (b : t) : t :=
  let b1 := with_metrics (record_success now (metrics b)) b in
  match state b1 with
  | HALF_OPEN =>
      let b2 := mkBreaker (config b1) (state b1) (state_changed_at b1)
                  (failure_count b1) (success_count b1 + 1) (half_open_calls b1)
                  (metrics b1) in
      if success_threshold (config b2) <=? success_count b2
      then _transition_to_closed now b2 else b2
  | CLOSED =>
      mkBreaker (config b1) (state b1) (state_changed_at b1) 0
        (success_count b1) (half_open_calls b1) (metrics b1)
  | OPEN => b1
  end.

Definition _on_failure (now : Q) (b : t) : t :=
  let b1 := with_metrics (record_failure now (metrics b)) b in
  match state b1 with
  | CLOSED =>
      let '(m, recent) :=
        get_recent_failure_count now (monitoring_window (config b1)) (metrics b1) in
      let b2 := mkBreaker (config b1) (state b1) (state_changed_at b1)
                  (failure_count b1 + 1) (success_count b1) (half_open_calls b1) m in
      if (failure_threshold (config b2) <=? failure_count b2)
         || (failure_threshold (config b2) <=? recent)
      then _transition_to_open now b2 else b2
  | HALF_OPEN => _transition_to_open now b1
  | OPEN => b1
  end.

(* What the wrapped function does once it is invoked; a timeout of
   [asyncio.wait_for] counts as a failure. *)
Inductive func_outcome := FuncReturns | FuncRaises | FuncTimesOut.

Inductive call_result :=
| ResultReturned
| ResultRaised
| ResultTimeout
| CircuitBreakerOpenError (retry_after : Q)
| ZeroDivisionError.

(* Whether the wrapped function was invoked during the call. *)
Definition reached_function (r : call_result) : bool :=
  match r with
  | ResultReturned | ResultRaised | ResultTimeout => true
  | CircuitBreakerOpenError _ | ZeroDivisionError => false
  end.

(* [call]: the gate under the state lock at clock reading [now], the
   wrapped function, then the bookkeeping at clock reading [done]. *)
Definition call (now : Q) (f : func_outcome) (done : Q) (b : t) : t * call_result :=
  match _can_execute now b with
  | None => (b, ZeroDivisionError)
  | Some (b1, false) =>
      let b2 := with_metrics (record_rejection (metrics b1)) b1 in
      match _get_retry_after now b2 with
      | Some ra => (b2, CircuitBreakerOpenError ra)
      | None => (b2, ZeroDivisionError)
      end
  | Some (b1, true) =>
      let b2 :=
        if state_eqb (state b1) HALF_OPEN
        then mkBreaker (config b1) (state b1) (state_changed_at b1)
               (failure_count b1) (success_count b1) (half_open_calls b1 + 1)
               (metrics b1)
        else b1 in
      match f with
      | FuncReturns => (_on_success done b2, ResultReturned)
      | FuncRaises => (_on_failure done b2, ResultRaised)
      | FuncTimesOut => (_on_failure done b2, ResultTimeout)
      end
  end.

End CircuitBreaker.

(** ** Token bucket ([rate_limiting/rate_limiter.py]) *)

Module TokenBucket.

Record t := mkBucket {
  capacity : Z;
  refill_rate : Q;
  tokens : Q;
  last_refill : Q
}.

Definition __init__ (capacity : Z) (refill_rate : Q) (now : Q) : t :=
  mkBucket capacity refill_rate (inject_Z capacity) now.

Definition _refill (now : Q) (b : t) : t :=
  let elapsed := (now - last_refill b)%Q in
  if CircuitBreaker.Qltb 0 elapsed then
    let tokens_to_add := (elapsed * refill_rate b)%Q in
    mkBucket (capacity b) (refill_rate b)
      (Qmin (inject_Z (capacity b)) (tokens b + tokens_to_add)%Q) now
  else b.

(* [(success, retry_after)], or the [ZeroDivisionError] of
   [tokens_needed / self.refill_rate]. *)
Inductive consume_result :=
| Consumed
| Denied (retry_after : Q)
| ZeroDivisionError.

Definition consume (now : Q) (n : Z) (b : t) : t * consume_result :=
  let b1 := _refill now b in
  if Qle_bool (inject_Z n) (tokens b1) then
    (mkBucket (capacity b1) (refill_rate b1) (tokens b1 - inject_Z n)%Q
       (last_refill b1), Consumed)
  else
    let tokens_needed := (inject_Z n - tokens b1)%Q in
    if Qeq_bool (refill_rate b1) 0 then (b1, ZeroDivisionError)
    else (b1, Denied (tokens_needed / refill_rate b1)%Q).

Definition succeeded (r : consume_result) : bool :=
  match r with Consumed => true | _ => false end.

(* One [consume()] per clock reading, in program order; the results. *)
Fixpoint consume_all (times : list Q) (b : t) : t * list consume_result :=
  match times with
  | [] => (b, [])
  | now :: times' =>
      let '(b1, r) := consume now 1 b in
      let '(b2, rs) := consume_all times' b1 in
      (b2, r :: rs)
  end.

Definition successes (rs : list consume_result) : nat :=
  length (filter (fun r => succeeded r = true) rs).

End TokenBucket.

Module ClientRateLimit.

Inductive RateLimitType :=
| REQUESTS_PER_SECOND
| REQUESTS_PER_MINUTE
| REQUESTS_PER_HOUR
| QUERIES_PER_MINUTE
| QUERIES_PER_HOUR
| CONCURRENT_REQUESTS.

Record RateLimit := mkRateLimit {
  limit_type : RateLimitType;
  limit : Z;
  window_seconds : Z;
  burst_allowance : Z
}.

Definition uses_token_bucket (ty : RateLimitType) : bool :=
  match ty with
  | REQUESTS_PER_SECOND | QUERIES_PER_MINUTE => true
  | _ => false
  end.

(* The token-bucket branch of [_init_limiters]; [None] where the limit gets
   no bucket or [limit / window_seconds] divides by zero. *)
Definition init_bucket (l : RateLimit) (now : Q) : option TokenBucket.t :=
  if uses_token_bucket (limit_type l) then
    if window_seconds l =? 0 then None
    else
      let refill_rate := (inject_Z (limit l) / inject_Z (window_seconds l))%Q in
      let capacity := limit l + burst_allowance l in
      Some (TokenBucket.__init__ capacity refill_rate now)
  else None.

End ClientRateLimit.

(** ** Backoff schedule ([rate_limiting/backoff.py]) *)

Module Backoff.

Inductive BackoffStrategy :=
| FIXED | LINEAR | EXPONENTIAL | FIBONACCI | POLYNOMIAL | CUSTOM.

Record BackoffConfig := mkConfig {
  strategy : BackoffStrategy;
  initial_delay : Q;
  max_delay : Q;
  max_attempts : Z;
  exponential_base : Q;
  exponential_cap : Q;
  linear_increment : Q;
  polynomial_degree : Z;
  fibonacci_multiplier : Q;
  jitter : bool;
  jitter_type : string;
  jitter_max_ratio : Q;
  custom_function : option (Z -> Q -> Q);
  total_timeout : option Q
}.

(* The iterator; [_rng] counts the draws taken from the random source. *)
Record t := mkBackoff {
  config : BackoffConfig;
  _attempt_count : nat;
  _start_time : Q;
  _rng : nat
}.

Inductive result (A : Type) :=
| Value (a : A)
| StopIteration
| ZeroDivisionError.
Arguments Value {A} a.
Arguments StopIteration {A}.
Arguments ZeroDivisionError {A}.

Section Random.
(* [random.random()]: the [k]-th draw of the process, in [0, 1). *)
Variable random : nat -> Q.

(* [random.uniform(a, b)] is [a + (b - a) * random()]. *)
Definition uniform (a b : Q) (k : nat) : Q := (a + (b - a) * random k)%Q.

(* [fibonacci(n)] of [_fibonacci_delay]: the loop keeps the pair [(a, b)]. *)
Fixpoint fib_loop (steps : nat) (a b : Z) : Z :=
  match steps with
  | O => b
  | S steps' => fib_loop steps' b (a + b)
  end.

Definition fibonacci (n : nat) : Z :=
  match n with
  | O => 0
  | S O => 1
  | S (S k) => fib_loop (S k) 0 1
  end.

Definition _fibonacci_delay (c : BackoffConfig) (attempt : nat) : Q :=
  (initial_delay c * fibonacci_multiplier c * inject_Z (fibonacci (attempt + 1)))%Q.

(* The strategy delay before the [max_delay] cap; [0 ** negative] raises. *)
Definition base_delay (c : BackoffConfig) (attempt : nat) : result Q :=
  match strategy c with
  | FIXED => Value (initial_delay c)
  | LINEAR =>
      Value (initial_delay c + inject_Z (Z.of_nat attempt) * linear_increment c)%Q
  | EXPONENTIAL =>
      Value (Qmin (initial_delay c * exponential_base c ^ Z.of_nat attempt)%Q
                  (exponential_cap c))
  | FIBONACCI => Value (_fibonacci_delay c attempt)
  | POLYNOMIAL =>
      if (Z.of_nat attempt =? 0) && (polynomial_degree c <? 0)
      then ZeroDivisionError
      else Value (initial_delay c
                  * inject_Z (Z.of_nat attempt) ^ polynomial_degree c)%Q
  | CUSTOM =>
      match custom_function c with
      | Some f => Value (f (Z.of_nat attempt) (initial_delay c))
      | None => Value (initial_delay c)
      end
  end.

(* [_calculate_delay] with [_apply_jitter] inlined: the decorrelated jitter
   calls [_calculate_delay(attempt - 1)] for a value it does not use, which
   takes draws from the random source all the same. *)
Fixpoint _calculate_delay (c : BackoffConfig) (attempt : nat) (k : nat)
  : result Q * nat :=
  match base_delay c attempt with
  | Value d0 =>
      let delay := Qmin d0 (max_delay c) in
      if jitter c then
        if String.eqb (jitter_type c) "full" then
          (Value (Qmax 0 (uniform 0 delay k)), S k)
        else if String.eqb (jitter_type c) "equal" then
          (Value (Qmax 0 (delay / 2 + uniform 0 (delay / 2) k)%Q), S k)
        else if String.eqb (jitter_type c) "decorrelated" then
          match attempt with
          | O => (Value (Qmax 0 delay), k)
          | S prev =>
              match _calculate_delay c prev k with
              | (Value _, k') =>
                  (Value (Qmax 0 (uniform (initial_delay c) (delay * 3)%Q k')), S k')
              | (r, k') => (r, k')
              end
          end
        else
          let jitter_amount := (delay * jitter_max_ratio c)%Q in
          (Value (Qmax 0 (delay + uniform (- jitter_amount) jitter_amount k)%Q), S k)
      else (Value (Qmax 0 delay), k)
  | r => (r, k)
  end.

(* Python truthiness of [total_timeout]: neither [None] nor zero. *)
Definition timeout_set (o : option Q) : option Q :=
  match o with
  | Some x => if Qeq_bool x 0 then None else Some x
  | None => None
  end.

Definition __iter__ (now : Q) (b : t) : t :=
  mkBackoff (config b) 0 now (_rng b).

Definition __next__ (now : Q) (b : t) : t * result Q :=
  if max_attempts (config b) <=? Z.of_nat (_attempt_count b)
  then (b, StopIteration)
  else
    let expired :=
      match timeout_set (total_timeout (config b)) with
      | Some total => Qle_bool total (now - _start_time b)%Q
      | None => false
      end in
    if expired then (b, StopIteration)
    else
      match _calculate_delay (config b) (_attempt_count b) (_rng b) with
      | (Value delay, k) =>
          (mkBackoff (config b) (S (_attempt_count b)) (_start_time b) k,
           Value delay)
      | (r, k) => (mkBackoff (config b) (_attempt_count b) (_start_time b) k, r)
      end.

(* The delays an [for delay in backoff] loop receives when [__next__] is
   asked at the clock readings [nows]; the loop ends at the first call that
   does not return a value. *)
Fixpoint produced (nows : list Q) (b : t) : list Q :=
  match nows with
  | [] => []
  | now :: nows' =>
      match __next__ now b with
      | (b', Value d) => d :: produced nows' b'
      | _ => []
      end
  end.

(* A caller that sleeps for every delay it receives: the clock moves by the
   delay plus [lag], the time the caller spends between two requests. *)
Fixpoint slept (lags : list Q) (now : Q) (b : t) : list Q :=
  match lags with
  | [] => []
  | lag :: lags' =>
      match __next__ (now + lag)%Q b with
      | (b', Value d) => d :: slept lags' (now + lag + d)%Q b'
      | _ => []
      end
  end.

Fixpoint Qsum (l : list Q) : Q :=
  match l with
  | [] => 0
  | x :: l' => (x + Qsum l')%Q
  end.

End Random.

End Backoff.

(** ** Calendar time as [datetime.datetime] presents it

    The standard library's proleptic Gregorian calendar: the fields of a
    datetime, its ordinal day ([toordinal]), [weekday] with Monday as 0,
    the order on datetimes, and the sums with a [timedelta] the quota
    manager takes. *)

Module datetime.

Record t := mkDatetime {
  year : Z;
  month : Z;
  day : Z;
  hour : Z;
  minute : Z;
  second : Z;
  microsecond : Z
}.

Definition date (d : t) : Z * Z * Z := (year d, month d, day d).

Definition date_eqb (a b : Z * Z * Z) : bool :=
  let '(y1, m1, d1) := a in
  let '(y2, m2, d2) := b in
  (y1 =? y2) && (m1 =? m2) && (d1 =? d2).

Definition is_leap (y : Z) : bool :=
  (y mod 4 =? 0) && (negb (y mod 100 =? 0) || (y mod 400 =? 0)).

Definition days_in_month (y m : Z) : Z :=
  if m =? 2 then (if is_leap y then 29 else 28)
  else if (m =? 4) || (m =? 6) || (m =? 9) || (m =? 11) then 30
  else 31.

Definition days_before_year (y : Z) : Z :=
  let y1 := y - 1 in y1 * 365 + y1 / 4 - y1 / 100 + y1 / 400.

Definition days_before_month (y m : Z) : Z :=
  nth (Z.to_nat (m - 1)) [0; 31; 59; 90; 120; 151; 181; 212; 243; 273; 304; 334] 0
  + (if (2 <? m) && is_leap y then 1 else 0).

Definition toordinal (d : t) : Z :=
  days_before_year (year d) + days_before_month (year d) (month d) + day d.

Definition weekday (d : t) : Z := (toordinal d + 6) mod 7.

(* [a >= b] *)
Definition geb (a b : t) : bool :=
  let key (d : t) := [year d; month d; day d; hour d; minute d; second d; microsecond d] in
  let fix lex (xs ys : list Z) : bool :=
    match xs, ys with
    | x :: xs', y :: ys' => (y <? x) || ((x =? y) && lex xs' ys')
    | _, _ => true
    end in
  lex (key a) (key b).

(* [d.replace(hour=0, minute=0, second=0, microsecond=0)] *)
Definition midnight (d : t) : t :=
  mkDatetime (year d) (month d) (day d) 0 0 0 0.

(* [d + timedelta(days=1)] *)
Definition next_day (d : t) : t :=
  if day d <? days_in_month (year d) (month d)
  then mkDatetime (year d) (month d) (day d + 1)
         (hour d) (minute d) (second d) (microsecond d)
  else if month d <? 12
  then mkDatetime (year d) (month d + 1) 1
         (hour d) (minute d) (second d) (microsecond d)
  else mkDatetime (year d + 1) 1 1
         (hour d) (minute d) (second d) (microsecond d).

(* [d + timedelta(days=n)] *)
Definition add_days (n : Z) (d : t) : t := Nat.iter (Z.to_nat n) next_day d.

(* [d + timedelta(hours=1)] *)
Definition add_hour (d : t) : t :=
  if hour d <? 23
  then mkDatetime (year d) (month d) (day d)
         (hour d + 1) (minute d) (second d) (microsecond d)
  else next_day (mkDatetime (year d) (month d) (day d)
                   0 (minute d) (second d) (microsecond d)).

End datetime.

(** ** Quotas ([rate_limiting/quota_manager.py]) *)

Module Quota.

Inductive QuotaType :=
| REQUESTS_PER_HOUR
| REQUESTS_PER_DAY
| QUERIES_PER_HOUR
| QUERIES_PER_DAY
| DATA_TRANSFER_BYTES
| COMPUTE_SECONDS
| STORAGE_BYTES
| CONCURRENT_CONNECTIONS.

Definition QuotaType_to_nat (q : QuotaType) : nat :=
  match q with
  | REQUESTS_PER_HOUR => 0
  | REQUESTS_PER_DAY => 1
  | QUERIES_PER_HOUR => 2
  | QUERIES_PER_DAY => 3
  | DATA_TRANSFER_BYTES => 4
  | COMPUTE_SECONDS => 5
  | STORAGE_BYTES => 6
  | CONCURRENT_CONNECTIONS => 7
  end%nat.

Definition QuotaType_of_nat (n : nat) : QuotaType :=
  match n with
  | 0 => REQUESTS_PER_HOUR
  | 1 => REQUESTS_PER_DAY
  | 2 => QUERIES_PER_HOUR
  | 3 => QUERIES_PER_DAY
  | 4 => DATA_TRANSFER_BYTES
  | 5 => COMPUTE_SECONDS
  | 6 => STORAGE_BYTES
  | _ => CONCURRENT_CONNECTIONS
  end%nat.

Lemma QuotaType_of_to_nat (q : QuotaType) :
  QuotaType_of_nat (QuotaType_to_nat q) = q.
Proof. by destruct q. Qed.

#[global] Instance QuotaType_eq_dec : EqDecision QuotaType.
Proof. solve_decision. Defined.

#[global] Instance QuotaType_countable : Countable QuotaType :=
  inj_countable' QuotaType_to_nat QuotaType_of_nat QuotaType_of_to_nat.

Inductive QuotaPeriod := HOURLY | DAILY | WEEKLY | MONTHLY | CUSTOM.

Record QuotaLimit := mkLimit {
  quota_type : QuotaType;
  limit : Z;
  period : QuotaPeriod;
  soft_limit : Z;
  reset_time : option datetime.t;
  rollover_allowed : bool;
  burst_allowance : Z
}.

(* [__post_init__]: a missing soft limit is [int(limit * 0.8)]. *)
Definition QuotaLimit_init (quota_type : QuotaType) (limit : Z)
    (period : QuotaPeriod) (soft_limit : option Z) (reset_time : option datetime.t)
    (rollover_allowed : bool) (burst_allowance : Z) : QuotaLimit :=
  mkLimit quota_type limit period
    (default (Z.quot (limit * 8) 10) soft_limit)
    reset_time rollover_allowed burst_allowance.

Record QuotaUsage := mkUsage {
  current_usage : Z;
  peak_usage : Z;
  last_reset : datetime.t;
  warning_triggered : bool;
  limit_exceeded : bool;
  burst_used : Z;
  rollover_balance : Z;
  usage_history : list (datetime.t * Z)
}.

(* [QuotaUsage(quota_type)] created at clock reading [now] *)
Definition QuotaUsage_init (now : datetime.t) : QuotaUsage :=
  mkUsage 0 0 now false false 0 0 [].

(* What an awaited coroutine of the quota manager comes to.  [Blocked]: it
   awaits an [asyncio.Lock] that is held, and the holder is the very task
   that awaits, so the await never completes. *)
Inductive outcome (A : Type) :=
| Returned (a : A)
| QuotaExceededError (is_global : bool) (quota_type : QuotaType)
    (current_usage limit : Z) (reset_time : option datetime.t)
| KeyError
| Blocked.
Arguments Returned {A} a.
Arguments QuotaExceededError {A} is_global quota_type current_usage limit reset_time.
Arguments KeyError {A}.
Arguments Blocked {A}.

End Quota.

Module ClientQuota.

Import Quota.

(* [_lock]: whether the client's [asyncio.Lock] is held. *)
Record t := mkClientQuota {
  client_id : string;
  quota_limits : gmap QuotaType QuotaLimit;
  quota_usage : gmap QuotaType QuotaUsage;
  _lock : bool
}.

Definition __init__ (client_id : string) (quota_limits : gmap QuotaType QuotaLimit)
    (now : datetime.t) : t :=
  mkClientQuota client_id quota_limits
    ((fun _ => QuotaUsage_init now) <$> quota_limits) false.

Definition with_lock (held : bool) (cq : t) : t :=
  mkClientQuota (client_id cq) (quota_limits cq) (quota_usage cq) held.

Definition with_usage (qt : QuotaType) (u : QuotaUsage) (cq : t) : t :=
  mkClientQuota (client_id cq) (quota_limits cq) (<[qt := u]> (quota_usage cq))
    (_lock cq).

(* The usage record [reset_quota] leaves behind. *)
Definition reset_usage (l : QuotaLimit) (force : bool) (now : datetime.t)
    (u : QuotaUsage) : QuotaUsage :=
  let rollover :=
    if rollover_allowed l && negb force then
      let unused_quota := Z.max 0 (limit l - current_usage u) in
      Z.min unused_quota (limit l / 2)
    else 0 in
  mkUsage 0 0 now false false 0 rollover (usage_history u).

Definition reset_quota (qt : QuotaType) (force : bool) (now : datetime.t) (cq : t)
  : t * outcome unit :=
  if _lock cq then (cq, Blocked)
  else
    match quota_limits cq !! qt with
    | None => (cq, Returned tt)
    | Some l =>
        match quota_usage cq !! qt with
        | None => (cq, KeyError)
        | Some u => (with_usage qt (reset_usage l force now u) cq, Returned tt)
        end
    end.

Definition reset_needed (l : QuotaLimit) (u : QuotaUsage) (now : datetime.t) : bool :=
  let last := last_reset u in
  let same_date := datetime.date_eqb (datetime.date now) (datetime.date last) in
  match period l with
  | HOURLY => negb (datetime.hour now =? datetime.hour last) || negb same_date
  | DAILY => negb same_date
  | WEEKLY => (datetime.weekday now =? 0) && negb same_date
  | MONTHLY =>
      negb (datetime.month now =? datetime.month last)
      || negb (datetime.year now =? datetime.year last)
  | CUSTOM =>
      match reset_time l with
      | Some rt => datetime.geb now rt
      | None => false
      end
  end.

(* Runs inside the caller's [async with self._lock]. *)
Definition _check_reset_needed (qt : QuotaType) (now : datetime.t) (cq : t)
  : t * outcome unit :=
  match quota_limits cq !! qt, quota_usage cq !! qt with
  | Some l, Some u =>
      if reset_needed l u now then reset_quota qt false now cq
      else (cq, Returned tt)
  | _, _ => (cq, KeyError)
  end.

Definition _get_next_reset_time (l : QuotaLimit) (now : datetime.t) : datetime.t :=
  match period l with
  | HOURLY =>
      datetime.add_hour
        (datetime.mkDatetime (datetime.year now) (datetime.month now)
           (datetime.day now) (datetime.hour now) 0 0 0)
  | DAILY => datetime.next_day (datetime.midnight now)
  | WEEKLY =>
      let days_until_monday := (7 - datetime.weekday now) mod 7 in
      datetime.add_days (if days_until_monday =? 0 then 7 else days_until_monday)
        (datetime.midnight now)
  | MONTHLY =>
      if datetime.month now =? 12
      then datetime.mkDatetime (datetime.year now + 1) 1 1 0 0 0 0
      else datetime.mkDatetime (datetime.year now) (datetime.month now + 1) 1 0 0 0 0
  | CUSTOM =>
      match reset_time l with
      | Some rt => rt
      | None => datetime.add_hour now
      end
  end.

(* [usage.usage_history[-max_entries:]] *)
Definition _trim_usage_history (h : list (datetime.t * Z)) : list (datetime.t * Z) :=
  if (1000 <? length h)%nat then drop (length h - 1000) h else h.

(* [limit + rollover balance + (burst allowance - burst used)] *)
Definition available_quota (l : QuotaLimit) (u : QuotaUsage) : Z :=
  limit l + rollover_balance u + (burst_allowance l - burst_used u).

Definition consume_quota (qt : QuotaType) (amount : Z) (now : datetime.t) (cq : t)
  : t * outcome bool :=
  if _lock cq then (cq, Blocked)
  else
    match quota_limits cq !! qt with
    | None => (cq, Returned true)
    | Some _ =>
        match _check_reset_needed qt now (with_lock true cq) with
        | (cq1, Returned _) =>
            match quota_limits cq1 !! qt, quota_usage cq1 !! qt with
            | Some l, Some u =>
                let available := available_quota l u in
                if current_usage u + amount <=? available then
                  let usage1 := current_usage u + amount in
                  let burst1 :=
                    if limit l + rollover_balance u <? usage1
                    then usage1 - (limit l + rollover_balance u)
                    else burst_used u in
                  let u' :=
                    mkUsage usage1 (Z.max (peak_usage u) usage1) (last_reset u)
                      (warning_triggered u || (soft_limit l <=? usage1))
                      (limit_exceeded u) burst1 (rollover_balance u)
                      (_trim_usage_history (usage_history u ++ [(now, amount)])) in
                  (with_lock false (with_usage qt u' cq1), Returned true)
                else
                  let u' :=
                    mkUsage (current_usage u) (peak_usage u) (last_reset u)
                      (warning_triggered u) true (burst_used u)
                      (rollover_balance u) (usage_history u) in
                  (with_lock false (with_usage qt u' cq1),
                   QuotaExceededError false qt (current_usage u) available
                     (Some (_get_next_reset_time l now)))
            | _, _ => (with_lock false cq1, KeyError)
            end
        | (cq1, Blocked) => (cq1, Blocked)
        | (cq1, KeyError) => (with_lock false cq1, KeyError)
        | (cq1, QuotaExceededError g q c l r) =>
            (with_lock false cq1, QuotaExceededError g q c l r)
        end
    end.

(* [(available, remaining)]; a missing limit answers [(True, inf)], here
   [None] for the infinite remainder. *)
Definition check_quota_available (qt : QuotaType) (amount : Z) (now : datetime.t)
    (cq : t) : t * outcome (bool * option Z) :=
  if _lock cq then (cq, Blocked)
  else
    match quota_limits cq !! qt with
    | None => (cq, Returned (true, None))
    | Some _ =>
        match _check_reset_needed qt now (with_lock true cq) with
        | (cq1, Returned _) =>
            match quota_limits cq1 !! qt, quota_usage cq1 !! qt with
            | Some l, Some u =>
                let remaining := available_quota l u - current_usage u in
                (with_lock false cq1, Returned (amount <=? remaining, Some remaining))
            | _, _ => (with_lock false cq1, KeyError)
            end
        | (cq1, Blocked) => (cq1, Blocked)
        | (cq1, KeyError) => (with_lock false cq1, KeyError)
        | (cq1, QuotaExceededError g q c l r) =>
            (with_lock false cq1, QuotaExceededError g q c l r)
        end
    end.

End ClientQuota.

Module QuotaManager.

Import Quota.

(* The values [getattr(self.config.quotas, ..., default)] reads. *)
Record QuotaConfig := mkQuotaConfig {
  default_requests_per_hour : Z;
  default_requests_per_day : Z;
  default_queries_per_hour : Z;
  default_data_transfer_mb : Z;
  default_concurrent_connections : Z;
  global_requests_per_hour : Z;
  global_queries_per_hour : Z;
  global_concurrent_connections : Z
}.

Definition config_defaults : QuotaConfig :=
  mkQuotaConfig 1000 10000 500 1000 10 100000 50000 1000.

Definition _get_default_quotas (c : QuotaConfig) : gmap QuotaType QuotaLimit :=
  list_to_map [
    (REQUESTS_PER_HOUR,
     QuotaLimit_init REQUESTS_PER_HOUR (default_requests_per_hour c) HOURLY
       (Some 800) None false 100);
    (REQUESTS_PER_DAY,
     QuotaLimit_init REQUESTS_PER_DAY (default_requests_per_day c) DAILY
       (Some 8000) None true 0);
    (QUERIES_PER_HOUR,
     QuotaLimit_init QUERIES_PER_HOUR (default_queries_per_hour c) HOURLY
       (Some 400) None false 50);
    (DATA_TRANSFER_BYTES,
     QuotaLimit_init DATA_TRANSFER_BYTES
       (default_data_transfer_mb c * 1024 * 1024) DAILY
       (Some (800 * 1024 * 1024)) None true 0);
    (CONCURRENT_CONNECTIONS,
     QuotaLimit_init CONCURRENT_CONNECTIONS (default_concurrent_connections c)
       CUSTOM (Some 8) None false 0)
  ].

Definition _get_global_quotas (c : QuotaConfig) : gmap QuotaType QuotaLimit :=
  list_to_map [
    (REQUESTS_PER_HOUR,
     QuotaLimit_init REQUESTS_PER_HOUR (global_requests_per_hour c) HOURLY
       (Some 80000) None false 0);
    (QUERIES_PER_HOUR,
     QuotaLimit_init QUERIES_PER_HOUR (global_queries_per_hour c) HOURLY
       (Some 40000) None false 0);
    (CONCURRENT_CONNECTIONS,
     QuotaLimit_init CONCURRENT_CONNECTIONS (global_concurrent_connections c)
       CUSTOM (Some 800) None false 0)
  ].

Record t := mkManager {
  client_quotas : gmap string ClientQuota.t;
  default_quotas : gmap QuotaType QuotaLimit;
  global_quotas : gmap QuotaType QuotaLimit;
  global_usage : gmap QuotaType QuotaUsage
}.

Definition __init__ (c : QuotaConfig) (now : datetime.t) : t :=
  mkManager ∅ (_get_default_quotas c) (_get_global_quotas c)
    ((fun _ => QuotaUsage_init now) <$> _get_global_quotas c).

(* [_get_custom_quotas] answers [None]: a new client gets the defaults. *)
Definition get_client_quota (client : string) (now : datetime.t) (m : t)
  : t * ClientQuota.t :=
  match client_quotas m !! client with
  | Some cq => (m, cq)
  | None =>
      let cq := ClientQuota.__init__ client (default_quotas m) now in
      (mkManager (<[client := cq]> (client_quotas m)) (default_quotas m)
         (global_quotas m) (global_usage m), cq)
  end.

Definition put_client (client : string) (cq : ClientQuota.t) (m : t) : t :=
  mkManager (<[client := cq]> (client_quotas m)) (default_quotas m)
    (global_quotas m) (global_usage m).

Definition add_usage (amount : Z) (u : QuotaUsage) : QuotaUsage :=
  mkUsage (current_usage u + amount) (peak_usage u) (last_reset u)
    (warning_triggered u) (limit_exceeded u) (burst_used u)
    (rollover_balance u) (usage_history u).

Definition consume_quota (client : string) (qt : QuotaType) (amount : Z)
    (now : datetime.t) (m : t) : t * outcome bool :=
  let client_part (m1 : t) :=
    let '(m2, cq) := get_client_quota client now m1 in
    let '(cq', r) := ClientQuota.consume_quota qt amount now cq in
    (put_client client cq' m2, r) in
  match global_quotas m !! qt with
  | Some global_limit =>
      match global_usage m !! qt with
      | Some usage =>
          if limit global_limit <? current_usage usage + amount
          then (m, QuotaExceededError true qt (current_usage usage)
                     (limit global_limit) None)
          else
            client_part
              (mkManager (client_quotas m) (default_quotas m) (global_quotas m)
                 (<[qt := add_usage amount usage]> (global_usage m)))
      | None => (m, KeyError)
      end
  | None => client_part m
  end.

Definition check_quota_available (client : string) (qt : QuotaType) (amount : Z)
    (now : datetime.t) (m : t) : t * outcome (bool * option Z) :=
  let client_part :=
    let '(m2, cq) := get_client_quota client now m in
    let '(cq', r) := ClientQuota.check_quota_available qt amount now cq in
    (put_client client cq' m2, r) in
  match global_quotas m !! qt with
  | Some global_limit =>
      match global_usage m !! qt with
      | Some usage =>
          let global_remaining := limit global_limit - current_usage usage in
          if global_remaining <? amount
          then (m, Returned (false, Some global_remaining))
          else client_part
      | None => (m, KeyError)
      end
  | None => client_part
  end.

Definition set_client_quotas (client : string) (quotas : gmap QuotaType QuotaLimit)
    (now : datetime.t) (m : t) : t :=
  put_client client (ClientQuota.__init__ client quotas now) m.

(* [reset_client_quotas]: one forced reset, or one per quota type of the
   client; the loop stops at the first reset that does not return. *)
Fixpoint reset_each (qts : list QuotaType) (now : datetime.t) (cq : ClientQuota.t)
  : ClientQuota.t * outcome unit :=
  match qts with
  | [] => (cq, Returned tt)
  | qt :: qts' =>
      match ClientQuota.reset_quota qt true now cq with
      | (cq1, Returned _) => reset_each qts' now cq1
      | other => other
      end
  end.

Definition reset_client_quotas (client : string) (qt : option QuotaType)
    (now : datetime.t) (m : t) : t * outcome unit :=
  match client_quotas m !! client with
  | None => (m, Returned tt)
  | Some cq =>
      let '(cq', r) :=
        match qt with
        | Some q => ClientQuota.reset_quota q true now cq
        | None =>
            reset_each (map fst (map_to_list (ClientQuota.quota_limits cq))) now cq
        end in
      (put_client client cq' m, r)
  end.

(* The operations of the manager that write state. *)
Inductive op :=
| ConsumeQuota (client : string) (qt : QuotaType) (amount : Z)
| CheckQuotaAvailable (client : string) (qt : QuotaType) (amount : Z)
| SetClientQuotas (client : string) (quotas : gmap QuotaType QuotaLimit)
| ResetClientQuotas (client : string) (qt : option QuotaType).

Definition step (now : datetime.t) (m : t) (o : op) : t :=
  match o with
  | ConsumeQuota c qt a => fst (consume_quota c qt a now m)
  | CheckQuotaAvailable c qt a => fst (check_quota_available c qt a now m)
  | SetClientQuotas c qs => set_client_quotas c qs now m
  | ResetClientQuotas c qt => fst (reset_client_quotas c qt now m)
  end.

(* The operations of a process in program order, each with the clock
   reading it runs at. *)
Definition run (ops : list (datetime.t * op)) (m : t) : t :=
  fold_left (fun m '(now, o) => step now m o) ops m.

(* [self.global_usage[qt].current_usage]; 0 stands for a type without a
   global quota. *)
Definition global_current_usage (qt : QuotaType) (m : t) : Z :=
  match global_usage m !! qt with
  | Some u => current_usage u
  | None => 0
  end.

End QuotaManager.

(** ** SQL validator ([security/sql_injection.py])

    The regular-expression engine, the sqlglot tokenizer and the sqlglot
    parser are external: [re_search], [tokenize] and [parse] stand for them.
    A violation message keeps its fixed text; the values the source formats
    into it are kept where a property reads them. *)

Module SQLValidator.

Inductive SQLInjectionRisk := NONE | LOW | MEDIUM | HIGH | CRITICAL.

Definition risk_index (r : SQLInjectionRisk) : nat :=
  match r with NONE => 0 | LOW => 1 | MEDIUM => 2 | HIGH => 3 | CRITICAL => 4 end.

(* [max(a, b, key=lambda x: list(SQLInjectionRisk).index(x))] *)
Definition risk_max (a b : SQLInjectionRisk) : SQLInjectionRisk :=
  if (risk_index a <? risk_index b)%nat then b else a.

Definition risk_eqb (a b : SQLInjectionRisk) : bool :=
  (risk_index a =? risk_index b)%nat.

Inductive QueryType :=
| QT_SELECT | QT_INSERT | QT_UPDATE | QT_DELETE | QT_CREATE | QT_DROP | QT_ALTER
| QT_TRUNCATE | QT_GRANT | QT_REVOKE | QT_EXECUTE | QT_CALL | QT_UNKNOWN.

(* The sqlglot token types the analyzer names; [OTHER] is any other type. *)
Inductive TokenType :=
| SELECT | INSERT | UPDATE | DELETE | CREATE | DROP | ALTER | TRUNCATE
| GRANT | REVOKE | EXECUTE | CALL
| UNION | ALL | AND | OR | NUMBER | EQ | COMMENT | BLOCK_COMMENT | STRING
| OTHER (name : string).

#[global] Instance TokenType_eq_dec : EqDecision TokenType.
Proof. solve_decision. Defined.

Record Token := mkToken {
  token_type : TokenType;
  text : string
}.

Record SQLValidationResult := mkResult {
  is_valid : bool;
  risk_level : SQLInjectionRisk;
  query_type : QueryType;
  violations : list string
}.

Definition dquote : string := String (Ascii.ascii_of_nat 34) EmptyString.

(** *** Pattern matcher *)

Definition critical_patterns : list string := [
  "union\s+(?:all\s+)?select";
  "union\s+(?:distinct\s+)?select";
  "(?:and|or)\s+\d+\s*[=<>]\s*\d+";
  "(?:and|or)\s+[\'" +:+ dquote +:+ "]\w+[\'" +:+ dquote +:+ "]?\s*[=<>]\s*[\'"
    +:+ dquote +:+ "]\w+[\'" +:+ dquote +:+ "]?";
  "waitfor\s+delay";
  "sleep\s*\(";
  "pg_sleep\s*\(";
  "benchmark\s*\(";
  ";\s*(?:insert|update|delete|drop|create|alter|grant|revoke)";
  "information_schema\.";
  "sys\.";
  "mysql\.";
  "xp_cmdshell";
  "sp_execute";
  "exec\s*\(";
  "execute\s*\(";
  "load_file\s*\(";
  "into\s+outfile";
  "into\s+dumpfile"
]%string.

Definition high_risk_patterns : list string := [
  "(?:--|#|/\*" +:+ ")";
  "0x[0-9a-fA-F]+";
  "char\s*\(";
  "chr\s*\(";
  "ascii\s*\(";
  "concat\s*\(";
  "group_concat\s*\(";
  "@@version";
  "@@global";
  "version\s*\(";
  "user\s*\(";
  "database\s*\(";
  "schema\s*\("
]%string.

Definition medium_risk_patterns : list string := [
  "'[^']*'[^']*'";
  "(?:and|or)\s+[\w\s]*(?:=|<>|!=|like)";
  "\(\s*select\s+";
  "case\s+when";
  "cast\s*\(";
  "convert\s*\("
]%string.

Definition low_risk_patterns : list string := [
  "[=<>!]{2,}";
  "\s{5,}";
  "[%_*]{3,}"
]%string.

Section External.

(* [re.compile(pattern, re.IGNORECASE).search(query)] found a match *)
Variable re_search : string -> string -> bool.
(* [list(tokens.Tokenizer().tokenize(query))], [None] when it raises *)
Variable tokenize : string -> option (list Token).

Definition matching (patterns : list string) (query : string) : list string :=
  List.filter (fun p => re_search p query) patterns.

Definition is_nil {A} (l : list A) : bool :=
  match l with [] => true | _ => false end.

Definition analyze_query (query : string) : SQLInjectionRisk * list string :=
  let crit := matching critical_patterns query in
  let risk1 := if is_nil crit then NONE else CRITICAL in
  let v1 := map (fun p => "Critical pattern detected: " +:+ p) crit in
  let high := if risk_eqb risk1 CRITICAL then [] else matching high_risk_patterns query in
  let risk2 := if is_nil high then risk1 else HIGH in
  let v2 := v1 ++ map (fun p => "High-risk pattern detected: " +:+ p) high in
  let med :=
    if risk_eqb risk2 CRITICAL || risk_eqb risk2 HIGH then []
    else matching medium_risk_patterns query in
  let risk3 := if is_nil med then risk2 else MEDIUM in
  let v3 := v2 ++ map (fun p => "Medium-risk pattern detected: " +:+ p) med in
  let low :=
    if risk_eqb risk3 NONE then matching low_risk_patterns query else [] in
  let risk4 := if is_nil low then risk3 else LOW in
  (risk4, v3 ++ map (fun p => "Low-risk pattern detected: " +:+ p) low).

(** *** Token analyzer *)

Definition suspicious_token_sequences : list (list TokenType) := [
  [UNION; SELECT];
  [UNION; ALL; SELECT];
  [AND; NUMBER; EQ; NUMBER];
  [OR; NUMBER; EQ; NUMBER];
  [COMMENT];
  [BLOCK_COMMENT]
].

Definition forbidden_tokens_readonly : list TokenType :=
  [INSERT; UPDATE; DELETE; DROP; CREATE; ALTER; TRUNCATE; GRANT; REVOKE; EXECUTE].

Definition type_in (ty : TokenType) (l : list TokenType) : bool :=
  bool_decide (ty ∈ l).

Definition token_name (ty : TokenType) : string :=
  match ty with
  | SELECT => "SELECT" | INSERT => "INSERT" | UPDATE => "UPDATE"
  | DELETE => "DELETE" | CREATE => "CREATE" | DROP => "DROP"
  | ALTER => "ALTER" | TRUNCATE => "TRUNCATE" | GRANT => "GRANT"
  | REVOKE => "REVOKE" | EXECUTE => "EXECUTE" | CALL => "CALL"
  | UNION => "UNION" | ALL => "ALL" | AND => "AND" | OR => "OR"
  | NUMBER => "NUMBER" | EQ => "EQ" | COMMENT => "COMMENT"
  | BLOCK_COMMENT => "BLOCK_COMMENT" | STRING => "STRING"
  | OTHER n => n
  end%string.

(* [QueryType(token.token_type.name.lower())] for the statement verbs *)
Definition verb_query_type (ty : TokenType) : option QueryType :=
  match ty with
  | SELECT => Some QT_SELECT | INSERT => Some QT_INSERT | UPDATE => Some QT_UPDATE
  | DELETE => Some QT_DELETE | CREATE => Some QT_CREATE | DROP => Some QT_DROP
  | ALTER => Some QT_ALTER | TRUNCATE => Some QT_TRUNCATE | GRANT => Some QT_GRANT
  | REVOKE => Some QT_REVOKE | EXECUTE => Some QT_EXECUTE | CALL => Some QT_CALL
  | _ => None
  end.

(* The first token that is a statement verb decides the query type. *)
Fixpoint first_verb (l : list Token) : QueryType :=
  match l with
  | [] => QT_UNKNOWN
  | tok :: l' =>
      match verb_query_type (token_type tok) with
      | Some q => q
      | None => first_verb l'
      end
  end.

Fixpoint _matches_sequence (toks : list Token) (pattern : list TokenType) : bool :=
  match pattern, toks with
  | [], _ => true
  | _ :: _, [] => false
  | expected :: pattern', tok :: toks' =>
      bool_decide (token_type tok = expected) && _matches_sequence toks' pattern'
  end.

(* [for i in range(len(token_list) - 1)]: every suffix but the last one. *)
Fixpoint sequence_violations (toks : list Token) : list string :=
  match toks with
  | [] | [_] => []
  | _ :: toks' =>
      map (fun _ => "Suspicious token sequence detected"%string)
          (List.filter (_matches_sequence toks) suspicious_token_sequences)
      ++ sequence_violations toks'
  end.

(* ASCII view of [str.lower()]; a character outside ASCII makes
   [_is_suspicious_string] answer [True] whatever its case. *)
Definition lower_char (c : Ascii.ascii) : Ascii.ascii :=
  let n := Ascii.nat_of_ascii c in
  if (65 <=? n)%nat && (n <=? 90)%nat then Ascii.ascii_of_nat (n + 32) else c.

Fixpoint lower (s : string) : string :=
  match s with
  | EmptyString => EmptyString
  | String c s' => String (lower_char c) (lower s')
  end.

Fixpoint contains (needle hay : string) : bool :=
  String.prefix needle hay
  || match hay with
     | EmptyString => false
     | String _ hay' => contains needle hay'
     end.

Definition is_quote (c : Ascii.ascii) : bool :=
  let n := Ascii.nat_of_ascii c in (n =? 39)%nat || (n =? 34)%nat.

Fixpoint lstrip_quotes (s : string) : string :=
  match s with
  | String c s' => if is_quote c then lstrip_quotes s' else s
  | EmptyString => EmptyString
  end.

Fixpoint rstrip_quotes (s : string) : string :=
  match s with
  | EmptyString => EmptyString
  | String c s' =>
      match rstrip_quotes s' with
      | EmptyString => if is_quote c then EmptyString else String c EmptyString
      | rest => String c rest
      end
  end.

(* [text.strip] of the single and the double quote *)
Definition strip_quotes (s : string) : string := rstrip_quotes (lstrip_quotes s).

(* a match of [[;\x00-\x1f\x7f-\xff]] *)
Fixpoint has_unusual_char (s : string) : bool :=
  match s with
  | EmptyString => false
  | String c s' =>
      let n := Ascii.nat_of_ascii c in
      (n =? 59)%nat || (n <=? 31)%nat || (127 <=? n)%nat || has_unusual_char s'
  end.

Definition is_hex (c : Ascii.ascii) : bool :=
  let n := Ascii.nat_of_ascii (lower_char c) in
  ((48 <=? n)%nat && (n <=? 57)%nat) || ((97 <=? n)%nat && (n <=? 102)%nat).

(* a match of [%[0-9a-f]{2}] or of [\\x[0-9a-f]{2}], case ignored; the third
   alternative of the source pattern, [&#x?[0-9a-f]+;], needs a semicolon,
   which [has_unusual_char] has answered before. *)
Fixpoint has_encoded (s : string) : bool :=
  match s with
  | EmptyString => false
  | String c s' =>
      (match Ascii.nat_of_ascii c, s' with
       | 37%nat, String h1 (String h2 _) => is_hex h1 && is_hex h2
       | 92%nat, String x (String h1 (String h2 _)) =>
           (Ascii.nat_of_ascii (lower_char x) =? 120)%nat && is_hex h1 && is_hex h2
       | _, _ => false
       end)
      || has_encoded s'
  end.

Definition sql_keywords : list string :=
  ["select"; "union"; "insert"; "update"; "delete"; "drop"; "exec"]%string.

Definition _is_suspicious_string (text : string) : bool :=
  let content := strip_quotes text in
  existsb (fun keyword => contains keyword (lower content)) sql_keywords
  || has_unusual_char content
  || has_encoded content.

Definition is_comment (tok : Token) : bool :=
  type_in (token_type tok) [COMMENT; BLOCK_COMMENT].

Definition analyze_tokens (query : string) (readonly_mode : bool)
  : list string * QueryType :=
  match tokenize query with
  | None => (["Token analysis failed"%string], QT_UNKNOWN)
  | Some [] => (["Empty query"%string], QT_UNKNOWN)
  | Some token_list =>
      let forbidden :=
        if readonly_mode
        then map (fun tok => "Forbidden operation in readonly mode: "
                             +:+ token_name (token_type tok))
               (List.filter (fun tok => type_in (token_type tok) forbidden_tokens_readonly)
                  token_list)
        else [] in
      let comment_count := length (List.filter is_comment token_list) in
      let comments :=
        if (3 <? comment_count)%nat then ["Excessive comments detected"%string] else [] in
      let strings :=
        map (fun tok => "Suspicious string literal: " +:+ text tok)
          (List.filter
             (fun tok => bool_decide (token_type tok = STRING)
                         && _is_suspicious_string (text tok))
             token_list) in
      (forbidden ++ sequence_violations token_list ++ comments ++ strings,
       first_verb token_list)
  end.

(** *** Structure validator *)

(* A parsed expression: its class name, [node.this.name] where there is one,
   and what [node.iter_child_nodes()] yields (nothing for a node without
   that method). *)
#[warnings="-register-all"]
Inductive Expression :=
| Node (class_name : string) (this_name : option string) (children : list Expression).

(* [parse(query, dialect="snowflake")], [None] when it raises *)
Variable parse : string -> option (list Expression).

Definition forbidden_functions : list string := [
  "system"; "exec"; "execute"; "xp_cmdshell"; "sp_execute";
  "load_file"; "into_outfile"; "into_dumpfile";
  "user"; "current_user"; "session_user"; "version";
  "database"; "schema"; "connection_id";
  "kill"; "shutdown"; "create_user"; "drop_user"
]%string.

Definition class_in (e : Expression) (names : list string) : bool :=
  match e with Node c _ _ => bool_decide (c ∈ names) end.

Fixpoint _extract_functions (e : Expression) : list string :=
  match e with
  | Node c this children =>
      (match this with
       | Some name =>
           if bool_decide (c ∈ ["Anonymous"; "Function"]%string) then [name] else []
       | None => []
       end)
      ++ (fix visit (l : list Expression) : list string :=
            match l with
            | [] => []
            | child :: l' => _extract_functions child ++ visit l'
            end) children
  end.

Fixpoint _get_max_nesting_depth (e : Expression) (current_depth : Z) : Z :=
  match e with
  | Node _ _ children =>
      (fix loop (l : list Expression) (max_depth : Z) : Z :=
         match l with
         | [] => max_depth
         | child :: l' =>
             let child_depth :=
               if class_in child ["Select"; "Subquery"]%string
               then _get_max_nesting_depth child (current_depth + 1)
               else _get_max_nesting_depth child current_depth in
             loop l' (Z.max max_depth child_depth)
         end) children current_depth
  end.

Definition class_weight (e : Expression) : Z :=
  if class_in e ["Select"; "Subquery"]%string then 10
  else if class_in e ["Join"; "LeftJoin"; "RightJoin"; "FullJoin"]%string then 5
  else if class_in e ["Where"; "Having"]%string then 3
  else if class_in e ["OrderBy"; "GroupBy"]%string then 2
  else if class_in e ["Function"; "Anonymous"]%string then 1
  else 0.

Fixpoint _calculate_complexity (e : Expression) : Z :=
  match e with
  | Node _ _ children =>
      (fix loop (l : list Expression) : Z :=
         match l with
         | [] => 0
         | child :: l' => class_weight child + _calculate_complexity child + loop l'
         end) children
  end.

Definition _validate_statement (statement : Expression) : list string :=
  map (fun f => "Forbidden function: " +:+ f)
    (List.filter (fun f => bool_decide (lower f ∈ forbidden_functions))
       (remove_dups (_extract_functions statement)))
  ++ (if 5 <? _get_max_nesting_depth statement 0
      then ["Query nesting too deep"%string] else [])
  ++ (if 100 <? _calculate_complexity statement
      then ["Query too complex"%string] else []).

Definition validate_structure (query : string) : list string :=
  match parse query with
  | None => ["Structure validation failed"%string]
  | Some [] => ["Failed to parse query"%string]
  | Some parsed => concat (map _validate_statement parsed)
  end.

(** *** The validator *)

Record Config := mkConfig {
  max_query_length : Z;
  readonly_mode : bool;
  strict_validation : bool
}.

(* [risk_level in self.blocked_risk_levels] *)
Definition blocked (c : Config) (r : SQLInjectionRisk) : bool :=
  risk_eqb r CRITICAL || risk_eqb r HIGH
  || (strict_validation c && risk_eqb r MEDIUM).

(* [self.config.security]: the fields [SecurityConfig] declares in
   [config.py]. *)
Record SecurityConfig := mkSecurityConfig {
  enable_api_auth : bool;
  api_keys : list string;
  enable_sql_protection : bool;
  enable_rate_limiting : bool;
  rate_limit_per_minute : Z
}.

(* The value of an attribute of the security section. *)
Inductive attr :=
| AttrBool (b : bool)
| AttrInt (z : Z)
| AttrList (l : list string).

Definition attributes (security : SecurityConfig) : list (string * attr) := [
  ("enable_api_auth", AttrBool (enable_api_auth security));
  ("api_keys", AttrList (api_keys security));
  ("enable_sql_protection", AttrBool (enable_sql_protection security));
  ("enable_rate_limiting", AttrBool (enable_rate_limiting security));
  ("rate_limit_per_minute", AttrInt (rate_limit_per_minute security))
]%string.

(* [getattr(self.config.security, name, default)] *)
Definition getattr (security : SecurityConfig) (name : string) (default : attr)
  : attr :=
  match List.find (fun e => String.eqb (fst e) name) (attributes security) with
  | Some e => snd e
  | None => default
  end.

(* Python truthiness, as [if self.strict_validation:] and
   [if readonly_mode:] read the attribute. *)
Definition attr_truthy (a : attr) : bool :=
  match a with
  | AttrBool b => b
  | AttrInt z => negb (z =? 0)
  | AttrList l => negb (is_nil l)
  end.

(* The attribute as the bound in [len(query) > self.max_query_length];
   a list would raise there and end in the handler's invalid result. *)
Definition attr_int (a : attr) : Z :=
  match a with
  | AttrBool b => if b then 1 else 0
  | AttrInt z => z
  | AttrList _ => 0
  end.

(* [SQLValidator.__init__]: the three settings are read off the security
   section with their defaults, and [blocked_risk_levels] is fixed here
   from [strict_validation]. *)
Definition __init__ (security : SecurityConfig) : Config :=
  mkConfig
    (attr_int (getattr security "max_query_length" (AttrInt 10000)))
    (attr_truthy (getattr security "readonly_mode" (AttrBool true)))
    (attr_truthy (getattr security "strict_sql_validation" (AttrBool true))).

Definition is_space (c : Ascii.ascii) : bool :=
  let n := Ascii.nat_of_ascii c in
  ((9 <=? n)%nat && (n <=? 13)%nat) || ((28 <=? n)%nat && (n <=? 32)%nat)
  || (n =? 133)%nat || (n =? 160)%nat.

(* [not query or not query.strip()] *)
Fixpoint blank (s : string) : bool :=
  match s with
  | EmptyString => true
  | String c s' => is_space c && blank s'
  end.

Definition validate_query (c : Config) (query : string) : SQLValidationResult :=
  let '(v1, r1) :=
    if blank query then (["Empty query"%string], HIGH) else ([], NONE) in
  let '(v2, r2) :=
    if max_query_length c <? Z.of_nat (String.length query)
    then (v1 ++ ["Query too long"%string], MEDIUM) else (v1, r1) in
  let '(v3, r3) :=
    if is_nil v2 then
      let '(pattern_risk, pattern_violations) := analyze_query query in
      (v2 ++ pattern_violations, risk_max r2 pattern_risk)
    else (v2, r2) in
  let '(v4, r4, qt) :=
    if is_nil v3 || negb (blocked c r3) then
      let '(token_violations, qt) := analyze_tokens query (readonly_mode c) in
      (v3 ++ token_violations,
       if is_nil token_violations then r3 else risk_max r3 MEDIUM, qt)
    else (v3, r3, QT_UNKNOWN) in
  let '(v5, r5) :=
    if is_nil v4 || negb (blocked c r4) then
      let structure_violations := validate_structure query in
      (v4 ++ structure_violations,
       if is_nil structure_violations then r4 else risk_max r4 MEDIUM)
    else (v4, r4) in
  mkResult (negb (blocked c r5)) r5 qt v5.

(* The first statement verb among the tokens of [query] is a write verb. *)
Definition first_verb_is_write (query : string) : Prop :=
  exists toks pre tok post,
    tokenize query = Some toks /\
    toks = pre ++ tok :: post /\
    Forall (fun t => verb_query_type (token_type t) = None) pre /\
    token_type tok ∈ forbidden_tokens_readonly.

End External.

End SQLValidator.

(** ** Runs of the circuit breaker *)

Module CircuitBreakerRuns.

Import CircuitBreaker.

(* One attempted call: the clock reading at the gate, what the wrapped
   function would do, the clock reading when it is done. *)
Definition attempt : Type := Q * func_outcome * Q.

Fixpoint calls (cs : list attempt) (b : t) : t * list call_result :=
  match cs with
  | [] => (b, [])
  | (now, f, done) :: cs' =>
      let '(b1, r) := call now f done b in
      let '(b2, rs) := calls cs' b1 in
      (b2, r :: rs)
  end.

End CircuitBreakerRuns.

(** ** More of the transactional wrapper *)

Module TransactionalRuns.

Import Session TransactionalDatabaseOperations.

Definition with_query_ok (ok : bool) (d : driver) : driver :=
  mkDriver ok (begin_ok d) (commit_ok d) (rollback_ok d).

(* [for query in queries: result = await self.execute_query_isolated(query)]:
   [oks] is the driver's answer to each query; the first one that raises
   ends the loop. *)
Fixpoint run_queries (d : driver) (oks : list bool) (ctx : RequestContext.t)
  : RequestContext.t * result unit :=
  match oks with
  | [] => (ctx, Ok tt)
  | ok :: oks' =>
      match execute_query_isolated (with_query_ok ok d) ctx with
      | (ctx1, Ok _) => run_queries d oks' ctx1
      | (ctx1, Raised) => (ctx1, Raised)
      end
  end.

Definition execute_multi_statement_transaction (d : driver) (oks : list bool) (w : t)
  : t * result unit :=
  let body (tx_manager : TransactionManager.t) (s : Session.t)
           (ctx : RequestContext.t) :=
    let '(ctx1, r) := run_queries d oks ctx in (s, ctx1, r) in
  let '(s', ctx', r) :=
    transaction_scope d false body (connection w) (request_context w) in
  (mkTOps s' ctx' (transaction_manager w), r).

(* A handler that commits or rolls back explicitly only while its manager
   is in a transaction, and whose [COMMIT] at the end of an
   [execute_with_transaction] is not rejected. *)
Fixpoint disciplined (calls : list call) (w : t) : bool :=
  match calls with
  | [] => true
  | c :: calls' =>
      (match c with
       | ExecuteWithTransaction ac d => ac || commit_ok d
       | BeginExplicitTransaction _ => true
       | CommitTransaction _ | RollbackTransaction _ =>
           match transaction_manager w with
           | Some m => in_transaction m
           | None => true
           end
       end)
      && disciplined calls' (step w c)
  end.

End TransactionalRuns.

(** ** Pool maintenance ([utils/async_pool.py]) *)

Module PoolMaintenance.

Import AsyncConnectionPool.

(* [sum(1 for conn in self._connections if conn.in_use)] *)
Definition active_connection_count (p : t) : nat :=
  length (List.filter in_use (_connections p)).

Definition total_connection_count (p : t) : nat := length (_connections p).

(* [not self.in_use and datetime.now() - self.last_used > max_inactive_time] *)
Definition should_retire (now max_inactive_time : Q) (c : PooledConnection) : bool :=
  negb (in_use c) && CircuitBreaker.Qltb max_inactive_time (now - last_used c)%Q.

(* The first loop of [_perform_health_checks]: whether the connection goes
   to [connections_to_remove].  [healthy] is what [test_connection_health]
   answers for a session ([False] as well when it raises). *)
Definition to_remove (now max_inactive_time : Q) (healthy : nat -> bool)
    (c : PooledConnection) : bool :=
  should_retire now max_inactive_time c
  || (negb (in_use c) && negb (healthy (connection c))).

(* [health_check] writes the answer into the connection it checked. *)
Definition checked (healthy : nat -> bool) (c : PooledConnection) : PooledConnection :=
  if in_use c then c
  else mkConn (connection c) (in_use c) (healthy (connection c)) (last_used c).

(* [while len(self._connections) < min_size: try create, except: break];
   [opened k] is the driver's answer to the [k]-th attempt and [missing]
   the number of connections the pool is short of. *)
Fixpoint refill (opened : nat -> option nat) (now : Q) (missing k : nat) (p : t) : t :=
  match missing with
  | O => p
  | S missing' =>
      match _create_connection (opened k) now p with
      | Returned (_, p') => refill opened now missing' (S k) p'
      | _ => p
      end
  end.

Definition _perform_health_checks (now max_inactive_time : Q) (healthy : nat -> bool)
    (opened : nat -> option nat) (p : t) : t :=
  let kept :=
    map (checked healthy)
      (List.filter (fun c => negb (to_remove now max_inactive_time healthy c))
         (_connections p)) in
  let p1 := mkPool (pool_config p) kept (_closed p) in
  refill opened now
    (Z.to_nat (min_size (pool_config p) - Z.of_nat (length kept))) 0 p1.

End PoolMaintenance.

(** ** Sliding window counter and the checks of one client
    ([rate_limiting/rate_limiter.py]) *)

Module SlidingWindowCounter.

Record t := mkWindow {
  window_size : Z;
  max_requests : Z;
  requests : list Q
}.

Definition __init__ (window_size max_requests : Z) : t :=
  mkWindow window_size max_requests [].

Definition prune (now : Q) (w : t) : list Q :=
  CircuitBreaker.popleft_old (now - inject_Z (window_size w))%Q (requests w).

(* [(True, None)], [(False, retry_after)], or the [IndexError] of
   [self.requests[0]] on an empty deque. *)
Inductive answer :=
| Allowed
| Refused (retry_after : Q)
| IndexError.

Definition is_allowed (now : Q) (w : t) : t * answer :=
  let kept := prune now w in
  let w1 := mkWindow (window_size w) (max_requests w) kept in
  if Z.of_nat (length kept) <? max_requests w
  then (mkWindow (window_size w) (max_requests w) (kept ++ [now]), Allowed)
  else
    match kept with
    | oldest_request :: _ =>
        (w1, Refused (Qmax 0 (oldest_request + inject_Z (window_size w) - now)%Q))
    | [] => (w1, IndexError)
    end.

Definition get_current_count (now : Q) (w : t) : t * Z :=
  let kept := prune now w in
  (mkWindow (window_size w) (max_requests w) kept, Z.of_nat (length kept)).

(* One [is_allowed()] per clock reading, in program order: the final state
   and the readings of the calls that were allowed. *)
Fixpoint allowed_calls (times : list Q) (w : t) : t * list Q :=
  match times with
  | [] => (w, [])
  | now :: times' =>
      let '(w1, r) := is_allowed now w in
      let '(w2, rest) := allowed_calls times' w1 in
      (w2, match r with Allowed => now :: rest | _ => rest end)
  end.

(* The clock does not run backwards over the readings. *)
Fixpoint chronological (times : list Q) : Prop :=
  match times with
  | [] => True
  | now :: times' => Forall (fun later => (now <= later)%Q) times' /\ chronological times'
  end.

End SlidingWindowCounter.

Module RateLimitChecks.

Import ClientRateLimit.

Definition type_eqb (a b : RateLimitType) : bool :=
  match a, b with
  | REQUESTS_PER_SECOND, REQUESTS_PER_SECOND
  | REQUESTS_PER_MINUTE, REQUESTS_PER_MINUTE
  | REQUESTS_PER_HOUR, REQUESTS_PER_HOUR
  | QUERIES_PER_MINUTE, QUERIES_PER_MINUTE
  | QUERIES_PER_HOUR, QUERIES_PER_HOUR
  | CONCURRENT_REQUESTS, CONCURRENT_REQUESTS => true
  | _, _ => false
  end.

(* The dictionaries keep insertion order: each is the list of its items. *)
Record t := mkClient {
  limits : list (RateLimitType * RateLimit);
  token_buckets : list (RateLimitType * TokenBucket.t);
  sliding_windows : list (RateLimitType * SlidingWindowCounter.t);
  concurrent_requests : Z;
  total_requests : Z;
  blocked_requests : Z
}.

(* [self.limits[ty]] *)
Definition get_limit (ty : RateLimitType) (ls : list (RateLimitType * RateLimit))
  : option RateLimit :=
  option_map snd (List.find (fun e => type_eqb (fst e) ty) ls).

(* [_init_limiters]; [None] is the [ZeroDivisionError] of
   [limit / window_seconds]. *)
Fixpoint _init_limiters (now : Q) (ls : list (RateLimitType * RateLimit))
  : option (list (RateLimitType * TokenBucket.t)
            * list (RateLimitType * SlidingWindowCounter.t)) :=
  match ls with
  | [] => Some ([], [])
  | (ty, l) :: ls' =>
      if type_eqb ty CONCURRENT_REQUESTS then _init_limiters now ls'
      else if uses_token_bucket ty then
        if window_seconds l =? 0 then None
        else
          match _init_limiters now ls' with
          | Some (bs, ws) =>
              Some ((ty, TokenBucket.__init__ (limit l + burst_allowance l)
                           (inject_Z (limit l) / inject_Z (window_seconds l))%Q now)
                      :: bs, ws)
          | None => None
          end
      else
        match _init_limiters now ls' with
        | Some (bs, ws) =>
            Some (bs, (ty, SlidingWindowCounter.__init__ (window_seconds l) (limit l))
                        :: ws)
        | None => None
        end
  end.

Definition __init__ (now : Q) (ls : list (RateLimitType * RateLimit)) : option t :=
  match _init_limiters now ls with
  | Some (bs, ws) => Some (mkClient ls bs ws 0 0 0)
  | None => None
  end.

Inductive check_result :=
| Passed
| RateLimitError (limit_type : RateLimitType) (retry_after : option Q)
| ZeroDivisionError
| IndexError.

(* [for limit_type, bucket in self.token_buckets.items()]: one token from
   each bucket in turn, up to the first that refuses. *)
Fixpoint check_buckets (now : Q) (bs : list (RateLimitType * TokenBucket.t))
  : list (RateLimitType * TokenBucket.t) * check_result :=
  match bs with
  | [] => ([], Passed)
  | (ty, b) :: bs' =>
      match TokenBucket.consume now 1 b with
      | (b1, TokenBucket.Consumed) =>
          let '(bs1, r) := check_buckets now bs' in ((ty, b1) :: bs1, r)
      | (b1, TokenBucket.Denied ra) => ((ty, b1) :: bs', RateLimitError ty (Some ra))
      | (b1, TokenBucket.ZeroDivisionError) => ((ty, b1) :: bs', ZeroDivisionError)
      end
  end.

Fixpoint check_windows (now : Q) (ws : list (RateLimitType * SlidingWindowCounter.t))
  : list (RateLimitType * SlidingWindowCounter.t) * check_result :=
  match ws with
  | [] => ([], Passed)
  | (ty, w) :: ws' =>
      match SlidingWindowCounter.is_allowed now w with
      | (w1, SlidingWindowCounter.Allowed) =>
          let '(ws1, r) := check_windows now ws' in ((ty, w1) :: ws1, r)
      | (w1, SlidingWindowCounter.Refused ra) =>
          ((ty, w1) :: ws', RateLimitError ty (Some ra))
      | (w1, SlidingWindowCounter.IndexError) => ((ty, w1) :: ws', IndexError)
      end
  end.

Definition count_blocked (r : check_result) (n : Z) : Z :=
  match r with
  | RateLimitError _ _ => n + 1
  | _ => n
  end.

Definition check_limits (now : Q) (c : t) : t * check_result :=
  let total := total_requests c + 1 in
  let over :=
    match get_limit CONCURRENT_REQUESTS (limits c) with
    | Some l => limit l <=? concurrent_requests c
    | None => false
    end in
  if over then
    (mkClient (limits c) (token_buckets c) (sliding_windows c)
       (concurrent_requests c) total (blocked_requests c + 1),
     RateLimitError CONCURRENT_REQUESTS None)
  else
    match check_buckets now (token_buckets c) with
    | (bs, Passed) =>
        let '(ws, r) := check_windows now (sliding_windows c) in
        (mkClient (limits c) bs ws (concurrent_requests c) total
           (count_blocked r (blocked_requests c)), r)
    | (bs, r) =>
        (mkClient (limits c) bs (sliding_windows c) (concurrent_requests c) total
           (count_blocked r (blocked_requests c)), r)
    end.

Definition has_concurrent_limit (c : t) : bool :=
  match get_limit CONCURRENT_REQUESTS (limits c) with
  | Some _ => true
  | None => false
  end.

Definition with_concurrent (n : Z) (c : t) : t :=
  mkClient (limits c) (token_buckets c) (sliding_windows c) n
    (total_requests c) (blocked_requests c).

Definition acquire_concurrent_slot (c : t) : t :=
  if has_concurrent_limit c then with_concurrent (concurrent_requests c + 1) c else c.

Definition release_concurrent_slot (c : t) : t :=
  if has_concurrent_limit c
  then with_concurrent (Z.max 0 (concurrent_requests c - 1)) c
  else c.

(* What a request does to the slot counter. *)
Inductive slot_op := Acquire | Release.

Definition slot_step (c : t) (o : slot_op) : t :=
  match o with
  | Acquire => acquire_concurrent_slot c
  | Release => release_concurrent_slot c
  end.

End RateLimitChecks.

(** ** Retrying with a schedule and adapting it ([rate_limiting/backoff.py]) *)

Module RetryWithBackoff.

Import Backoff.

(* An exception as the wrapper looks at it:
   [isinstance(e, self.retry_on)] and [isinstance(e, self.stop_on)]. *)
Record exn := mkExn {
  retryable : bool;
  stopping : bool
}.

Inductive func_result :=
| Returns (v : Z)
| Throws (e : exn).

Inductive wrapper_result :=
| Returned (v : Z)
| Propagated (e : exn)
| BackoffError.

Section Wrapped.
Variable random : nat -> Q.
(* What the [k]-th invocation of the wrapped function does, and how long
   it takes. *)
Variable func : nat -> func_result.
Variable took : nat -> Q.
(* How the [StopIteration] and the [ZeroDivisionError] of [next(backoff)]
   fall under [retry_on] and [stop_on]. *)
Variable stop_iteration : exn.
Variable zero_division : exn.

(* The loop of [sync_wrapper] from attempt number [attempt] on, with
   [remaining] attempts left; [calls] counts the invocations of the wrapped
   function.  Leaving the loop raises [BackoffError]. *)
Fixpoint attempts (remaining attempt : nat) (now : Q) (b : Backoff.t) (calls : nat)
  : wrapper_result * nat :=
  match remaining with
  | O => (BackoffError, calls)
  | S remaining' =>
      let handle (e : exn) (now' : Q) (b' : Backoff.t) (calls' : nat) :=
        if stopping e || negb (retryable e) then (Propagated e, calls')
        else attempts remaining' (S attempt) now' b' calls' in
      let invoke (now' : Q) (b' : Backoff.t) :=
        match func calls with
        | Returns v => (Returned v, S calls)
        | Throws e => handle e (now' + took calls)%Q b' (S calls)
        end in
      match attempt with
      | O => invoke now b
      | S _ =>
          match __next__ random now b with
          | (b', Value delay) => invoke (now + delay)%Q b'
          | (b', StopIteration) => handle stop_iteration now b' calls
          | (b', ZeroDivisionError) => handle zero_division now b' calls
          end
      end
  end.

(* [sync_wrapper]: a fresh [Backoff(self.config)], then
   [for attempt in range(self.config.max_attempts)]. *)
Definition sync_wrapper (c : BackoffConfig) (now : Q) : wrapper_result * nat :=
  attempts (Z.to_nat (max_attempts c)) 0 now (mkBackoff c 0 now 0) 0.

End Wrapped.

End RetryWithBackoff.

Module AdaptiveBackoff.

Import Backoff.

Record t := mkAdaptive {
  base_config : BackoffConfig;
  current_config : BackoffConfig;
  success_count : Z;
  failure_count : Z;
  recent_outcomes : list bool
}.

Definition max_history : nat := 100.

Definition __init__ (base_config : BackoffConfig) : t :=
  mkAdaptive base_config base_config 0 0 [].

(* [sum(outcomes)] with [True] counting 1 *)
Definition successes (l : list bool) : Z := Z.of_nat (length (List.filter id l)).

(* [self.recent_outcomes[-20:]] *)
Definition last_20 (l : list bool) : list bool := drop (length l - 20) l.

Definition recent_success_rate (l : list bool) : Q :=
  (inject_Z (successes (last_20 l)) / inject_Z (Z.min 20 (Z.of_nat (length l))))%Q.

Definition multiplier (rate : Q) : Q :=
  if CircuitBreaker.Qltb (8 # 10) rate then (8 # 10)%Q
  else if CircuitBreaker.Qltb (5 # 10) rate then 1%Q
  else (15 # 10)%Q.

(* The configuration [_adapt_config] builds: the fields it does not pass
   take the defaults of [BackoffConfig]. *)
Definition adapted (base : BackoffConfig) (m : Q) : BackoffConfig :=
  mkConfig (strategy base) (initial_delay base * m)%Q (max_delay base)
    (max_attempts base) (exponential_base base) (exponential_cap base * m)%Q
    (linear_increment base * m)%Q 2 1 (jitter base) (jitter_type base) (1 # 10)
    None (total_timeout base).

Definition _adapt_config (a : t) : t :=
  if (length (recent_outcomes a) <? 10)%nat then a
  else
    mkAdaptive (base_config a)
      (adapted (base_config a) (multiplier (recent_success_rate (recent_outcomes a))))
      (success_count a) (failure_count a) (recent_outcomes a).

Definition record_outcome (success : bool) (a : t) : t :=
  let appended := recent_outcomes a ++ [success] in
  let outcomes :=
    if (max_history <? length appended)%nat then tail appended else appended in
  _adapt_config
    (mkAdaptive (base_config a) (current_config a)
       (if success then success_count a + 1 else success_count a)
       (if success then failure_count a else failure_count a + 1)
       outcomes).

Definition record_all (outcomes : list bool) (a : t) : t :=
  fold_left (fun a success => record_outcome success a) outcomes a.

End AdaptiveBackoff.

(** * Properties *)

(** ** Isolated wrapper: restoring the entry context *)

Section IsolationFacts.

Import Session IsolatedDatabaseOperations.

Variable default_schema : string -> option string.
Variables (D0 S0 : string) (ac : bool).
Hypothesis D0_named : D0 <> ""%string.
Hypothesis D0_not_placeholder : D0 <> "Unknown"%string.
Hypothesis S0_named : S0 <> ""%string.
Hypothesis S0_not_placeholder : S0 <> "Unknown"%string.

Let entry : Session.t := mkSession (Some D0) (Some S0) ac.

(* What the scope keeps true between two calls of the handler. *)
Definition captured (w : IsolatedDatabaseOperations.t) : Prop :=
  _original_database w = Some D0 /\
  _original_schema w = Some S0 /\
  autocommit (connection w) = ac /\
  (_context_changed w = false -> connection w = entry).

Lemma truthy_named (s : string) : s <> ""%string -> RequestContext.truthy (Some s) = true.
Proof.
  intros Hs. unfold RequestContext.truthy.
  apply negb_true_iff. by apply String.eqb_neq.
Qed.

Lemma known_named (s : string) :
  s <> ""%string -> s <> "Unknown"%string -> known (Some s) = true.
Proof.
  intros Hs Hu. unfold known. rewrite (truthy_named s Hs). simpl.
  apply negb_true_iff. by apply String.eqb_neq.
Qed.

Lemma captured_aenter (ctx : RequestContext.t) :
  captured (__aenter__ CaptureRow (__init__ entry ctx)).
Proof.
  unfold captured, __aenter__, get_current_context, __init__, entry.
  cbn [connection current_database current_schema].
  unfold or_unknown. rewrite !truthy_named by assumption.
  cbn. done.
Qed.

Lemma captured_step (w : IsolatedDatabaseOperations.t) (c : call) :
  captured w -> captured (step default_schema w c).
Proof.
  intros (Hd & Hs & Ha & Hc).
  destruct c as [d [|] | s [|]]; simpl;
    unfold use_database_isolated, use_schema_isolated, use_database, use_schema;
    simpl; unfold captured; simpl; try done.
Qed.

Lemma captured_run (calls : list call) (w : IsolatedDatabaseOperations.t) :
  captured w -> captured (fold_left (step default_schema) calls w).
Proof.
  revert w. induction calls as [|c calls IH]; intros w Hw; simpl; [done|].
  apply IH. by apply captured_step.
Qed.

Lemma captured_aexit (w : IsolatedDatabaseOperations.t) :
  captured w -> connection (__aexit__ default_schema true true w) = entry.
Proof.
  intros (Hd & Hs & Ha & Hc). unfold __aexit__.
  destruct (_context_changed w) eqn:Hch; simpl.
  - rewrite Hd, (truthy_named D0 D0_named).
    unfold _restore_original_context. rewrite Hd, Hs.
    rewrite (known_named D0), (known_named S0) by assumption.
    simpl. unfold entry. by rewrite Ha.
  - by apply Hc.
Qed.

End IsolationFacts.

(** C1 (as amended).  A scope entered on a session whose current database
    and schema are both named, and neither is spelled like the placeholder
    the wrapper records for a missing value, hands the session back at the
    entry database and schema after any sequence of isolated switches,
    whichever of them the driver rejected and wherever an exception ended
    the scope, provided the capture query and the two restore statements
    succeed. *)
Theorem isolated_scope_restores_named_context
    (default_schema : string -> option string) (D0 S0 : string) (ac : bool)
    (ctx : RequestContext.t) (calls : list IsolatedDatabaseOperations.call) :
  D0 <> ""%string -> D0 <> "Unknown"%string ->
  S0 <> ""%string -> S0 <> "Unknown"%string ->
  IsolatedDatabaseOperations.run_scope default_schema
    IsolatedDatabaseOperations.CaptureRow calls true true
    (Session.mkSession (Some D0) (Some S0) ac) ctx
  = Session.mkSession (Some D0) (Some S0) ac.
Proof.
  intros HD HD' HS HS'. unfold IsolatedDatabaseOperations.run_scope.
  apply captured_aexit; try assumption.
  apply captured_run. by apply captured_aenter.
Qed.

Lemma isolated_scope_restores_named_context_witness :
  "DB0"%string <> ""%string /\ "DB0"%string <> "Unknown"%string /\
  "RAW"%string <> ""%string /\ "RAW"%string <> "Unknown"%string /\
  IsolatedDatabaseOperations.run_scope (fun _ => Some "PUBLIC"%string)
    IsolatedDatabaseOperations.CaptureRow
    [IsolatedDatabaseOperations.UseDatabaseIsolated "DB_A" true;
     IsolatedDatabaseOperations.UseSchemaIsolated "S_A" true;
     IsolatedDatabaseOperations.UseDatabaseIsolated "DB_B" false]
    true true
    (Session.mkSession (Some "DB0"%string) (Some "RAW"%string) true)
    RequestContext.new
  = Session.mkSession (Some "DB0"%string) (Some "RAW"%string) true.
Proof.
  refine (conj _ (conj _ (conj _ (conj _ _)))); try discriminate.
  apply (isolated_scope_restores_named_context
           (fun _ => Some "PUBLIC"%string) "DB0" "RAW" true); discriminate.
Defined.

(** C1 (as stated) fails.  A session entered with no current database is
    recorded as the placeholder and never restored: after one isolated
    switch the next borrower finds the request's database.  The same holds
    for a session whose database is really named like the placeholder. *)
Lemma isolated_scope_leaks_unrecorded_context :
  Session.current_database
    (IsolatedDatabaseOperations.run_scope (fun _ => Some "PUBLIC"%string)
       IsolatedDatabaseOperations.CaptureRow
       [IsolatedDatabaseOperations.UseDatabaseIsolated "DB_A" true] true true
       (Session.mkSession None None true) RequestContext.new)
  = Some "DB_A"%string
  /\ IsolatedDatabaseOperations.run_scope (fun _ => Some "PUBLIC"%string)
       IsolatedDatabaseOperations.CaptureRow
       [IsolatedDatabaseOperations.UseDatabaseIsolated "DB_A" true] true true
       (Session.mkSession None None true) RequestContext.new
     <> Session.mkSession None None true
  /\ IsolatedDatabaseOperations.run_scope (fun _ => Some "PUBLIC"%string)
       IsolatedDatabaseOperations.CaptureRow
       [IsolatedDatabaseOperations.UseDatabaseIsolated "DB_A" true] true true
       (Session.mkSession (Some "Unknown"%string) (Some "PUBLIC"%string) true)
       RequestContext.new
     <> Session.mkSession (Some "Unknown"%string) (Some "PUBLIC"%string) true.
Proof. repeat split; vm_compute; congruence. Qed.

(** ** Transactional wrapper: the transaction counters *)

(** C8, evaluated where it fails.  Inside a transactional scope whose
    counters are all zero the handler calls [commit_transaction] once,
    without a [begin] before it.  The transaction manager does nothing, being
    idle, but the wrapper counts a commit: one commit against no operation.
    [execute_with_transaction] counts its commit only when the manager is in
    a transaction; the explicit [commit_transaction] and
    [rollback_transaction] count unconditionally. *)
Theorem commit_without_begin_breaks_counters :
  let d := TransactionManager.mkDriver true true true true in
  let w0 := TransactionalDatabaseOperations.__aenter__
              (TransactionalDatabaseOperations.__init__
                 (Session.mkSession (Some "DB0"%string) (Some "PUBLIC"%string) true)
                 RequestContext.new) in
  let w := TransactionalDatabaseOperations.run
             [TransactionalDatabaseOperations.CommitTransaction d] w0 in
  let m := RequestContext.metrics (TransactionalDatabaseOperations.request_context w) in
  TransactionalDatabaseOperations.counters_consistent
    (TransactionalDatabaseOperations.request_context w0)
  /\ RequestContext.transaction_operations m = 0
  /\ RequestContext.transaction_commits m = 1
  /\ RequestContext.transaction_rollbacks m = 0
  /\ ~ TransactionalDatabaseOperations.counters_consistent
        (TransactionalDatabaseOperations.request_context w).
Proof.
  cbv zeta. unfold TransactionalDatabaseOperations.counters_consistent.
  vm_compute. repeat split; try congruence; intros H; apply H; reflexivity.
Qed.

(* A second way to the same state: [COMMIT] fails at the end of an
   [execute_with_transaction(auto_commit=False)], after the wrapper has
   counted the commit, and the exception handler counts a rollback too. *)
Lemma failed_commit_counts_commit_and_rollback :
  let d := TransactionManager.mkDriver true true false true in
  let w0 := TransactionalDatabaseOperations.__aenter__
              (TransactionalDatabaseOperations.__init__
                 (Session.mkSession (Some "DB0"%string) (Some "PUBLIC"%string) true)
                 RequestContext.new) in
  let w := TransactionalDatabaseOperations.run
             [TransactionalDatabaseOperations.ExecuteWithTransaction false d] w0 in
  let m := RequestContext.metrics (TransactionalDatabaseOperations.request_context w) in
  RequestContext.transaction_operations m = 1
  /\ RequestContext.transaction_commits m = 1
  /\ RequestContext.transaction_rollbacks m = 1.
Proof. vm_compute. done. Qed.

(** ** Connection pool: what [acquire] hands out *)

Section PoolFacts.

Import AsyncConnectionPool.

Lemma first_available_is_first (l : list PooledConnection) (c : PooledConnection) :
  first_available l = Some c ->
  exists pre post,
    l = pre ++ c :: post /\ available c = true /\
    Forall (fun x => available x = false) pre.
Proof.
  unfold first_available.
  induction l as [|x l IH]; simpl; [discriminate|].
  destruct (available x) eqn:Hx.
  - intros [= ->]. exists [], l. by repeat split.
  - intros H. destruct (IH H) as (pre & post & -> & Hc & Hpre).
    exists (x :: pre), post. repeat split; [done|]. by constructor.
Qed.

Variable seen : nat -> list PooledConnection.

Lemma wait_loop_pending (polls k : nat) :
  (forall j, (k <= j < k + polls)%nat -> first_available (seen j) = None) ->
  wait_loop seen polls k = Pending.
Proof.
  revert k. induction polls as [|polls IH]; intros k H; simpl; [done|].
  rewrite H by lia. apply IH. intros j Hj. apply H. lia.
Qed.

Lemma wait_loop_returns (polls k n : nat) (c : PooledConnection) :
  (n < polls)%nat ->
  (forall j, (k <= j < k + n)%nat -> first_available (seen j) = None) ->
  first_available (seen (k + n)) = Some c ->
  wait_loop seen polls k = Returned c.
Proof.
  revert k n. induction polls as [|polls IH]; intros k n Hn Hnone Hsome; [lia|].
  simpl. destruct n as [|n].
  - rewrite Nat.add_0_r in Hsome. by rewrite Hsome.
  - rewrite Hnone by lia. apply (IH (S k) n); [lia| |].
    + intros j Hj. apply Hnone. lia.
    + by replace (S k + n)%nat with (k + S n)%nat by lia.
Qed.

End PoolFacts.

(** C2 (as amended).  On an open pool [acquire] returns the first available
    healthy connection of the set, marked in use; with none and room below
    [max_size] it opens a new one (or raises what opening raised); with none
    and no room it polls every 0.1 s and returns the first connection a poll
    finds available.  As long as no poll finds one it keeps waiting: for
    every number of polls the call is still pending, whatever
    [connection_timeout] says, and it raises nothing. *)
Theorem acquire_first_available_else_create_else_wait
    (p : AsyncConnectionPool.t) (opened : option nat) (now : Q)
    (seen : nat -> list AsyncConnectionPool.PooledConnection) (polls : nat) :
  AsyncConnectionPool._closed p = false ->
  let conns := AsyncConnectionPool._connections p in
  let size := Z.of_nat (length conns) in
  let max := AsyncConnectionPool.max_size (AsyncConnectionPool.pool_config p) in
  let result := AsyncConnectionPool.acquire opened now seen polls p in
  (forall c, AsyncConnectionPool.first_available conns = Some c ->
     result = AsyncConnectionPool.Returned
                (c, AsyncConnectionPool.mark_in_use now c p) /\
     exists pre post,
       conns = pre ++ c :: post /\ AsyncConnectionPool.available c = true /\
       Forall (fun x => AsyncConnectionPool.available x = false) pre)
  /\ (AsyncConnectionPool.first_available conns = None -> size < max ->
      match opened with
      | Some session =>
          exists c p',
            AsyncConnectionPool._create_connection opened now p
            = AsyncConnectionPool.Returned (c, p') /\
            AsyncConnectionPool.connection c = session /\
            AsyncConnectionPool._connections p' = conns ++ [c] /\
            result = AsyncConnectionPool.Returned
                       (c, AsyncConnectionPool.mark_in_use now c p')
      | None =>
          result = AsyncConnectionPool.Raised AsyncConnectionPool.ConnectionFailed
      end)
  /\ (AsyncConnectionPool.first_available conns = None -> max <= size ->
      (forall j, (1 <= j <= polls)%nat ->
         AsyncConnectionPool.first_available (seen j) = None) ->
      result = AsyncConnectionPool.Pending)
  /\ (AsyncConnectionPool.first_available conns = None -> max <= size ->
      forall n c, (n < polls)%nat ->
        (forall j, (1 <= j <= n)%nat ->
           AsyncConnectionPool.first_available (seen j) = None) ->
        AsyncConnectionPool.first_available (seen (S n)) = Some c ->
        result = AsyncConnectionPool.Returned
                   (c, AsyncConnectionPool.mark_in_use now c p)).
Proof.
  intros Hopen conns size max result.
  subst result. unfold AsyncConnectionPool.acquire. rewrite Hopen.
  unfold AsyncConnectionPool._get_connection. fold conns.
  split; [|split; [|split]].
  - intros c Hc. rewrite Hc. split; [done|]. by apply first_available_is_first.
  - intros Hnone Hroom. rewrite Hnone.
    fold size max. rewrite (proj2 (Z.ltb_lt size max) Hroom).
    destruct opened as [session|]; simpl; [|done].
    eexists _, _. by repeat split.
  - intros Hnone Hfull Hwait. rewrite Hnone. fold size max.
    rewrite (proj2 (Z.ltb_ge size max) Hfull).
    rewrite wait_loop_pending; [done|]. intros j Hj. apply Hwait. lia.
  - intros Hnone Hfull n c Hn Hwait Hsome. rewrite Hnone. fold size max.
    rewrite (proj2 (Z.ltb_ge size max) Hfull).
    rewrite (wait_loop_returns seen polls 1 n c); [done|done| |done].
    intros j Hj. apply Hwait. lia.
Qed.

Lemma acquire_first_available_else_create_else_wait_witness :
  let busy := AsyncConnectionPool.mkConn 0 true true 0 in
  let idle := AsyncConnectionPool.mkConn 1 false true 0 in
  let p := AsyncConnectionPool.mkPool
             (AsyncConnectionPool.mkPoolConfig 1 2 30 3) [busy; idle] false in
  AsyncConnectionPool._closed p = false /\
  AsyncConnectionPool.acquire None 5 (fun _ => [busy; idle]) 5 p
  = AsyncConnectionPool.Returned
      (idle, AsyncConnectionPool.mark_in_use 5 idle p).
Proof.
  intros busy idle p. split; [reflexivity|].
  exact (proj1 (proj1 (acquire_first_available_else_create_else_wait
                         p None 5 (fun _ => [busy; idle]) 5 eq_refl)
                  idle eq_refl)).
Defined.

(** C2 (as stated) fails.  A pool at its maximum size whose only connection
    stays borrowed: after 301 polls, 30.1 s of sleeping against a timeout of
    30 s, the call has neither returned nor raised. *)
Lemma acquire_waits_past_the_timeout :
  let busy := AsyncConnectionPool.mkConn 0 true true 0 in
  let cfg := AsyncConnectionPool.mkPoolConfig 1 1 30 3 in
  let p := AsyncConnectionPool.mkPool cfg [busy] false in
  (AsyncConnectionPool.connection_timeout cfg < AsyncConnectionPool.waited 301)%Q
  /\ AsyncConnectionPool.acquire None 0 (fun _ => [busy]) 301 p
     = AsyncConnectionPool.Pending.
Proof. split; [reflexivity | vm_compute; reflexivity]. Qed.

(** ** Circuit breaker: the open state *)

Section BreakerFacts.

Import CircuitBreaker CircuitBreakerRuns.

Lemma Qle_bool_false (x y : Q) : (y < x)%Q -> Qle_bool x y = false.
Proof.
  intros H. destruct (Qle_bool x y) eqn:E; [|done].
  apply Qle_bool_iff in E. exfalso. by apply (Qlt_not_le y x).
Qed.

Lemma recovery_timeout_after_rejection (b : t) :
  _get_recovery_timeout (with_metrics (record_rejection (metrics b)) b)
  = _get_recovery_timeout b.
Proof. reflexivity. Qed.

(* A call on an open breaker before the recovery timeout: rejected under
   the lock, only the rejection counter moves. *)
Lemma call_rejected_while_open (b : t) (rt now done : Q) (f : func_outcome) :
  state b = OPEN ->
  _get_recovery_timeout b = Some rt ->
  (now - state_changed_at b < rt)%Q ->
  call now f done b
  = (with_metrics (record_rejection (metrics b)) b,
     CircuitBreakerOpenError (Qmax 0 (rt - (now - state_changed_at b))%Q)).
Proof.
  intros Hs Hrt Hlt. unfold call, _can_execute.
  rewrite Hs, Hrt, (Qle_bool_false _ _ Hlt).
  unfold _get_retry_after. by rewrite recovery_timeout_after_rejection, Hrt.
Qed.

Lemma calls_rejected_while_open (rt t0 : Q) (cs : list attempt) :
  forall b : t,
    state b = OPEN ->
    _get_recovery_timeout b = Some rt ->
    state_changed_at b = t0 ->
    Forall (fun a : attempt => (a.1.1 - t0 < rt)%Q) cs ->
    state (calls cs b).1 = OPEN /\
    state_changed_at (calls cs b).1 = t0 /\
    length (calls cs b).2 = length cs /\
    Forall (fun r => reached_function r = false /\
                     exists ra, r = CircuitBreakerOpenError ra) (calls cs b).2.
Proof.
  induction cs as [|[[now f] done] cs IH]; intros b Hs Hrt Ht Hall; simpl.
  - by repeat split.
  - inversion Hall as [|? ? Hnow Hrest]; subst. simpl in Hnow.
    rewrite (call_rejected_while_open b rt now done f Hs Hrt Hnow).
    specialize (IH (with_metrics (record_rejection (metrics b)) b) Hs Hrt eq_refl Hrest).
    destruct (calls cs (with_metrics (record_rejection (metrics b)) b)) as [b2 rs].
    simpl in *. destruct IH as (H1 & H2 & H3 & H4).
    repeat split; [done|done|by rewrite H3|].
    constructor; [|done]. split; [done|]. by eexists.
Qed.

Lemma half_opens_at_recovery_timeout (b : t) (rt now : Q) :
  state b = OPEN ->
  _get_recovery_timeout b = Some rt ->
  (rt <= now - state_changed_at b)%Q ->
  _can_execute now b = Some (_transition_to_half_open now b, true) /\
  state (_transition_to_half_open now b) = HALF_OPEN.
Proof.
  intros Hs Hrt Hle. unfold _can_execute. rewrite Hs, Hrt.
  rewrite (proj2 (Qle_bool_iff _ _) Hle). split; [done|].
  unfold _transition_to_half_open. by rewrite Hs.
Qed.

Lemma half_open_failure_reopens (b : t) (now : Q) :
  state b = HALF_OPEN -> state (_on_failure now b) = OPEN.
Proof.
  intros Hs. unfold _on_failure. simpl. rewrite Hs.
  unfold _transition_to_open. simpl. by rewrite Hs.
Qed.

End BreakerFacts.

(* Where the effective recovery timeout can be computed the breaker does
   what is asked of it, from the moment a call opens it.  A call that finds
   the breaker not open and leaves it open has stamped the state change
   with the clock reading of its failure; until the timeout has elapsed
   since then every call is rejected with the circuit-open error and the
   time left, and changes nothing but the rejection counter; the first call
   at or after it is let through to the function in half-open; and a call
   that fails in half-open leaves the breaker open again, stamped with the
   reading of that failure. *)
Lemma breaker_opened_by_call_recovers_after_timeout
    (b0 : CircuitBreaker.t) (now0 done0 rt : Q) (f0 : CircuitBreaker.func_outcome) :
  let b := (CircuitBreaker.call now0 f0 done0 b0).1 in
  CircuitBreaker.state b0 <> CircuitBreaker.OPEN ->
  CircuitBreaker.state b = CircuitBreaker.OPEN ->
  CircuitBreaker._get_recovery_timeout b = Some rt ->
  (CircuitBreaker.state_changed_at b = done0
   /\ CircuitBreaker.half_open_calls b = 0
   /\ CircuitBreaker.success_count b = 0
   /\ CircuitBreaker.reached_function (CircuitBreaker.call now0 f0 done0 b0).2 = true
   /\ (CircuitBreaker.call now0 f0 done0 b0).2 <> CircuitBreaker.ResultReturned)
  /\ (forall (now done : Q) (f : CircuitBreaker.func_outcome),
        (now - done0 < rt)%Q ->
        CircuitBreaker.call now f done b
        = (CircuitBreaker.with_metrics
             (CircuitBreaker.record_rejection (CircuitBreaker.metrics b)) b,
           CircuitBreaker.CircuitBreakerOpenError (Qmax 0 (rt - (now - done0))%Q)))
  /\ (forall (now done : Q) (f : CircuitBreaker.func_outcome),
        (rt <= now - done0)%Q ->
        let r := CircuitBreaker.call now f done b in
        CircuitBreaker.reached_function r.2 = true
        /\ match f with
           | CircuitBreaker.FuncReturns =>
               if CircuitBreaker.success_threshold (CircuitBreaker.config b) <=? 1
               then CircuitBreaker.state r.1 = CircuitBreaker.CLOSED
               else CircuitBreaker.state r.1 = CircuitBreaker.HALF_OPEN
                    /\ CircuitBreaker.state_changed_at r.1 = now
                    /\ CircuitBreaker.half_open_calls r.1 = 1
                    /\ CircuitBreaker.success_count r.1 = 1
           | _ =>
               CircuitBreaker.state r.1 = CircuitBreaker.OPEN
               /\ CircuitBreaker.state_changed_at r.1 = done
           end)
  /\ (forall (h : CircuitBreaker.t) (now done : Q),
        CircuitBreaker.state h = CircuitBreaker.HALF_OPEN ->
        CircuitBreaker.half_open_calls h
        < CircuitBreaker.half_open_max_calls (CircuitBreaker.config h) ->
        let r := CircuitBreaker.call now CircuitBreaker.FuncRaises done h in
        r.2 = CircuitBreaker.ResultRaised
        /\ CircuitBreaker.state r.1 = CircuitBreaker.OPEN
        /\ CircuitBreaker.state_changed_at r.1 = done).
Proof.
  cbv zeta. intros Hnot Hopen Hrt.
  assert (Hstamp :
    CircuitBreaker.state_changed_at (CircuitBreaker.call now0 f0 done0 b0).1 = done0
    /\ CircuitBreaker.half_open_calls (CircuitBreaker.call now0 f0 done0 b0).1 = 0
    /\ CircuitBreaker.success_count (CircuitBreaker.call now0 f0 done0 b0).1 = 0
    /\ CircuitBreaker.reached_function (CircuitBreaker.call now0 f0 done0 b0).2 = true
    /\ (CircuitBreaker.call now0 f0 done0 b0).2 <> CircuitBreaker.ResultReturned).
  { revert Hopen. clear Hrt.
    destruct b0 as [cfg st changed fc sc hoc m]. cbn in Hnot.
    unfold CircuitBreaker.call, CircuitBreaker._can_execute.
    cbn [CircuitBreaker.state CircuitBreaker.half_open_calls CircuitBreaker.config].
    destruct st; [|done|].
    - cbn [CircuitBreaker.state_eqb CircuitBreaker.state].
      destruct f0; cbn [fst snd].
      + unfold CircuitBreaker._on_success. cbn. discriminate.
      + unfold CircuitBreaker._on_failure, CircuitBreaker.get_recent_failure_count. cbn.
        destruct (_ || _); unfold CircuitBreaker._transition_to_open; cbn;
          [done | discriminate].
      + unfold CircuitBreaker._on_failure, CircuitBreaker.get_recent_failure_count. cbn.
        destruct (_ || _); unfold CircuitBreaker._transition_to_open; cbn;
          [done | discriminate].
    - destruct (hoc <? CircuitBreaker.half_open_max_calls cfg).
      + cbn [CircuitBreaker.state_eqb CircuitBreaker.state].
        destruct f0; cbn [fst snd].
        * unfold CircuitBreaker._on_success. cbn.
          destruct (_ <=? _); unfold CircuitBreaker._transition_to_closed; cbn;
            discriminate.
        * unfold CircuitBreaker._on_failure, CircuitBreaker._transition_to_open.
          cbn. done.
        * unfold CircuitBreaker._on_failure, CircuitBreaker._transition_to_open.
          cbn. done.
      + destruct (CircuitBreaker._get_retry_after now0 _); cbn; discriminate. }
  destruct Hstamp as (Hat & Hcalls & Hsucc & Hreached & Hfailed).
  set (b := (CircuitBreaker.call now0 f0 done0 b0).1) in *.
  split; [done|]. split; [|split].
  - intros now done f Hlt. rewrite <- Hat in Hlt |- *.
    by apply call_rejected_while_open.
  - intros now done f Hle. rewrite <- Hat in Hle.
    destruct (half_opens_at_recovery_timeout b rt now Hopen Hrt Hle) as [Hcan Hhalf].
    unfold CircuitBreaker.call. rewrite Hcan.
    unfold CircuitBreaker._transition_to_half_open in *. rewrite Hopen in *.
    cbn [negb CircuitBreaker.state_eqb CircuitBreaker.state] in *.
    destruct f; cbn [fst snd CircuitBreaker.reached_function].
    + split; [done|]. unfold CircuitBreaker._on_success. cbn.
      destruct (Z.leb_spec (CircuitBreaker.success_threshold (CircuitBreaker.config b))
                  1) as [H1|H1].
      * destruct (Z.leb_spec (CircuitBreaker.success_threshold (CircuitBreaker.config b))
                    (0 + 1)); [|lia].
        unfold CircuitBreaker._transition_to_closed. by cbn.
      * destruct (Z.leb_spec (CircuitBreaker.success_threshold (CircuitBreaker.config b))
                    (0 + 1)); [lia|].
        by cbn.
    + split; [done|]. unfold CircuitBreaker._on_failure, CircuitBreaker._transition_to_open.
      by cbn.
    + split; [done|]. unfold CircuitBreaker._on_failure, CircuitBreaker._transition_to_open.
      by cbn.
  - intros h now done Hs Htrial. destruct h as [cfg st changed fc sc hoc m].
    cbn in Hs, Htrial. subst st.
    unfold CircuitBreaker.call, CircuitBreaker._can_execute.
    cbn [CircuitBreaker.state CircuitBreaker.half_open_calls CircuitBreaker.config].
    rewrite (proj2 (Z.ltb_lt _ _) Htrial).
    cbn [CircuitBreaker.state_eqb CircuitBreaker.state fst snd].
    unfold CircuitBreaker._on_failure, CircuitBreaker._transition_to_open.
    by cbn.
Qed.

(* With exponential backoff on and a zero [recovery_timeout] the gate of an
   open breaker divides by zero: every call raises out of the gate and
   leaves the breaker as it found it. *)
Lemma zero_recovery_timeout_raises_at_the_gate (b : CircuitBreaker.t) :
  CircuitBreaker.state b = CircuitBreaker.OPEN ->
  CircuitBreaker.exponential_backoff (CircuitBreaker.config b) = true ->
  (CircuitBreaker.recovery_timeout (CircuitBreaker.config b) == 0)%Q ->
  (forall (now done : Q) (f : CircuitBreaker.func_outcome),
     CircuitBreaker.call now f done b = (b, CircuitBreaker.ZeroDivisionError))
  /\ (forall cs : list CircuitBreakerRuns.attempt,
        (CircuitBreakerRuns.calls cs b).1 = b
        /\ (CircuitBreakerRuns.calls cs b).2
           = repeat CircuitBreaker.ZeroDivisionError (length cs)).
Proof.
  intros Hs Hexp Hzero.
  assert (Hrt : CircuitBreaker._get_recovery_timeout b = None).
  { unfold CircuitBreaker._get_recovery_timeout. rewrite Hexp. cbn [negb].
    by rewrite (proj2 (Qeq_bool_iff _ _) Hzero). }
  assert (Hcall : forall (now done : Q) (f : CircuitBreaker.func_outcome),
            CircuitBreaker.call now f done b = (b, CircuitBreaker.ZeroDivisionError)).
  { intros now done f. unfold CircuitBreaker.call, CircuitBreaker._can_execute.
    by rewrite Hs, Hrt. }
  split; [exact Hcall|].
  induction cs as [|[[now f] fin] cs IH];
    cbn [CircuitBreakerRuns.calls fst snd length repeat]; [split; reflexivity|].
  rewrite Hcall.
  destruct (CircuitBreakerRuns.calls cs b) as [b2 rs].
  cbn [fst snd] in *. destruct IH as [-> ->]. split; reflexivity.
Qed.

(** C3, evaluated where it fails.  The default configuration with
    [recovery_timeout = 0]: exponential backoff is on, and the effective
    timeout divides [max_recovery_timeout] by [recovery_timeout].  Five
    failing calls open the breaker, as they should.  From then on every
    call, at whatever time, raises [ZeroDivisionError] out of the gate: it is
    not rejected with the circuit-open error, it does not reach the function,
    and it leaves the breaker as it was, so the breaker never moves to
    half-open.  With exponential backoff off the same timeout is served by
    the sibling branch, and the first call after the opening is let through
    in half-open. *)
Theorem open_breaker_with_zero_recovery_timeout_never_half_opens :
  let cfg := CircuitBreaker.mkConfig 5 0 3 30 60 true 300 5 in
  let plain := CircuitBreaker.mkConfig 5 0 3 30 60 false 300 5 in
  let failing : list CircuitBreakerRuns.attempt :=
    [(1%Q, CircuitBreaker.FuncRaises, 1%Q); (2%Q, CircuitBreaker.FuncRaises, 2%Q);
     (3%Q, CircuitBreaker.FuncRaises, 3%Q); (4%Q, CircuitBreaker.FuncRaises, 4%Q);
     (5%Q, CircuitBreaker.FuncRaises, 5%Q)] in
  let opened := CircuitBreakerRuns.calls failing (CircuitBreaker.__init__ cfg 0) in
  let b := opened.1 in
  let b' := (CircuitBreakerRuns.calls failing (CircuitBreaker.__init__ plain 0)).1 in
  opened.2 = repeat CircuitBreaker.ResultRaised 5
  /\ CircuitBreaker.state b = CircuitBreaker.OPEN
  /\ CircuitBreaker.state_changed_at b = 5%Q
  /\ (forall (now done : Q) (f : CircuitBreaker.func_outcome),
        CircuitBreaker.call now f done b = (b, CircuitBreaker.ZeroDivisionError))
  /\ (forall cs : list CircuitBreakerRuns.attempt,
        (CircuitBreakerRuns.calls cs b).1 = b
        /\ (CircuitBreakerRuns.calls cs b).2
           = repeat CircuitBreaker.ZeroDivisionError (length cs))
  /\ CircuitBreaker.state b' = CircuitBreaker.OPEN
  /\ CircuitBreaker.state
       (CircuitBreaker.call 5 CircuitBreaker.FuncReturns 6 b').1
     = CircuitBreaker.HALF_OPEN
  /\ (CircuitBreaker.call 5 CircuitBreaker.FuncReturns 6 b').2
     = CircuitBreaker.ResultReturned.
Proof.
  intros cfg plain failing opened b b'.
  assert (Hres : opened.2 = repeat CircuitBreaker.ResultRaised 5)
    by (vm_compute; reflexivity).
  assert (Hs : CircuitBreaker.state b = CircuitBreaker.OPEN)
    by (vm_compute; reflexivity).
  assert (Hat : CircuitBreaker.state_changed_at b = 5%Q)
    by (vm_compute; reflexivity).
  assert (Hexp : CircuitBreaker.exponential_backoff (CircuitBreaker.config b) = true)
    by (vm_compute; reflexivity).
  assert (Hzero : (CircuitBreaker.recovery_timeout (CircuitBreaker.config b) == 0)%Q)
    by (vm_compute; reflexivity).
  assert (Hs' : CircuitBreaker.state b' = CircuitBreaker.OPEN)
    by (vm_compute; reflexivity).
  assert (Hhalf : CircuitBreaker.state
                    (CircuitBreaker.call 5 CircuitBreaker.FuncReturns 6 b').1
                  = CircuitBreaker.HALF_OPEN)
    by (vm_compute; reflexivity).
  assert (Hret : (CircuitBreaker.call 5 CircuitBreaker.FuncReturns 6 b').2
                 = CircuitBreaker.ResultReturned)
    by (vm_compute; reflexivity).
  destruct (zero_recovery_timeout_raises_at_the_gate b Hs Hexp Hzero) as [Hcall Hcalls].
  exact (conj Hres (conj Hs (conj Hat (conj Hcall (conj Hcalls
           (conj Hs' (conj Hhalf Hret))))))).
Qed.

(** ** Token bucket: how many calls an interval lets through *)

Section BucketFacts.

Import TokenBucket.

(* The interval [[a, a + T]] the calls fall in. *)
Variables a T : Q.
Hypothesis T_nonneg : (0 <= T)%Q.

Definition counted (n : nat) : Q := inject_Z (Z.of_nat n).

Lemma counted_S (n : nat) : (counted (S n) == counted n + 1)%Q.
Proof.
  unfold counted. rewrite Nat2Z.inj_succ, <- Z.add_1_r, inject_Z_plus. reflexivity.
Qed.

(* [n] calls succeeded so far inside the interval. *)
Definition within (b : t) (n : nat) : Prop :=
  (0 <= refill_rate b)%Q /\
  (0 <= tokens b)%Q /\
  (tokens b <= inject_Z (capacity b))%Q /\
  ((last_refill b < a)%Q /\ n = O
   \/ (a <= last_refill b)%Q /\ (last_refill b <= a + T)%Q /\
      (counted n + tokens b
       <= inject_Z (capacity b) + (last_refill b - a) * refill_rate b)%Q).

(* After a refill at a reading inside the interval. *)
Definition refilled (b : t) (n : nat) : Prop :=
  (0 <= refill_rate b)%Q /\
  (0 <= tokens b)%Q /\
  (tokens b <= inject_Z (capacity b))%Q /\
  (a <= last_refill b)%Q /\ (last_refill b <= a + T)%Q /\
  (counted n + tokens b
   <= inject_Z (capacity b) + (last_refill b - a) * refill_rate b)%Q.

Lemma refilled_within (b : t) (n : nat) : refilled b n -> within b n.
Proof. intros (H1 & H2 & H3 & H4 & H5 & H6). repeat split; try done. by right. Qed.

Lemma Qltb_true (x y : Q) : CircuitBreaker.Qltb x y = true -> (x < y)%Q.
Proof.
  unfold CircuitBreaker.Qltb. intros H. apply negb_true_iff in H.
  apply Qnot_le_lt. intros Hle. apply Qle_bool_iff in Hle. congruence.
Qed.

Lemma Qltb_false (x y : Q) : CircuitBreaker.Qltb x y = false -> (y <= x)%Q.
Proof.
  unfold CircuitBreaker.Qltb. intros H. apply negb_false_iff in H.
  by apply Qle_bool_iff.
Qed.

Lemma refill_within (b : t) (n : nat) (now : Q) :
  (a <= now)%Q -> (now <= a + T)%Q -> within b n ->
  refilled (_refill now b) n /\
  capacity (_refill now b) = capacity b /\
  refill_rate (_refill now b) = refill_rate b.
Proof.
  intros Ha HT (Hr & H0 & Hc & Hcase). unfold _refill.
  destruct (CircuitBreaker.Qltb 0 (now - last_refill b)) eqn:E.
  - apply Qltb_true in E. split; [|done]. unfold refilled; cbn [tokens capacity refill_rate last_refill].
    assert (Hadd : (0 <= (now - last_refill b) * refill_rate b)%Q)
      by (apply Qmult_le_0_compat; lra).
    assert (Hspan : (0 <= (now - a) * refill_rate b)%Q)
      by (apply Qmult_le_0_compat; lra).
    split; [done|]. split; [apply Q.min_glb; lra|].
    split; [apply Q.le_min_l|]. split; [done|]. split; [done|].
    destruct Hcase as [[Hlt ->] | (Hle & _ & Hsum)].
    + pose proof (Q.le_min_l (inject_Z (capacity b))
                    (tokens b + (now - last_refill b) * refill_rate b)) as Hm.
      change (counted 0) with 0%Q in *. lra.
    + pose proof (Q.le_min_r (inject_Z (capacity b))
                    (tokens b + (now - last_refill b) * refill_rate b)) as Hm.
      lra.
  - apply Qltb_false in E. split; [|done].
    destruct Hcase as [[Hlt ->] | (Hle & Hup & Hsum)]; [lra|].
    by repeat split.
Qed.

Lemma consume_within (b : t) (n : nat) (now : Q) :
  (a <= now)%Q -> (now <= a + T)%Q -> within b n ->
  within (consume now 1 b).1
         (n + (if succeeded (consume now 1 b).2 then 1 else 0))%nat /\
  capacity (consume now 1 b).1 = capacity b /\
  refill_rate (consume now 1 b).1 = refill_rate b.
Proof.
  intros Ha HT Hb.
  destruct (refill_within b n now Ha HT Hb) as ((Hr & H0 & Hc & Hl & Hu & Hs) & Hcap & Hrate).
  unfold consume.
  destruct (Qle_bool (inject_Z 1) (tokens (_refill now b))) eqn:E.
  - apply Qle_bool_iff in E. simpl. split; [|done].
    apply refilled_within. unfold refilled; cbn [tokens capacity refill_rate last_refill].
    replace (n + 1)%nat with (S n) by lia.
    pose proof (counted_S n) as HS.
    change (inject_Z 1) with 1%Q in *.
    repeat split; try done; lra.
  - destruct (Qeq_bool (refill_rate (_refill now b)) 0); simpl;
      (split; [|done]); apply refilled_within;
      replace (n + 0)%nat with n by lia; by repeat split.
Qed.

Lemma successes_cons (r : consume_result) (rs : list consume_result) :
  successes (r :: rs) = ((if succeeded r then 1 else 0) + successes rs)%nat.
Proof. unfold successes. by destruct r. Qed.

Lemma consume_all_within (times : list Q) :
  forall (b : t) (n : nat),
    Forall (fun now => (a <= now)%Q /\ (now <= a + T)%Q) times ->
    within b n ->
    within (consume_all times b).1 (n + successes (consume_all times b).2)%nat /\
    capacity (consume_all times b).1 = capacity b /\
    refill_rate (consume_all times b).1 = refill_rate b.
Proof.
  induction times as [|now times IH]; intros b n Hall Hb; simpl.
  - unfold successes. simpl. by replace (n + 0)%nat with n by lia.
  - inversion Hall as [|? ? [Ha HT] Hrest]; subst.
    destruct (consume_within b n now Ha HT Hb) as (Hstep & Hcap & Hrate).
    destruct (consume now 1 b) as [b1 r]. simpl in Hstep, Hcap, Hrate.
    specialize (IH b1 _ Hrest Hstep).
    destruct (consume_all times b1) as [b2 rs]. simpl in *.
    destruct IH as (IH1 & IH2 & IH3). split; [|split; congruence].
    by rewrite successes_cons, Nat.add_assoc.
Qed.

Lemma bucket_bound (times : list Q) (b : t) :
  (0 <= refill_rate b)%Q ->
  (0 <= tokens b)%Q -> (tokens b <= inject_Z (capacity b))%Q ->
  (last_refill b <= a)%Q ->
  Forall (fun now => (a <= now)%Q /\ (now <= a + T)%Q) times ->
  (counted (successes (consume_all times b).2)
   <= inject_Z (capacity b) + T * refill_rate b)%Q.
Proof.
  intros Hr H0 Hc Hl Hall.
  assert (Hb : within b 0).
  { repeat split; try done.
    destruct (Qlt_le_dec (last_refill b) a) as [Hlt | Hge]; [by left | right].
    assert (last_refill b == a)%Q as Heq by lra.
    repeat split; [done | lra |]. change (counted 0) with 0%Q.
    assert (0 <= (last_refill b - a) * refill_rate b)%Q
      by (rewrite Heq; ring_simplify; lra).
    lra. }
  destruct (consume_all_within times b 0 Hall Hb)
    as ((Hr' & H0' & Hc' & Hcase) & Hcap & Hrate).
  simpl in Hcase. rewrite Hcap, Hrate in *.
  assert (HTr : (0 <= T * refill_rate b)%Q) by (apply Qmult_le_0_compat; lra).
  destruct Hcase as [[_ ->] | (Hle & Hup & Hsum)].
  - change (counted 0) with 0%Q. lra.
  - assert ((last_refill (consume_all times b).1 - a) * refill_rate b
            <= T * refill_rate b)%Q
      by (apply Qmult_le_compat_r; lra).
    lra.
Qed.

End BucketFacts.

Section BucketHistory.

Import TokenBucket.

Variable a : Q.

(* What every state of a bucket satisfies before the interval starts. *)
Definition settled (b : t) : Prop :=
  (0 <= refill_rate b)%Q /\ (0 <= tokens b)%Q /\
  (tokens b <= inject_Z (capacity b))%Q /\ (last_refill b <= a)%Q.

Lemma consume_settled (b : t) (now : Q) :
  (now <= a)%Q -> settled b ->
  settled (consume now 1 b).1 /\
  capacity (consume now 1 b).1 = capacity b /\
  refill_rate (consume now 1 b).1 = refill_rate b.
Proof.
  intros Hnow (Hr & H0 & Hc & Hl).
  assert (Hre : settled (_refill now b) /\
                capacity (_refill now b) = capacity b /\
                refill_rate (_refill now b) = refill_rate b).
  { unfold _refill.
    destruct (CircuitBreaker.Qltb 0 (now - last_refill b)) eqn:E; [|by repeat split].
    apply Qltb_true in E. split; [|done].
    unfold settled; cbn [tokens capacity refill_rate last_refill].
    assert (0 <= (now - last_refill b) * refill_rate b)%Q
      by (apply Qmult_le_0_compat; lra).
    split; [done|]. split; [apply Q.min_glb; lra|].
    split; [apply Q.le_min_l | done]. }
  destruct Hre as ((Hr' & H0' & Hc' & Hl') & Hcap & Hrate).
  unfold consume.
  destruct (Qle_bool (inject_Z 1) (tokens (_refill now b))) eqn:E.
  - apply Qle_bool_iff in E. change (inject_Z 1) with 1%Q in *.
    split; [|done]. unfold settled; cbn [fst tokens capacity refill_rate last_refill].
    repeat split; try done; lra.
  - by destruct (Qeq_bool (refill_rate (_refill now b)) 0).
Qed.

Lemma consume_all_settled (times : list Q) :
  forall b : t,
    Forall (fun now => (now <= a)%Q) times -> settled b ->
    settled (consume_all times b).1 /\
    capacity (consume_all times b).1 = capacity b /\
    refill_rate (consume_all times b).1 = refill_rate b.
Proof.
  induction times as [|now times IH]; intros b Hall Hb; simpl; [done|].
  inversion Hall as [|? ? Hnow Hrest]; subst.
  destruct (consume_settled b now Hnow Hb) as (Hstep & Hcap & Hrate).
  destruct (consume now 1 b) as [b1 r]. simpl in Hstep, Hcap, Hrate.
  specialize (IH b1 Hrest Hstep).
  destruct (consume_all times b1) as [b2 rs]. simpl in *.
  destruct IH as (IH1 & IH2 & IH3). split; [done|]. split; congruence.
Qed.

End BucketHistory.

(** C4 (as amended).  The token bucket of a rate limit with [limit] per
    [window_seconds] and burst allowance [burst] holds [limit + burst]
    tokens when full and refills at [limit / window_seconds] per second.
    Whatever calls came before, the calls it lets through during an interval
    of length [T] number at most [ceil(T * rate) + limit + burst]. *)
Theorem token_bucket_passes_at_most_capacity_plus_refill
    (l : ClientRateLimit.RateLimit) (t0 a T : Q) (b0 : TokenBucket.t)
    (history times : list Q) :
  ClientRateLimit.init_bucket l t0 = Some b0 ->
  0 <= ClientRateLimit.limit l ->
  0 <= ClientRateLimit.burst_allowance l ->
  0 < ClientRateLimit.window_seconds l ->
  (t0 <= a)%Q -> (0 <= T)%Q ->
  Forall (fun now => (now <= a)%Q) history ->
  Forall (fun now => (a <= now)%Q /\ (now <= a + T)%Q) times ->
  let rate := (inject_Z (ClientRateLimit.limit l)
               / inject_Z (ClientRateLimit.window_seconds l))%Q in
  let b := (TokenBucket.consume_all history b0).1 in
  Z.of_nat (TokenBucket.successes (TokenBucket.consume_all times b).2)
  <= Qceiling (T * rate) + ClientRateLimit.limit l + ClientRateLimit.burst_allowance l.
Proof.
  intros Hinit Hlim Hburst Hwin Ht0 HT Hhist Htimes. cbv zeta.
  unfold ClientRateLimit.init_bucket in Hinit.
  destruct (ClientRateLimit.uses_token_bucket (ClientRateLimit.limit_type l));
    [|discriminate].
  destruct (ClientRateLimit.window_seconds l =? 0) eqn:Hw0; [lia|].
  injection Hinit as <-.
  set (rate := (inject_Z (ClientRateLimit.limit l)
                / inject_Z (ClientRateLimit.window_seconds l))%Q).
  set (cap := ClientRateLimit.limit l + ClientRateLimit.burst_allowance l).
  assert (Hrate : (0 <= rate)%Q).
  { unfold rate. apply Qle_shift_div_l.
    - change 0%Q with (inject_Z 0). rewrite <- Zlt_Qlt. lia.
    - rewrite Qmult_0_l. change 0%Q with (inject_Z 0). rewrite <- Zle_Qle. lia. }
  assert (Hb0 : settled a (TokenBucket.__init__ cap rate t0)).
  { unfold settled, TokenBucket.__init__; simpl.
    assert (0 <= inject_Z cap)%Q
      by (change 0%Q with (inject_Z 0); rewrite <- Zle_Qle; lia).
    repeat split; try done; lra. }
  destruct (consume_all_settled a history _ Hhist Hb0)
    as ((Hr & H0 & Hc & Hl) & Hcap & Hrt).
  simpl in Hcap, Hrt.
  pose proof (bucket_bound a T HT times _ Hr H0 Hc Hl Htimes) as Hbound.
  rewrite Hcap, Hrt in Hbound. unfold counted in Hbound.
  pose proof (Qle_ceiling (T * rate)) as Hceil.
  replace (Qceiling (T * rate) + ClientRateLimit.limit l
           + ClientRateLimit.burst_allowance l)
    with (cap + Qceiling (T * rate)) by (unfold cap; lia).
  rewrite Zle_Qle, inject_Z_plus. lra.
Qed.

Lemma token_bucket_passes_at_most_capacity_plus_refill_witness :
  let l := ClientRateLimit.mkRateLimit ClientRateLimit.REQUESTS_PER_SECOND 10 1 5 in
  let b0 := TokenBucket.__init__ 15 (inject_Z 10 / inject_Z 1) 0 in
  let times := repeat 0%Q 16 ++ [(2 # 5)%Q; (11 # 10)%Q] in
  ClientRateLimit.init_bucket l 0 = Some b0 /\
  Z.of_nat (TokenBucket.successes
              (TokenBucket.consume_all times (TokenBucket.consume_all [] b0).1).2)
  <= Qceiling ((11 # 10) * (inject_Z 10 / inject_Z 1)) + 10 + 5.
Proof.
  intros l b0 times. split; [reflexivity|].
  apply (token_bucket_passes_at_most_capacity_plus_refill l 0 0 (11 # 10) b0 [] times);
    try reflexivity; try lia; try (vm_compute; congruence).
  - constructor.
  - unfold times. repeat constructor; vm_compute; congruence.
Defined.

(** C4 (as stated) fails.  Limit 10 per second with burst 5: the bucket
    starts with 15 tokens, so 15 calls at t = 0 pass, three times the
    claimed bound [ceil(0 * 10) + 5] for an interval of length 0; the 16th
    call at t = 0 is refused with [retry_after = 0.1]; and the call at
    t = 0.4 passes, 4 tokens having been refilled. *)
Lemma token_bucket_exceeds_claimed_bound :
  let b0 := TokenBucket.__init__ 15 (inject_Z 10 / inject_Z 1) 0 in
  let at_zero := TokenBucket.consume_all (repeat 0%Q 15) b0 in
  ClientRateLimit.init_bucket
    (ClientRateLimit.mkRateLimit ClientRateLimit.REQUESTS_PER_SECOND 10 1 5) 0
  = Some b0
  /\ TokenBucket.successes at_zero.2 = 15%nat
  /\ ~ (Z.of_nat (TokenBucket.successes at_zero.2)
        <= Qceiling (0 * (inject_Z 10 / inject_Z 1)) + 5)
  /\ (exists ra, (TokenBucket.consume 0 1 at_zero.1).2 = TokenBucket.Denied ra
                 /\ (ra == 1 # 10)%Q)
  /\ (TokenBucket.consume (2 # 5) 1 at_zero.1).2 = TokenBucket.Consumed.
Proof.
  cbv zeta. split; [reflexivity|]. split; [vm_compute; reflexivity|].
  split; [vm_compute; congruence|]. split; [|vm_compute; reflexivity].
  eexists. split; [vm_compute; reflexivity | reflexivity].
Qed.

(** ** Backoff schedule: how many delays, and against which deadline *)

Section BackoffFacts.

Import Backoff.

Variable random : nat -> Q.

(* What a call of [__next__] that yields a delay has checked and done. *)
Lemma next_value (b b' : t) (now d : Q) :
  __next__ random now b = (b', Value d) ->
  config b' = config b /\
  _start_time b' = _start_time b /\
  _attempt_count b' = S (_attempt_count b) /\
  Z.of_nat (_attempt_count b) < max_attempts (config b) /\
  (forall total, timeout_set (total_timeout (config b)) = Some total ->
                 (now - _start_time b < total)%Q).
Proof.
  unfold __next__.
  destruct (max_attempts (config b) <=? Z.of_nat (_attempt_count b)) eqn:Hmax;
    [discriminate|].
  apply Z.leb_gt in Hmax.
  destruct (timeout_set (total_timeout (config b))) as [total|] eqn:Htot.
  - destruct (Qle_bool total (now - _start_time b)) eqn:Hexp; [discriminate|].
    destruct (_calculate_delay random (config b) (_attempt_count b) (_rng b))
      as [[v| |] k]; [|discriminate..].
    intros [= <- <-]. simpl. repeat split; try done.
    intros total' [= <-]. apply Qnot_le_lt. intros Hle.
    apply Qle_bool_iff in Hle. congruence.
  - destruct (_calculate_delay random (config b) (_attempt_count b) (_rng b))
      as [[v| |] k]; [|discriminate..].
    intros [= <- <-]. simpl. repeat split; try done.
Qed.

Lemma produced_length (nows : list Q) :
  forall b : t,
    Z.of_nat (length (produced random nows b))
    <= Z.max 0 (max_attempts (config b) - Z.of_nat (_attempt_count b)).
Proof.
  induction nows as [|now nows IH]; intros b; simpl; [lia|].
  destruct (__next__ random now b) as [b' [d| |]] eqn:E; simpl; try lia.
  destruct (next_value b b' now d E) as (Hc & _ & Hn & Hlt & _).
  specialize (IH b'). rewrite Hc, Hn in IH. lia.
Qed.

(* A caller that sleeps: when a delay is handed out, the delays handed out
   before it have all been slept, and the deadline had not passed. *)
Lemma slept_before_deadline (total : Q) (lags : list Q) :
  forall (now : Q) (b : t) (ds : list Q) (d : Q),
    timeout_set (total_timeout (config b)) = Some total ->
    Forall (fun lag => (0 <= lag)%Q) lags ->
    slept random lags now b = ds ++ [d] ->
    (now - _start_time b + Qsum ds < total)%Q.
Proof.
  induction lags as [|lag lags IH]; intros now b ds d Htot Hlags Hrun; simpl in Hrun.
  - by destruct ds.
  - inversion Hlags as [|? ? Hlag Hrest]; subst.
    destruct (__next__ random (now + lag) b) as [b' [d0| |]] eqn:E;
      try by destruct ds.
    destruct (next_value b b' _ d0 E) as (Hc & Hs & _ & _ & Hdead).
    specialize (Hdead total Htot).
    destruct ds as [|d1 ds]; simpl in Hrun.
    + simpl. lra.
    + injection Hrun as <- Hrun.
      assert (Htot' : timeout_set (total_timeout (config b')) = Some total)
        by (by rewrite Hc).
      specialize (IH _ b' ds d Htot' Hrest Hrun). rewrite Hs in IH.
      simpl. lra.
Qed.

End BackoffFacts.

(** C9 (as amended).  A schedule started by [__iter__] hands out at most
    [max_attempts] delays, whenever it is asked.  When a total timeout is
    set, no delay is handed out once the time elapsed since the start has
    reached it; so for a caller that sleeps each delay before asking for the
    next, the delays handed out before the last one sum to less than the
    total timeout.  The last delay is not counted against the timeout. *)
Theorem backoff_bounded_by_attempts_and_deadline
    (random : nat -> Q) (b : Backoff.t) (start : Q) :
  let b0 := Backoff.__iter__ start b in
  let cfg := Backoff.config b in
  (forall nows : list Q,
     Z.of_nat (length (Backoff.produced random nows b0))
     <= Z.max 0 (Backoff.max_attempts cfg))
  /\ (forall (total : Q) (lags ds : list Q) (d : Q),
        Backoff.timeout_set (Backoff.total_timeout cfg) = Some total ->
        Forall (fun lag => (0 <= lag)%Q) lags ->
        Backoff.slept random lags start b0 = ds ++ [d] ->
        (Backoff.Qsum ds < total)%Q).
Proof.
  intros b0 cfg. split.
  - intros nows. pose proof (produced_length random nows b0) as H.
    simpl in H. fold cfg in H. lia.
  - intros total lags ds d Htot Hlags Hrun.
    pose proof (slept_before_deadline random total lags start b0 ds d Htot Hlags Hrun) as H.
    simpl in H. lra.
Qed.

Lemma backoff_bounded_by_attempts_and_deadline_witness :
  let cfg := Backoff.mkConfig Backoff.EXPONENTIAL 1 300 5 2 300 1 2 1 false "full"
               (1 # 10) None (Some 10%Q) in
  let b := Backoff.mkBackoff cfg 0 0 0 in
  let random := fun _ : nat => (1 # 2)%Q in
  Backoff.timeout_set (Backoff.total_timeout cfg) = Some 10%Q /\
  Forall (fun lag => (0 <= lag)%Q) [0; 0; 0; 0; 0; 0]%Q /\
  Backoff.slept random [0; 0; 0; 0; 0; 0]%Q 0 (Backoff.__iter__ 0 b)
  = [Qmax 0 (Qmin (Qmin (1 * 2 ^ 0) 300) 300);
     Qmax 0 (Qmin (Qmin (1 * 2 ^ 1) 300) 300);
     Qmax 0 (Qmin (Qmin (1 * 2 ^ 2) 300) 300)]%Q
    ++ [Qmax 0 (Qmin (Qmin (1 * 2 ^ 3) 300) 300)]%Q /\
  (Backoff.Qsum [Qmax 0 (Qmin (Qmin (1 * 2 ^ 0) 300) 300);
                 Qmax 0 (Qmin (Qmin (1 * 2 ^ 1) 300) 300);
                 Qmax 0 (Qmin (Qmin (1 * 2 ^ 2) 300) 300)]%Q < 10)%Q.
Proof.
  intros cfg b random.
  assert (Hlags : Forall (fun lag => (0 <= lag)%Q) [0; 0; 0; 0; 0; 0]%Q)
    by (repeat constructor; vm_compute; congruence).
  assert (Hrun : Backoff.slept random [0; 0; 0; 0; 0; 0]%Q 0 (Backoff.__iter__ 0 b)
                 = [Qmax 0 (Qmin (Qmin (1 * 2 ^ 0) 300) 300);
                    Qmax 0 (Qmin (Qmin (1 * 2 ^ 1) 300) 300);
                    Qmax 0 (Qmin (Qmin (1 * 2 ^ 2) 300) 300)]%Q
                   ++ [Qmax 0 (Qmin (Qmin (1 * 2 ^ 3) 300) 300)]%Q)
    by (vm_compute; reflexivity).
  split; [reflexivity|]. split; [exact Hlags|]. split; [exact Hrun|].
  exact (proj2 (backoff_bounded_by_attempts_and_deadline random b 0)
           10%Q _ _ _ eq_refl Hlags Hrun).
Defined.

(** C9 (as stated) fails.  Exponential schedule 1, 2, 4, 8 with a total
    timeout of 10 and a caller that sleeps every delay: the fourth delay is
    handed out at 7 s, before the deadline, and the delays sum to 15. *)
Lemma backoff_delays_exceed_total_timeout :
  let cfg := Backoff.mkConfig Backoff.EXPONENTIAL 1 300 5 2 300 1 2 1 false "full"
               (1 # 10) None (Some 10%Q) in
  let b := Backoff.mkBackoff cfg 0 0 0 in
  let ds := Backoff.slept (fun _ => (1 # 2)%Q) [0; 0; 0; 0; 0; 0]%Q 0
              (Backoff.__iter__ 0 b) in
  length ds = 4%nat
  /\ (Backoff.Qsum ds == 15)%Q
  /\ ~ (Backoff.Qsum ds <= 10)%Q.
Proof.
  cbv zeta. split; [vm_compute; reflexivity|].
  split; vm_compute; [reflexivity | intros H; apply H; reflexivity].
Qed.

(** ** Client quotas: reset and consumption *)

Section ClientQuotaFacts.

Import Quota ClientQuota.

(* What a second reset computes as rollover: the usage it sees is 0. *)
Lemma rollover_of_fresh_usage (limit : Z) :
  Z.min (Z.max 0 (limit - 0)) (limit / 2) = limit / 2.
Proof.
  destruct (Z_lt_le_dec limit 0) as [Hneg | Hpos].
  - assert (limit / 2 < 0) by (apply Z.div_lt_upper_bound; lia). lia.
  - assert (limit / 2 <= limit) by (apply Z.div_le_upper_bound; lia). lia.
Qed.

Lemma reset_usage_twice (l : QuotaLimit) (force : bool) (now1 now2 : datetime.t)
    (u : QuotaUsage) :
  reset_usage l force now2 (reset_usage l force now1 u)
  = mkUsage 0 0 now2 false false 0
      (if rollover_allowed l && negb force then limit l / 2 else 0)
      (usage_history u).
Proof.
  unfold reset_usage. simpl.
  destruct (rollover_allowed l && negb force); [|done].
  by rewrite rollover_of_fresh_usage.
Qed.

Lemma reset_quota_unlocked (cq : t) (qt : QuotaType) (force : bool)
    (now : datetime.t) (l : QuotaLimit) (u : QuotaUsage) :
  _lock cq = false -> quota_limits cq !! qt = Some l -> quota_usage cq !! qt = Some u ->
  reset_quota qt force now cq
  = (with_usage qt (reset_usage l force now u) cq, Returned tt).
Proof. intros Hlock Hl Hu. unfold reset_quota. by rewrite Hlock, Hl, Hu. Qed.

(* Right after a reset no period but a custom one with a reset time already
   reached asks for another reset. *)
Lemma no_reset_needed_right_after_reset (l : QuotaLimit) (force : bool)
    (now : datetime.t) (u : QuotaUsage) :
  match period l, reset_time l with
  | CUSTOM, Some rt => datetime.geb now rt = false
  | _, _ => True
  end ->
  reset_needed l (reset_usage l force now u) now = false.
Proof.
  unfold reset_needed, reset_usage. cbn [last_reset].
  assert (Hd : datetime.date_eqb (datetime.date now) (datetime.date now) = true).
  { unfold datetime.date_eqb, datetime.date. by rewrite !Z.eqb_refl. }
  rewrite Hd, !Z.eqb_refl.
  destruct (period l); try done; simpl.
  - by rewrite andb_false_r.
  - by destruct (reset_time l).
Qed.

(* Consumption on a quota that needs no reset at the clock reading of the
   call: anything up to the effective limit passes, one more is refused
   with the time of the next reset. *)
Lemma consume_without_reset (cq : t) (qt : QuotaType) (amount : Z)
    (now : datetime.t) (l : QuotaLimit) (u : QuotaUsage) :
  _lock cq = false -> quota_limits cq !! qt = Some l -> quota_usage cq !! qt = Some u ->
  reset_needed l u now = false ->
  (current_usage u + amount <= available_quota l u ->
   (consume_quota qt amount now cq).2 = Returned true) /\
  (available_quota l u < current_usage u + amount ->
   (consume_quota qt amount now cq).2
   = QuotaExceededError false qt (current_usage u) (available_quota l u)
       (Some (_get_next_reset_time l now))).
Proof.
  intros Hlock Hl Hu Hreset. unfold consume_quota, _check_reset_needed.
  rewrite Hlock, Hl. cbn [with_lock quota_limits quota_usage].
  rewrite Hl, Hu, Hreset. cbn [with_lock quota_limits quota_usage].
  rewrite Hl, Hu. split; intros H.
  - by rewrite (proj2 (Z.leb_le _ _) H).
  - by rewrite (proj2 (Z.leb_gt _ _) H).
Qed.

(* A consumption that finds a reset due never returns: [reset_quota] awaits
   the lock [consume_quota] holds. *)
Lemma consume_with_reset_due_blocks (cq : t) (qt : QuotaType) (amount : Z)
    (now : datetime.t) (l : QuotaLimit) (u : QuotaUsage) :
  _lock cq = false -> quota_limits cq !! qt = Some l -> quota_usage cq !! qt = Some u ->
  reset_needed l u now = true ->
  consume_quota qt amount now cq = (with_lock true cq, Blocked).
Proof.
  intros Hlock Hl Hu Hreset. unfold consume_quota, _check_reset_needed.
  rewrite Hlock, Hl. cbn [with_lock quota_limits quota_usage].
  rewrite Hl, Hu, Hreset. by unfold reset_quota.
Qed.

End ClientQuotaFacts.

(** C6 (as amended).  On an unlocked client quota, a second reset leaves the
    usage counters and the flags exactly as one reset does (usage, peak and
    burst use at 0, both flags cleared, usage history kept); the rollover
    balance it leaves is 0 when rollover is not allowed or the reset is
    forced, and [limit // 2] otherwise, whatever the first reset carried
    over.  So two resets equal one when rollover is off or the reset is
    forced. *)
Theorem reset_twice_equals_once_except_rollover
    (cq : ClientQuota.t) (qt : Quota.QuotaType) (force : bool)
    (now1 now2 : datetime.t) (l : Quota.QuotaLimit) (u : Quota.QuotaUsage) :
  ClientQuota._lock cq = false ->
  ClientQuota.quota_limits cq !! qt = Some l ->
  ClientQuota.quota_usage cq !! qt = Some u ->
  let once := (ClientQuota.reset_quota qt force now2 cq).1 in
  let twice :=
    (ClientQuota.reset_quota qt force now2
       (ClientQuota.reset_quota qt force now1 cq).1).1 in
  let carried :=
    if Quota.rollover_allowed l && negb force
    then Z.min (Z.max 0 (Quota.limit l - Quota.current_usage u)) (Quota.limit l / 2)
    else 0 in
  let carried_again :=
    if Quota.rollover_allowed l && negb force then Quota.limit l / 2 else 0 in
  ClientQuota.quota_usage once !! qt
  = Some (Quota.mkUsage 0 0 now2 false false 0 carried (Quota.usage_history u))
  /\ ClientQuota.quota_usage twice !! qt
     = Some (Quota.mkUsage 0 0 now2 false false 0 carried_again (Quota.usage_history u))
  /\ (Quota.rollover_allowed l && negb force = false -> twice = once).
Proof.
  intros Hlock Hl Hu once twice carried carried_again.
  subst once twice.
  rewrite !(reset_quota_unlocked cq qt force _ l u Hlock Hl Hu).
  cbn [fst].
  rewrite (reset_quota_unlocked _ qt force now2 l (ClientQuota.reset_usage l force now1 u));
    [|done|done|apply lookup_insert_eq].
  unfold ClientQuota.with_usage.
  cbn [fst ClientQuota.quota_usage ClientQuota.quota_limits ClientQuota.client_id
       ClientQuota._lock].
  rewrite reset_usage_twice, insert_insert_eq.
  split; [by rewrite lookup_insert_eq|]. split; [by rewrite lookup_insert_eq|].
  intros Hoff. unfold ClientQuota.reset_usage. by rewrite Hoff.
Qed.

Lemma reset_twice_equals_once_except_rollover_witness :
  let now := datetime.mkDatetime 2026 1 5 10 30 0 0 in
  let l := Quota.QuotaLimit_init Quota.REQUESTS_PER_HOUR 1000 Quota.HOURLY
             (Some 800) None false 100 in
  let cq := (ClientQuota.consume_quota Quota.REQUESTS_PER_HOUR 900 now
               (ClientQuota.__init__ "client" {[Quota.REQUESTS_PER_HOUR := l]} now)).1 in
  ClientQuota._lock cq = false /\
  ClientQuota.quota_limits cq !! Quota.REQUESTS_PER_HOUR = Some l /\
  ClientQuota.quota_usage cq !! Quota.REQUESTS_PER_HOUR
  = Some (Quota.mkUsage 900 900 now true false 0 0 [(now, 900)]) /\
  (ClientQuota.reset_quota Quota.REQUESTS_PER_HOUR false now
     (ClientQuota.reset_quota Quota.REQUESTS_PER_HOUR false now cq).1).1
  = (ClientQuota.reset_quota Quota.REQUESTS_PER_HOUR false now cq).1.
Proof.
  intros now l cq.
  assert (H1 : ClientQuota._lock cq = false) by reflexivity.
  assert (H2 : ClientQuota.quota_limits cq !! Quota.REQUESTS_PER_HOUR = Some l)
    by reflexivity.
  assert (H3 : ClientQuota.quota_usage cq !! Quota.REQUESTS_PER_HOUR
               = Some (Quota.mkUsage 900 900 now true false 0 0 [(now, 900)]))
    by (vm_compute; reflexivity).
  split; [exact H1|]. split; [exact H2|]. split; [exact H3|].
  exact (proj2 (proj2 (reset_twice_equals_once_except_rollover
                         cq Quota.REQUESTS_PER_HOUR false now now l _ H1 H2 H3))
           eq_refl).
Defined.

(** C6 (as stated) fails.  Daily quota of 100 with rollover, fully used:
    one reset carries nothing over, a second reset in the same period sees
    a usage of 0 and carries 50 over. *)
Lemma reset_twice_raises_rollover :
  let now := datetime.mkDatetime 2026 1 5 10 30 0 0 in
  let qt := Quota.REQUESTS_PER_DAY in
  let l := Quota.QuotaLimit_init qt 100 Quota.DAILY None None true 0 in
  let cq := (ClientQuota.consume_quota qt 100 now
               (ClientQuota.__init__ "client" {[qt := l]} now)).1 in
  let once := (ClientQuota.reset_quota qt false now cq).1 in
  let twice := (ClientQuota.reset_quota qt false now once).1 in
  (Quota.rollover_balance <$> ClientQuota.quota_usage once !! qt) = Some 0
  /\ (Quota.rollover_balance <$> ClientQuota.quota_usage twice !! qt) = Some 50
  /\ twice <> once.
Proof.
  cbv zeta. split; [vm_compute; reflexivity|]. split; [vm_compute; reflexivity|].
  intros H.
  apply (f_equal (fun c => Quota.rollover_balance
                             <$> ClientQuota.quota_usage c !! Quota.REQUESTS_PER_DAY)) in H.
  vm_compute in H. discriminate.
Qed.

(** C5, evaluated where it fails.  A client quota with a custom period
    whose reset time has been reached: the reset leaves usage 0 and the
    warning flag cleared, the effective limit is 110, and the consumption of
    1 that follows never returns.  [consume_quota] holds the client's lock
    when [_check_reset_needed] finds the reset due and awaits [reset_quota],
    which awaits the same lock; the lock stays held, so every later call on
    this client blocks as well.  The default hourly quota does the same at
    the first consumption after the hour has changed. *)
Theorem consume_after_reset_blocks_when_reset_is_due :
  let reached := datetime.mkDatetime 2026 1 1 0 0 0 0 in
  let now := datetime.mkDatetime 2026 1 5 10 30 0 0 in
  let qt := Quota.COMPUTE_SECONDS in
  let l := Quota.QuotaLimit_init qt 100 Quota.CUSTOM None (Some reached) false 10 in
  let cq0 := ClientQuota.__init__ "client" {[qt := l]} now in
  let cq1 := (ClientQuota.reset_quota qt true now cq0).1 in
  let later := datetime.mkDatetime 2026 1 5 11 0 0 0 in
  let hourly := ClientQuota.__init__ "client"
                  (QuotaManager._get_default_quotas QuotaManager.config_defaults) now in
  (ClientQuota.reset_quota qt true now cq0).2 = Quota.Returned tt
  /\ ClientQuota.quota_usage cq1 !! qt
     = Some (Quota.mkUsage 0 0 now false false 0 0 [])
  /\ ClientQuota.available_quota l (Quota.mkUsage 0 0 now false false 0 0 []) = 110
  /\ ClientQuota.consume_quota qt 1 now cq1 = (ClientQuota.with_lock true cq1, Quota.Blocked)
  /\ (ClientQuota.reset_quota qt true now (ClientQuota.consume_quota qt 1 now cq1).1).2
     = Quota.Blocked
  /\ (ClientQuota.consume_quota Quota.REQUESTS_PER_HOUR 1 now hourly).2
     = Quota.Returned true
  /\ (ClientQuota.consume_quota Quota.REQUESTS_PER_HOUR 1 later hourly).2
     = Quota.Blocked.
Proof.
  cbv zeta. repeat split; vm_compute; reflexivity.
Qed.

(** ** Quota manager: the global layer *)

Section ManagerFacts.

Import Quota QuotaManager.

Definition nonneg_amount (o : op) : Prop :=
  match o with
  | ConsumeQuota _ _ amount => 0 <= amount
  | _ => True
  end.

Definition consumes (o : op) : bool :=
  match o with
  | ConsumeQuota _ _ _ => true
  | _ => false
  end.

(* The per-client part of an operation: load or create the client's quota,
   run the client's coroutine, store the quota back. *)
Lemma client_layer_keeps_globals {A} (client : string) (now : datetime.t) (m : t)
    (f : ClientQuota.t -> ClientQuota.t * outcome A) :
  let r := (let '(m2, cq) := get_client_quota client now m in
            let '(cq', r) := f cq in (put_client client cq' m2, r)) in
  global_quotas r.1 = global_quotas m /\ global_usage r.1 = global_usage m.
Proof.
  unfold get_client_quota.
  destruct (client_quotas m !! client) as [cq|]; simpl.
  - by destruct (f cq).
  - by destruct (f _).
Qed.

(* What [consume_quota] does to the global layer. *)
Lemma consume_global (client : string) (qt : QuotaType) (amount : Z)
    (now : datetime.t) (m : t) :
  global_quotas (consume_quota client qt amount now m).1 = global_quotas m /\
  match global_quotas m !! qt, global_usage m !! qt with
  | Some gl, Some u =>
      if limit gl <? current_usage u + amount
      then consume_quota client qt amount now m
           = (m, QuotaExceededError true qt (current_usage u) (limit gl) None)
      else global_usage (consume_quota client qt amount now m).1
           = <[qt := add_usage amount u]> (global_usage m)
  | _, _ => global_usage (consume_quota client qt amount now m).1 = global_usage m
  end.
Proof.
  unfold consume_quota.
  destruct (global_quotas m !! qt) as [gl|] eqn:Hgl.
  - destruct (global_usage m !! qt) as [u|] eqn:Hu; [|done].
    destruct (limit gl <? current_usage u + amount); [done|].
    match goal with
    | |- context [get_client_quota client now ?m1] =>
        pose proof (client_layer_keeps_globals client now m1
                      (ClientQuota.consume_quota qt amount now)) as [H1 H2]
    end.
    by rewrite H1, H2.
  - pose proof (client_layer_keeps_globals client now m
                  (ClientQuota.consume_quota qt amount now)) as [H1 H2].
    by rewrite H1, H2.
Qed.

Lemma other_ops_keep_globals (now : datetime.t) (m : t) (o : op) :
  consumes o = false ->
  global_quotas (step now m o) = global_quotas m /\
  global_usage (step now m o) = global_usage m.
Proof.
  destruct o as [c qt a | c qt a | c qs | c qt]; [discriminate| | |]; intros _; simpl.
  - unfold check_quota_available.
    pose proof (client_layer_keeps_globals c now m
                  (ClientQuota.check_quota_available qt a now)) as [H1 H2].
    destruct (global_quotas m !! qt) as [gl|]; [|done].
    destruct (global_usage m !! qt) as [u|]; [|done].
    by destruct (limit gl - current_usage u <? a).
  - done.
  - unfold reset_client_quotas.
    destruct (client_quotas m !! c) as [cq|]; [|done].
    by destruct (match qt with
                 | Some q => ClientQuota.reset_quota q true now cq
                 | None => reset_each _ now cq
                 end).
Qed.

Lemma step_global (now : datetime.t) (m : t) (o : op) (qt : QuotaType) :
  nonneg_amount o ->
  global_quotas (step now m o) = global_quotas m /\
  (is_Some (global_usage m !! qt) -> is_Some (global_usage (step now m o) !! qt)) /\
  global_current_usage qt m <= global_current_usage qt (step now m o).
Proof.
  intros Hnn. destruct (consumes o) eqn:Hc.
  - destruct o as [c q a | | |]; try discriminate. simpl in Hnn |- *.
    destruct (consume_global c q a now m) as [Hq Hu]. split; [done|].
    unfold global_current_usage.
    destruct (global_quotas m !! q) as [gl|]; [|by rewrite Hu].
    destruct (global_usage m !! q) as [u|] eqn:Hlook; [|by rewrite Hu].
    destruct (limit gl <? current_usage u + a); [by rewrite Hu|].
    rewrite Hu. destruct (decide (q = qt)) as [->|Hne].
    + rewrite lookup_insert_eq, Hlook. simpl. split; [by eexists | lia].
    + by rewrite lookup_insert_ne.
  - destruct (other_ops_keep_globals now m o Hc) as [Hq Hu].
    unfold global_current_usage. by rewrite Hu.
Qed.

Lemma run_global (ops : list (datetime.t * op)) (qt : QuotaType) :
  forall m : t,
    Forall (fun e => nonneg_amount e.2) ops ->
    global_quotas (run ops m) = global_quotas m /\
    (is_Some (global_usage m !! qt) -> is_Some (global_usage (run ops m) !! qt)) /\
    global_current_usage qt m <= global_current_usage qt (run ops m).
Proof.
  induction ops as [|[now o] ops IH]; intros m Hall; [by repeat split|].
  inversion Hall as [|? ? Ho Hrest]; subst. simpl in Ho.
  destruct (step_global now m o qt Ho) as (H1 & H2 & H3).
  destruct (IH (step now m o) Hrest) as (I1 & I2 & I3).
  change (run ((now, o) :: ops) m) with (run ops (step now m o)).
  split; [congruence|]. split; [auto | lia].
Qed.

End ManagerFacts.

(** C10 (as amended).  No operation of the manager but [consume_quota]
    writes the global usage, and there is no reset of it.  While the amounts
    consumed are not negative the global usage of a quota type never
    decreases; and once a consumption of [amount] would exceed the global
    limit, every later consumption of at least that amount for that quota
    type raises the global [QuotaExceededError], whatever was done in
    between. *)
Theorem global_usage_never_decreases_and_stays_exhausted
    (m : QuotaManager.t) (ops : list (datetime.t * QuotaManager.op))
    (qt : Quota.QuotaType) :
  Forall (fun e => nonneg_amount e.2) ops ->
  (forall (now : datetime.t) (o : QuotaManager.op),
     consumes o = false ->
     QuotaManager.global_usage (QuotaManager.step now m o)
     = QuotaManager.global_usage m)
  /\ QuotaManager.global_current_usage qt m
     <= QuotaManager.global_current_usage qt (QuotaManager.run ops m)
  /\ (forall (gl : Quota.QuotaLimit) (amount later_amount : Z) (client : string)
             (now : datetime.t),
        QuotaManager.global_quotas m !! qt = Some gl ->
        is_Some (QuotaManager.global_usage m !! qt) ->
        Quota.limit gl < QuotaManager.global_current_usage qt m + amount ->
        amount <= later_amount ->
        QuotaManager.consume_quota client qt later_amount now (QuotaManager.run ops m)
        = (QuotaManager.run ops m,
           Quota.QuotaExceededError true qt
             (QuotaManager.global_current_usage qt (QuotaManager.run ops m))
             (Quota.limit gl) None)).
Proof.
  intros Hall. destruct (run_global ops qt m Hall) as (Hq & Hsome & Hmono).
  split; [|split; [done|]].
  - intros now o Ho. by apply other_ops_keep_globals.
  - intros gl amount later_amount client now Hgl Hu Hover Hle.
    destruct (consume_global client qt later_amount now (QuotaManager.run ops m))
      as [_ Hspec].
    rewrite Hq, Hgl in Hspec.
    destruct (Hsome Hu) as [u' Hu']. rewrite Hu' in Hspec.
    unfold QuotaManager.global_current_usage in *. rewrite Hu' in *.
    destruct (Quota.limit gl <? Quota.current_usage u' + later_amount) eqn:E.
    + exact Hspec.
    + apply Z.ltb_ge in E. destruct Hu as [u Hu]. rewrite Hu in *. lia.
Qed.

Lemma global_usage_never_decreases_and_stays_exhausted_witness :
  let now := datetime.mkDatetime 2026 1 5 10 30 0 0 in
  let cfg := QuotaManager.mkQuotaConfig 1000 10000 500 1000 10 10 50000 1000 in
  let qt := Quota.REQUESTS_PER_HOUR in
  let m := (QuotaManager.consume_quota "a" qt 8 now (QuotaManager.__init__ cfg now)).1 in
  let ops := [(now, QuotaManager.ConsumeQuota "b" qt 1);
              (now, QuotaManager.ResetClientQuotas "a" None);
              (now, QuotaManager.ConsumeQuota "a" qt 4)] in
  Forall (fun e => nonneg_amount e.2) ops /\
  QuotaManager.global_current_usage qt m
  <= QuotaManager.global_current_usage qt (QuotaManager.run ops m).
Proof.
  intros now cfg qt m ops.
  assert (H : Forall (fun e => nonneg_amount e.2) ops)
    by (repeat constructor; simpl; lia).
  split; [exact H|].
  exact (proj1 (proj2 (global_usage_never_decreases_and_stays_exhausted m ops qt H))).
Defined.

(** C10 (as stated) fails.  Global limit 10, usage 8: a consumption of 5 is
    refused by the global layer, the consumption of 1 that follows is
    let through and brings the usage to 9; and a consumption of -3 lowers
    the usage from 8 to 5. *)
Lemma global_quota_passes_smaller_amount_after_refusal :
  let now := datetime.mkDatetime 2026 1 5 10 30 0 0 in
  let cfg := QuotaManager.mkQuotaConfig 1000 10000 500 1000 10 10 50000 1000 in
  let qt := Quota.REQUESTS_PER_HOUR in
  let m := (QuotaManager.consume_quota "a" qt 8 now (QuotaManager.__init__ cfg now)).1 in
  let refused := QuotaManager.consume_quota "a" qt 5 now m in
  let after := QuotaManager.consume_quota "a" qt 1 now refused.1 in
  QuotaManager.global_current_usage qt m = 8
  /\ refused.2 = Quota.QuotaExceededError true qt 8 10 None
  /\ after.2 = Quota.Returned true
  /\ QuotaManager.global_current_usage qt after.1 = 9
  /\ QuotaManager.global_current_usage qt
       (QuotaManager.consume_quota "a" qt (-3) now m).1 = 5.
Proof. cbv zeta. repeat split; vm_compute; reflexivity. Qed.

(** ** SQL validator: the read-only gate *)

Section ValidatorFacts.

Import SQLValidator.

Variable re_search : string -> string -> bool.
Variable tokenize : string -> option (list Token).
Variable parse : string -> option (list Expression).

Lemma blocked_medium_or_more (c : Config) (r : SQLInjectionRisk) :
  strict_validation c = true -> blocked c (risk_max r MEDIUM) = true.
Proof. intros H. unfold blocked. rewrite H. by destruct r. Qed.

Lemma forbidden_token_is_reported (query : string) :
  first_verb_is_write tokenize query ->
  is_nil (analyze_tokens tokenize query true).1 = false.
Proof.
  intros (toks & pre & tok & post & Htok & -> & _ & Hin).
  unfold analyze_tokens. rewrite Htok.
  destruct (pre ++ tok :: post) as [|t0 rest] eqn:E; [by destruct pre|].
  rewrite <- E. cbn [fst].
  rewrite List.filter_app. cbn [List.filter].
  unfold type_in at 2. rewrite (bool_decide_eq_true_2 _ Hin).
  rewrite map_app. cbn [map].
  by destruct (map _ (List.filter _ pre)).
Qed.

(* In strict mode the gate holds: a query whose first verb is a write verb
   is invalid in read-only mode. *)
Lemma readonly_strict_rejects_write_verb (c : Config) (query : string) :
  readonly_mode c = true -> strict_validation c = true ->
  first_verb_is_write tokenize query ->
  is_valid (validate_query re_search tokenize parse c query) = false.
Proof.
  intros Hro Hstrict Hw.
  pose proof (forbidden_token_is_reported query Hw) as Htv.
  unfold validate_query. rewrite Hro.
  destruct (if blank query then _ else _) as [v1 r1].
  destruct (if max_query_length c <? _ then _ else _) as [v2 r2].
  destruct (if is_nil v2 then _ else _) as [v3 r3].
  destruct (analyze_tokens tokenize query true) as [tv qt]. cbn [fst] in Htv.
  rewrite Htv.
  destruct (is_nil v3 || negb (blocked c r3)) eqn:Hrun.
  - assert (Hv4 : is_nil (v3 ++ tv) = false) by (destruct v3, tv; done).
    rewrite Hv4, (blocked_medium_or_more c r3 Hstrict). simpl.
    by rewrite (blocked_medium_or_more c r3 Hstrict).
  - apply orb_false_iff in Hrun as [Hv3 Hb]. apply negb_false_iff in Hb.
    rewrite Hv3, Hb. simpl. by rewrite Hb.
Qed.

(* Without strict mode nothing the token analyzer or the structure
   validator reports blocks a query: unless the query is blank or the
   patterns rate it high or critical, it is valid. *)
Lemma lenient_mode_accepts_up_to_medium (c : Config) (query : string) :
  strict_validation c = false ->
  blank query = false ->
  (risk_index (analyze_query re_search query).1 <= 2)%nat ->
  is_valid (validate_query re_search tokenize parse c query) = true.
Proof.
  intros Hstrict Hblank Hrisk. unfold validate_query. rewrite Hblank.
  assert (Hb : forall r, blocked c r = (3 <=? risk_index r)%nat)
    by (intros r; unfold blocked; rewrite Hstrict; by destruct r).
  destruct (analyze_query re_search query) as [pr pv]. simpl in Hrisk.
  destruct (analyze_tokens tokenize query (readonly_mode c)) as [tv qt].
  destruct (validate_structure parse query) as [|sv svs].
  all: destruct (max_query_length c <? Z.of_nat (String.length query)); simpl.
  all: rewrite ?Hb.
  all: destruct pr; simpl in Hrisk; try lia; simpl.
  all: destruct pv, tv; simpl; repeat (rewrite Hb; simpl); done.
Qed.

End ValidatorFacts.

(** C7.  Every validator the constructor builds runs in read-only mode
    with strict validation on, whatever the security section of the
    configuration holds: none of the three settings it reads is a field of
    that section, so each takes its default.  Such a validator rejects every
    query whose first statement verb is a write verb, for every regular
    expression engine, tokenizer and parser. *)
Theorem readonly_gate_rejects_write_verbs_as_built
    (re_search : string -> string -> bool)
    (tokenize : string -> option (list SQLValidator.Token))
    (parse : string -> option (list SQLValidator.Expression))
    (security : SQLValidator.SecurityConfig) (query : string) :
  SQLValidator.first_verb_is_write tokenize query ->
  SQLValidator.__init__ security = SQLValidator.mkConfig 10000 true true
  /\ SQLValidator.is_valid
       (SQLValidator.validate_query re_search tokenize parse
          (SQLValidator.__init__ security) query) = false.
Proof.
  intros Hw. split; [reflexivity|].
  by apply readonly_strict_rejects_write_verb.
Qed.

Lemma readonly_gate_rejects_write_verbs_as_built_witness :
  let toks := [SQLValidator.mkToken SQLValidator.DELETE "DELETE";
               SQLValidator.mkToken (SQLValidator.OTHER "FROM") "FROM";
               SQLValidator.mkToken (SQLValidator.OTHER "VAR") "t"] in
  let tokenize := fun _ : string => Some toks in
  let parse := fun _ : string => Some [SQLValidator.Node "Delete" (Some "t"%string) []] in
  let security := SQLValidator.mkSecurityConfig false [] true false 60 in
  SQLValidator.first_verb_is_write tokenize "DELETE FROM t"
  /\ SQLValidator.validate_query (fun _ _ => false) tokenize parse
       (SQLValidator.__init__ security) "DELETE FROM t"
     = SQLValidator.mkResult false SQLValidator.MEDIUM SQLValidator.QT_DELETE
         ["Forbidden operation in readonly mode: DELETE"%string].
Proof.
  intros toks tokenize parse security.
  assert (H : SQLValidator.first_verb_is_write tokenize "DELETE FROM t").
  { eexists _, [], _, _. split; [reflexivity|]. split; [reflexivity|].
    split; [constructor|]. vm_compute. set_solver. }
  refine (conj H _).
  pose proof (proj2 (readonly_gate_rejects_write_verbs_as_built (fun _ _ => false)
                       tokenize parse security "DELETE FROM t" H)) as Hinvalid.
  destruct (SQLValidator.validate_query (fun _ _ => false) tokenize parse
              (SQLValidator.__init__ security) "DELETE FROM t")
    as [valid risk qt vs] eqn:E.
  simpl in Hinvalid. subst valid.
  vm_compute in E. injection E as <- <- <-. reflexivity.
Defined.

(** * Further properties *)

(** ** Transaction scope and the session's auto-commit flag *)

Section TransactionScopeFacts.

Import Session TransactionalDatabaseOperations TransactionalRuns.


Lemma scope_without_begin {St : Type} (d : driver)
    (body : TransactionManager.t -> Session.t -> St -> Session.t * St * result unit)
    (s : Session.t) (st : St) :
  begin_ok d = false ->
  transaction_scope d false body s st = (set_autocommit false s, st, Raised).
Proof.
  intros Hbegin. unfold transaction_scope, begin_transaction. simpl.
  by rewrite Hbegin.
Qed.

Lemma run_queries_counts (d : driver) (oks : list bool) :
  forall ctx : RequestContext.t,
    let m := RequestContext.metrics ctx in
    let m' := RequestContext.metrics (run_queries d oks ctx).1 in
    RequestContext.transaction_operations m' = RequestContext.transaction_operations m /\
    RequestContext.transaction_commits m' = RequestContext.transaction_commits m /\
    RequestContext.transaction_rollbacks m' = RequestContext.transaction_rollbacks m.
Proof.
  induction oks as [|ok oks IH]; intros ctx; simpl; [done|].
  unfold execute_query_isolated. simpl. destruct ok; simpl; [|done].
  specialize (IH (RequestContext.increment_query_count ctx)). simpl in IH. exact IH.
Qed.

End TransactionScopeFacts.

(* The queries the loop of a multi-statement transaction gets to: all of
   them, or those up to the first one the driver rejects. *)
Fixpoint attempted (oks : list bool) : Z :=
  match oks with
  | [] => 0
  | ok :: oks' => 1 + (if ok then attempted oks' else 0)
  end.



(** X2.  When the driver rejects [BEGIN], [execute_with_transaction] with
    [auto_commit] off raises without running the query, counts one
    operation and one rollback, and hands the session back with auto-commit
    switched off, whatever it was: [begin_transaction] had saved the flag
    and cleared it before [BEGIN], and nothing restores it. *)
Theorem rejected_begin_leaves_autocommit_off
    (d : TransactionManager.driver) (w : TransactionalDatabaseOperations.t) :
  TransactionManager.begin_ok d = false ->
  let r := TransactionalDatabaseOperations.execute_with_transaction d false w in
  let m := RequestContext.metrics (TransactionalDatabaseOperations.request_context w) in
  let m' := RequestContext.metrics (TransactionalDatabaseOperations.request_context r.1) in
  r.2 = Session.Raised
  /\ Session.autocommit (TransactionalDatabaseOperations.connection r.1) = false
  /\ RequestContext.queries_executed m' = RequestContext.queries_executed m
  /\ RequestContext.transaction_operations m'
     = RequestContext.transaction_operations m + 1
  /\ RequestContext.transaction_commits m' = RequestContext.transaction_commits m
  /\ RequestContext.transaction_rollbacks m'
     = RequestContext.transaction_rollbacks m + 1.
Proof.
  intros Hbegin. cbv zeta.
  unfold TransactionalDatabaseOperations.execute_with_transaction.
  rewrite scope_without_begin by done. by simpl.
Qed.

Lemma rejected_begin_leaves_autocommit_off_witness :
  let d := TransactionManager.mkDriver true false true true in
  let w := TransactionalDatabaseOperations.__aenter__
             (TransactionalDatabaseOperations.__init__
                (Session.mkSession (Some "DB0"%string) None true) RequestContext.new) in
  TransactionManager.begin_ok d = false /\
  Session.autocommit
    (TransactionalDatabaseOperations.connection
       (TransactionalDatabaseOperations.execute_with_transaction d false w).1) = false.
Proof.
  intros d w. split; [reflexivity|].
  exact (proj1 (proj2 (rejected_begin_leaves_autocommit_off d w eq_refl))).
Defined.

(** X3.  [execute_multi_statement_transaction] with [BEGIN] accepted counts
    one executed query for every statement up to and including the first
    one the driver rejects, raises exactly when one was rejected or the
    final [COMMIT] was, and never touches the operation, commit and rollback
    counters of the request. *)
Theorem multi_statement_transaction_counts_queries_only
    (d : TransactionManager.driver) (oks : list bool)
    (w : TransactionalDatabaseOperations.t) :
  TransactionManager.begin_ok d = true ->
  let r := TransactionalRuns.execute_multi_statement_transaction d oks w in
  let m := RequestContext.metrics (TransactionalDatabaseOperations.request_context w) in
  let m' := RequestContext.metrics (TransactionalDatabaseOperations.request_context r.1) in
  RequestContext.queries_executed m' = RequestContext.queries_executed m + attempted oks
  /\ RequestContext.transaction_operations m' = RequestContext.transaction_operations m
  /\ RequestContext.transaction_commits m' = RequestContext.transaction_commits m
  /\ RequestContext.transaction_rollbacks m' = RequestContext.transaction_rollbacks m
  /\ (r.2 = Session.Ok tt <->
      forallb id oks = true /\ TransactionManager.commit_ok d = true).
Proof.
  intros Hbegin. cbv zeta.
  unfold TransactionalRuns.execute_multi_statement_transaction,
    TransactionManager.transaction_scope, TransactionManager.begin_transaction.
  simpl. rewrite Hbegin.
  pose proof (run_queries_counts d oks
                (TransactionalDatabaseOperations.request_context w)) as Hc.
  assert (Hq : forall ctx,
             RequestContext.queries_executed
               (RequestContext.metrics (TransactionalRuns.run_queries d oks ctx).1)
             = RequestContext.queries_executed (RequestContext.metrics ctx)
               + attempted oks /\
             ((TransactionalRuns.run_queries d oks ctx).2 = Session.Ok tt
              <-> forallb id oks = true)).
  { clear. induction oks as [|ok oks IH]; intros ctx; simpl.
    - split; [lia | done].
    - unfold TransactionalDatabaseOperations.execute_query_isolated. simpl.
      destruct ok; simpl.
      + destruct (IH (RequestContext.increment_query_count ctx)) as [H1 H2].
        simpl in H1. split; [lia | done].
      + split; [lia | done]. }
  destruct (Hq (TransactionalDatabaseOperations.request_context w)) as [Hq1 Hq2].
  destruct (TransactionalRuns.run_queries d oks
              (TransactionalDatabaseOperations.request_context w)) as [ctx1 r1].
  simpl in *. destruct Hc as (Hc1 & Hc2 & Hc3).
  destruct r1 as [[]|]; simpl.
  - unfold TransactionManager.commit_transaction. simpl.
    destruct (TransactionManager.commit_ok d); simpl;
      repeat split; try done; try tauto; intros [_ ?]; done.
  - repeat split; try done. intros [H _]. apply Hq2 in H. done.
Qed.

Lemma multi_statement_transaction_counts_queries_only_witness :
  let d := TransactionManager.mkDriver true true true true in
  let w := TransactionalDatabaseOperations.__aenter__
             (TransactionalDatabaseOperations.__init__
                (Session.mkSession (Some "DB0"%string) None true) RequestContext.new) in
  let r := TransactionalRuns.execute_multi_statement_transaction d
             [true; false; true] w in
  TransactionManager.begin_ok d = true /\
  RequestContext.queries_executed
    (RequestContext.metrics (TransactionalDatabaseOperations.request_context r.1))
  = RequestContext.queries_executed
      (RequestContext.metrics (TransactionalDatabaseOperations.request_context w))
    + attempted [true; false; true].
Proof.
  intros d w r. split; [reflexivity|].
  exact (proj1 (multi_statement_transaction_counts_queries_only
                  d [true; false; true] w eq_refl)).
Defined.

(* The operations counted and not yet answered by a commit or a rollback
   cover the transaction the wrapper's manager has open, if any. *)
Definition balanced (w : TransactionalDatabaseOperations.t) : Prop :=
  let m := RequestContext.metrics (TransactionalDatabaseOperations.request_context w) in
  RequestContext.transaction_commits m + RequestContext.transaction_rollbacks m
  + (match TransactionalDatabaseOperations.transaction_manager w with
     | Some tm => if TransactionManager.in_transaction tm then 1 else 0
     | None => 0
     end)
  <= RequestContext.transaction_operations m.

Lemma balanced_step (c : TransactionalDatabaseOperations.call)
    (w : TransactionalDatabaseOperations.t) :
  TransactionalRuns.disciplined [c] w = true ->
  balanced w -> balanced (TransactionalDatabaseOperations.step w c).
Proof.
  unfold balanced. destruct w as [s ctx tm]. destruct ctx as [db sc m].
  destruct m as [q e ops cm rb].
  destruct c as [ac d|d|d|d]; destruct d as [qok bok cok rok]; simpl;
    rewrite ?andb_true_r.
  - unfold TransactionalDatabaseOperations.execute_with_transaction,
      TransactionManager.transaction_scope,
      TransactionManager.begin_transaction,
      TransactionManager.commit_transaction,
      TransactionManager.rollback_transaction,
      TransactionalDatabaseOperations.execute_query_isolated.
    destruct ac, qok, bok, cok; simpl; try discriminate; intros _ H;
      destruct tm as [[[] ?]|]; simpl in *; lia.
  - intros _. unfold TransactionalDatabaseOperations.begin_explicit_transaction,
      TransactionManager.begin_transaction.
    destruct tm as [[[] ?]|]; simpl; destruct bok; simpl; lia.
  - unfold TransactionalDatabaseOperations.commit_transaction,
      TransactionManager.commit_transaction.
    destruct tm as [[[] ?]|]; simpl; try discriminate; destruct cok; simpl; lia.
  - unfold TransactionalDatabaseOperations.rollback_transaction,
      TransactionManager.rollback_transaction.
    destruct tm as [[[] ?]|]; simpl; try discriminate; destruct rok; simpl; lia.
Qed.

(** X4.  A handler that calls the explicit [commit_transaction] and
    [rollback_transaction] only while the manager is in a transaction, and
    whose [COMMIT] closing an [execute_with_transaction] is not rejected,
    keeps commits plus rollbacks at or below the operations counted, over
    any sequence of calls and whichever other statements the driver
    rejects. *)
Theorem disciplined_calls_keep_counters_consistent
    (calls : list TransactionalDatabaseOperations.call)
    (w : TransactionalDatabaseOperations.t) :
  TransactionalRuns.disciplined calls w = true ->
  balanced w ->
  balanced (TransactionalDatabaseOperations.run calls w)
  /\ TransactionalDatabaseOperations.counters_consistent
       (TransactionalDatabaseOperations.request_context
          (TransactionalDatabaseOperations.run calls w)).
Proof.
  intros Hd Hb.
  assert (H : balanced (TransactionalDatabaseOperations.run calls w)).
  { revert w Hd Hb. induction calls as [|c calls IH]; intros w Hd Hb; [exact Hb|].
    simpl in Hd. apply andb_prop in Hd as [Hc Hrest].
    change (TransactionalDatabaseOperations.run (c :: calls) w)
      with (TransactionalDatabaseOperations.run calls
              (TransactionalDatabaseOperations.step w c)).
    apply IH; [exact Hrest|]. apply balanced_step; [|exact Hb].
    simpl. by rewrite Hc. }
  split; [exact H|].
  unfold balanced in H. unfold TransactionalDatabaseOperations.counters_consistent.
  cbv zeta in *.
  destruct (TransactionalDatabaseOperations.transaction_manager _) as [tm|];
    [destruct (TransactionManager.in_transaction tm)|]; lia.
Qed.

Lemma disciplined_calls_keep_counters_consistent_witness :
  let d := TransactionManager.mkDriver false true true false in
  let w := TransactionalDatabaseOperations.__aenter__
             (TransactionalDatabaseOperations.__init__
                (Session.mkSession (Some "DB0"%string) None true) RequestContext.new) in
  let calls := [TransactionalDatabaseOperations.BeginExplicitTransaction d;
                TransactionalDatabaseOperations.ExecuteWithTransaction false d;
                TransactionalDatabaseOperations.RollbackTransaction d;
                TransactionalDatabaseOperations.ExecuteWithTransaction true d] in
  TransactionalRuns.disciplined calls w = true /\ balanced w /\
  TransactionalDatabaseOperations.counters_consistent
    (TransactionalDatabaseOperations.request_context
       (TransactionalDatabaseOperations.run calls w)).
Proof.
  intros d w calls.
  assert (Hd : TransactionalRuns.disciplined calls w = true) by reflexivity.
  assert (Hb : balanced w) by (unfold balanced; simpl; lia).
  refine (conj Hd (conj Hb _)).
  exact (proj2 (disciplined_calls_keep_counters_consistent calls w Hd Hb)).
Defined.

(** ** Connection pool: maintenance and the borrow round trip *)

Section PoolMaintenanceFacts.

Import AsyncConnectionPool PoolMaintenance.

Lemma refill_appends (opened : nat -> option nat) (now : Q) (missing : nat) :
  forall (k : nat) (p : t),
  exists news : list PooledConnection,
    _connections (refill opened now missing k p) = _connections p ++ news
    /\ Forall (fun c => in_use c = false /\ is_healthy c = true) news
    /\ (length news <= missing)%nat
    /\ ((forall j, opened j <> None) -> length news = missing).
Proof.
  induction missing as [|n IH]; intros k p; simpl.
  - exists []. rewrite app_nil_r.
    refine (conj eq_refl (conj _ (conj _ _))); [exact (List.Forall_nil _) | simpl; lia | done].
  - destruct (opened k) as [c|] eqn:Ho; simpl.
    + destruct (IH (S k) (mkPool (pool_config p)
                            (_connections p ++ [mkConn c false true now]) (_closed p)))
        as (news & Hn & Hall & Hlen & Hfull).
      exists (mkConn c false true now :: news). simpl in Hn.
      rewrite Hn, <- app_assoc. simpl.
      refine (conj eq_refl (conj _ (conj _ _))).
      * constructor; [done | exact Hall].
      * lia.
      * intros H. by rewrite Hfull.
    + exists []. rewrite app_nil_r.
      refine (conj eq_refl (conj _ (conj _ _))); [exact (List.Forall_nil _) | simpl; lia |].
      intros H. by destruct (H k).
Qed.

Lemma kept_in_use (now max_inactive_time : Q) (healthy : nat -> bool)
    (l : list PooledConnection) :
  List.filter in_use
    (map (checked healthy)
       (List.filter (fun c => negb (to_remove now max_inactive_time healthy c)) l))
  = List.filter in_use l.
Proof.
  induction l as [|c l IH]; [done|].
  cbn [List.filter].
  destruct (to_remove now max_inactive_time healthy c) eqn:Hr; cbn [negb map List.filter].
  - unfold to_remove, should_retire in Hr.
    destruct (in_use c); [discriminate | exact IH].
  - rewrite IH. unfold checked. by destruct (in_use c) eqn:Hu; simpl; rewrite ?Hu.
Qed.

Lemma kept_idle_healthy (now max_inactive_time : Q) (healthy : nat -> bool)
    (l : list PooledConnection) :
  Forall (fun c => in_use c = false -> is_healthy c = true)
    (map (checked healthy)
       (List.filter (fun c => negb (to_remove now max_inactive_time healthy c)) l)).
Proof.
  induction l as [|c l IH]; simpl; [constructor|].
  destruct (to_remove now max_inactive_time healthy c) eqn:Hr; simpl; [done|].
  constructor; [|done].
  unfold to_remove in Hr. unfold checked.
  destruct (in_use c) eqn:Hu; simpl in *; [by rewrite Hu|].
  intros _. apply orb_false_elim in Hr as [_ Hh].
  by destruct (healthy (connection c)).
Qed.

(* Writing the flags of one session leaves the entries of the others. *)
Lemma mark_other (busy : bool) (now : Q) (c : PooledConnection)
    (l : list PooledConnection) :
  connection c ∉ map connection l ->
  map (fun x => if (connection x =? connection c)%nat
                then mkConn (connection x) busy (is_healthy x) now else x) l = l.
Proof.
  induction l as [|x l IH]; simpl; [done|].
  intros Hnot. apply not_elem_of_cons in Hnot as [Hne Hnot].
  destruct (Nat.eqb_spec (connection x) (connection c)); [congruence|].
  by rewrite IH.
Qed.

Lemma mark_counts (now now' : Q) (c : PooledConnection) (l : list PooledConnection) :
  NoDup (map connection l) -> c ∈ l -> in_use c = false ->
  let borrowed := map (fun x => if (connection x =? connection c)%nat
                     then mkConn (connection x) true (is_healthy x) now else x) l in
  let returned := map (fun x => if (connection x =? connection c)%nat
                     then mkConn (connection x) false (is_healthy x) now' else x)
                    borrowed in
  length (List.filter in_use borrowed) = S (length (List.filter in_use l))
  /\ length (List.filter in_use returned) = length (List.filter in_use l).
Proof.
  cbv zeta. induction l as [|x l IH]; simpl; intros Hnd Hin Hidle.
  - by apply elem_of_nil in Hin.
  - apply NoDup_cons in Hnd as [Hx Hnd].
    destruct (Nat.eqb_spec (connection x) (connection c)) as [Heq|Hne]; simpl.
    + assert (Hc : c = x).
      { apply elem_of_cons in Hin as [|Hin]; [done|]. exfalso. apply Hx.
        rewrite Heq. apply list_elem_of_In, List.in_map. by apply list_elem_of_In. }
      subst x. rewrite Nat.eqb_refl. simpl. rewrite Hidle.
      rewrite !mark_other by done. done.
    + destruct (Nat.eqb_spec (connection x) (connection c)); [done|].
      apply elem_of_cons in Hin as [->|Hin]; [done|].
      destruct (IH Hnd Hin Hidle) as [H1 H2].
      destruct (in_use x); simpl; rewrite ?H1, ?H2; done.
Qed.

End PoolMaintenanceFacts.

(** X5.  A pass of [_perform_health_checks] removes or rewrites no
    connection that is in use (the borrowed connections are the same
    afterwards, in the same order, so [active_connection_count] is
    unchanged), and every connection it leaves idle in the pool is marked
    healthy, whatever the health probe answers and whichever connection
    attempts fail. *)
Theorem health_checks_spare_borrowed_and_keep_idle_healthy
    (now max_inactive_time : Q) (healthy : nat -> bool)
    (opened : nat -> option nat) (p : AsyncConnectionPool.t) :
  let p' := PoolMaintenance._perform_health_checks now max_inactive_time
              healthy opened p in
  List.filter AsyncConnectionPool.in_use (AsyncConnectionPool._connections p')
  = List.filter AsyncConnectionPool.in_use (AsyncConnectionPool._connections p)
  /\ PoolMaintenance.active_connection_count p'
     = PoolMaintenance.active_connection_count p
  /\ Forall (fun c => AsyncConnectionPool.in_use c = false ->
                      AsyncConnectionPool.available c = true)
       (AsyncConnectionPool._connections p').
Proof.
  cbv zeta. unfold PoolMaintenance._perform_health_checks.
  match goal with
  | |- context [PoolMaintenance.refill opened now ?n 0 ?p1] =>
      destruct (refill_appends opened now n 0 p1) as (news & Hn & Hall & _ & _)
  end.
  simpl in Hn.
  assert (Hnews : List.filter AsyncConnectionPool.in_use news = []).
  { clear Hn. induction Hall as [|c l [Hu _] _ IH]; simpl; [done|]. by rewrite Hu. }
  assert (Hf : List.filter AsyncConnectionPool.in_use
                 (AsyncConnectionPool._connections
                    (PoolMaintenance._perform_health_checks now max_inactive_time
                       healthy opened p))
               = List.filter AsyncConnectionPool.in_use
                   (AsyncConnectionPool._connections p)).
  { unfold PoolMaintenance._perform_health_checks.
    rewrite Hn, List.filter_app, Hnews, app_nil_r. apply kept_in_use. }
  unfold PoolMaintenance._perform_health_checks in Hf.
  split; [exact Hf|]. split.
  - unfold PoolMaintenance.active_connection_count. by rewrite Hf.
  - rewrite Hn. apply Forall_app. split.
    + eapply Forall_impl; [apply kept_idle_healthy|].
      intros c Hc Hu. unfold AsyncConnectionPool.available. by rewrite Hu, Hc.
    + eapply Forall_impl; [exact Hall|].
      intros c [Hu Hh] _. unfold AsyncConnectionPool.available. by rewrite Hu, Hh.
Qed.

(** X6.  The refill at the end of [_perform_health_checks] is bounded by
    [min_size] alone: the pool never ends larger than the greater of its
    size before the pass and [min_size], and when every connection attempt
    succeeds it ends with at least [min_size] connections, also where
    [min_size] exceeds [max_size]. *)
Theorem health_checks_refill_to_min_size
    (now max_inactive_time : Q) (healthy : nat -> bool)
    (opened : nat -> option nat) (p : AsyncConnectionPool.t) :
  let p' := PoolMaintenance._perform_health_checks now max_inactive_time
              healthy opened p in
  Z.of_nat (PoolMaintenance.total_connection_count p')
  <= Z.max (Z.of_nat (PoolMaintenance.total_connection_count p))
           (AsyncConnectionPool.min_size (AsyncConnectionPool.pool_config p))
  /\ ((forall k, opened k <> None) ->
      AsyncConnectionPool.min_size (AsyncConnectionPool.pool_config p)
      <= Z.of_nat (PoolMaintenance.total_connection_count p')).
Proof.
  cbv zeta. unfold PoolMaintenance._perform_health_checks,
    PoolMaintenance.total_connection_count.
  match goal with
  | |- context [PoolMaintenance.refill opened now ?n 0 ?p1] =>
      destruct (refill_appends opened now n 0 p1) as (news & Hn & _ & Hlen & Hfull)
  end.
  simpl in Hn. rewrite Hn, length_app, length_map.
  match type of Hlen with
  | (_ <= Z.to_nat (_ - Z.of_nat (length ?k)))%nat =>
      pose proof (List.filter_length_le
                    (fun c => negb (PoolMaintenance.to_remove now max_inactive_time
                                      healthy c))
                    (AsyncConnectionPool._connections p)) as Hk
  end.
  rewrite length_map in Hlen, Hfull.
  split.
  - lia.
  - intros Hall. specialize (Hfull Hall). lia.
Qed.

(** X7.  [acquire] enlarges the pool by at most one connection and never
    beyond [max_size]: the pool it leaves has at most the greater of the
    size it found and [max_size] connections and, when the connection was
    found or opened without waiting, an entry for the session it hands
    out, marked in use. *)
Theorem acquire_grows_pool_at_most_to_max_size
    (opened : option nat) (now : Q)
    (seen : nat -> list AsyncConnectionPool.PooledConnection) (polls : nat)
    (p p' : AsyncConnectionPool.t) (c : AsyncConnectionPool.PooledConnection) :
  AsyncConnectionPool.acquire opened now seen polls p
  = AsyncConnectionPool.Returned (c, p') ->
  Z.of_nat (PoolMaintenance.total_connection_count p')
  <= Z.max (Z.of_nat (PoolMaintenance.total_connection_count p))
           (AsyncConnectionPool.max_size (AsyncConnectionPool.pool_config p))
  /\ (PoolMaintenance.total_connection_count p'
      <= S (PoolMaintenance.total_connection_count p))%nat
  /\ (polls = 0%nat ->
      exists x, x ∈ AsyncConnectionPool._connections p'
                /\ AsyncConnectionPool.connection x = AsyncConnectionPool.connection c
                /\ AsyncConnectionPool.in_use x = true).
Proof.
  unfold AsyncConnectionPool.acquire, AsyncConnectionPool._get_connection,
    PoolMaintenance.total_connection_count.
  destruct (AsyncConnectionPool._closed p); [discriminate|].
  assert (Hmark : forall (l : list AsyncConnectionPool.PooledConnection) y,
             y ∈ l ->
             exists x,
               x ∈ map (fun x => if (AsyncConnectionPool.connection x
                                     =? AsyncConnectionPool.connection y)%nat
                                 then AsyncConnectionPool.mkConn
                                        (AsyncConnectionPool.connection x) true
                                        (AsyncConnectionPool.is_healthy x) now
                                 else x) l
               /\ AsyncConnectionPool.connection x = AsyncConnectionPool.connection y
               /\ AsyncConnectionPool.in_use x = true).
  { intros l y Hy.
    match goal with |- context [map ?f l] => set (g := f) end.
    exists (g y). split.
    - apply list_elem_of_In, List.in_map. by apply list_elem_of_In.
    - subst g. simpl. by rewrite Nat.eqb_refl. }
  destruct (AsyncConnectionPool.first_available _) as [c0|] eqn:Hfa.
  - intros [= <- <-]. simpl. rewrite length_map. repeat split; try lia.
    intros _. apply Hmark. apply list_elem_of_In.
    unfold AsyncConnectionPool.first_available in Hfa.
    by apply List.find_some in Hfa as [? _].
  - destruct (Z.ltb_spec (Z.of_nat (length (AsyncConnectionPool._connections p)))
                (AsyncConnectionPool.max_size (AsyncConnectionPool.pool_config p))).
    + destruct opened as [n|]; simpl; [|discriminate].
      intros [= <- <-]. simpl. rewrite length_map, length_app. simpl.
      repeat split; try lia.
      intros _. apply (Hmark _ (AsyncConnectionPool.mkConn n false true now)).
      apply elem_of_app. right. by apply list_elem_of_singleton.
    + destruct (AsyncConnectionPool.wait_loop seen polls 1) as [c1| |] eqn:Hw;
        try discriminate.
      intros [= <- <-]. simpl. rewrite length_map. repeat split; try lia.
      intros ->. simpl in Hw. discriminate.
Qed.

Lemma acquire_grows_pool_at_most_to_max_size_witness :
  let cfg := AsyncConnectionPool.mkPoolConfig 1 2 30 3 in
  let p := AsyncConnectionPool.mkPool cfg
             [AsyncConnectionPool.mkConn 7 true true 0] false in
  let r := AsyncConnectionPool.acquire (Some 8%nat) 5 (fun _ => []) 0 p in
  exists c p', r = AsyncConnectionPool.Returned (c, p')
    /\ Z.of_nat (PoolMaintenance.total_connection_count p')
       <= Z.max (Z.of_nat (PoolMaintenance.total_connection_count p))
                (AsyncConnectionPool.max_size (AsyncConnectionPool.pool_config p)).
Proof.
  intros cfg p r.
  exists (AsyncConnectionPool.mkConn 8 false true 5).
  eexists. split; [reflexivity|].
  exact (proj1 (acquire_grows_pool_at_most_to_max_size (Some 8%nat) 5 (fun _ => []) 0
                  p _ _ eq_refl)).
Defined.

(** X8.  In a pool whose entries are on distinct sessions, a connection
    handed out by [acquire] without waiting (found idle, or opened on a
    session not yet in the pool) raises [active_connection_count] by exactly
    one, and [mark_available] at the end of the borrow brings the count back
    to what it was before. *)
Theorem borrow_counts_one_active_until_released
    (opened : option nat) (now now' : Q)
    (seen : nat -> list AsyncConnectionPool.PooledConnection)
    (p p' : AsyncConnectionPool.t) (c : AsyncConnectionPool.PooledConnection) :
  NoDup (map AsyncConnectionPool.connection (AsyncConnectionPool._connections p)) ->
  (forall n, opened = Some n ->
     n ∉ map AsyncConnectionPool.connection (AsyncConnectionPool._connections p)) ->
  AsyncConnectionPool.acquire opened now seen 0 p
  = AsyncConnectionPool.Returned (c, p') ->
  PoolMaintenance.active_connection_count p'
  = S (PoolMaintenance.active_connection_count p)
  /\ PoolMaintenance.active_connection_count
       (AsyncConnectionPool.mark_available now' c p')
     = PoolMaintenance.active_connection_count p.
Proof.
  intros Hnd Hfresh.
  unfold AsyncConnectionPool.acquire, AsyncConnectionPool._get_connection,
    PoolMaintenance.active_connection_count, AsyncConnectionPool.mark_available,
    AsyncConnectionPool.mark_in_use, AsyncConnectionPool.mark.
  destruct (AsyncConnectionPool._closed p); [discriminate|].
  destruct (AsyncConnectionPool.first_available _) as [c0|] eqn:Hfa.
  - intros [= <- <-]. simpl.
    unfold AsyncConnectionPool.first_available in Hfa.
    apply List.find_some in Hfa as [Hin Hav].
    apply list_elem_of_In in Hin.
    unfold AsyncConnectionPool.available in Hav.
    apply andb_prop in Hav as [Hidle _]. apply negb_true_iff in Hidle.
    exact (mark_counts now now' c0 _ Hnd Hin Hidle).
  - destruct (Z.ltb_spec (Z.of_nat (length (AsyncConnectionPool._connections p)))
                (AsyncConnectionPool.max_size (AsyncConnectionPool.pool_config p)));
      [|discriminate].
    destruct opened as [n|]; simpl; [|discriminate].
    intros [= <- <-]. simpl.
    specialize (Hfresh n eq_refl).
    rewrite !map_app. simpl. rewrite Nat.eqb_refl. simpl. rewrite Nat.eqb_refl.
    pose proof (mark_other true now (AsyncConnectionPool.mkConn n false true now)
                  _ Hfresh) as H1.
    simpl in H1. rewrite H1.
    pose proof (mark_other false now' (AsyncConnectionPool.mkConn n false true now)
                  _ Hfresh) as H2.
    simpl in H2. rewrite H2.
    rewrite !List.filter_app, !length_app. simpl. split; lia.
Qed.

Lemma borrow_counts_one_active_until_released_witness :
  let cfg := AsyncConnectionPool.mkPoolConfig 1 2 30 3 in
  let p := AsyncConnectionPool.mkPool cfg
             [AsyncConnectionPool.mkConn 7 true true 0;
              AsyncConnectionPool.mkConn 9 false true 0] false in
  let c := AsyncConnectionPool.mkConn 9 false true 0 in
  let p' := AsyncConnectionPool.mark_in_use 5 c p in
  NoDup (map AsyncConnectionPool.connection (AsyncConnectionPool._connections p)) /\
  AsyncConnectionPool.acquire None 5 (fun _ => []) 0 p
  = AsyncConnectionPool.Returned (c, p') /\
  PoolMaintenance.active_connection_count
    (AsyncConnectionPool.mark_available 6 c p')
  = PoolMaintenance.active_connection_count p.
Proof.
  intros cfg p c p'.
  assert (Hnd : NoDup (map AsyncConnectionPool.connection
                         (AsyncConnectionPool._connections p))).
  { simpl. apply NoDup_cons. split; [|apply NoDup_singleton].
    intros H. apply list_elem_of_singleton in H. discriminate. }
  refine (conj Hnd (conj eq_refl _)).
  refine (proj2 (borrow_counts_one_active_until_released None 5 6 (fun _ => [])
                   p p' c Hnd _ eq_refl)).
  intros n H. discriminate.
Defined.

(** ** Circuit breaker: half-open admission, recovery timeout, counters *)

Section BreakerRunFacts.

Import CircuitBreaker CircuitBreakerRuns.

(* A call on a half-open breaker that has used up its trial calls: it is
   rejected at the gate and only the rejection counter moves. *)
Lemma call_rejected_when_trials_used (b : t) (now done : Q) (f : func_outcome) :
  state b = HALF_OPEN ->
  half_open_max_calls (config b) <= half_open_calls b ->
  (call now f done b).1 = with_metrics (record_rejection (metrics b)) b
  /\ reached_function (call now f done b).2 = false.
Proof.
  intros Hs Hle. unfold call, _can_execute. rewrite Hs.
  destruct (Z.ltb_spec (half_open_calls b) (half_open_max_calls (config b))); [lia|].
  by destruct (_get_retry_after now _).
Qed.

(* A success on a half-open breaker that has trial calls left and is still
   short of the success threshold. *)
Lemma half_open_success_counts (b : t) (now done : Q) :
  state b = HALF_OPEN ->
  half_open_calls b < half_open_max_calls (config b) ->
  success_count b + 1 < success_threshold (config b) ->
  let b' := (call now FuncReturns done b).1 in
  state b' = HALF_OPEN /\ config b' = config b
  /\ success_count b' = success_count b + 1
  /\ half_open_calls b' = half_open_calls b + 1
  /\ (call now FuncReturns done b).2 = ResultReturned.
Proof.
  intros Hs Hh Hsc. cbv zeta. unfold call, _can_execute. rewrite Hs.
  destruct (Z.ltb_spec (half_open_calls b) (half_open_max_calls (config b))); [|lia].
  rewrite Hs. simpl. unfold _on_success. simpl.
  destruct (Z.leb_spec (success_threshold (config b)) (success_count b + 1)); [lia|].
  by simpl.
Qed.

Definition succeeding (a : attempt) : Prop := a.1.2 = FuncReturns.

Lemma half_open_successes_use_up_trials (cs : list attempt) :
  forall b : t,
    state b = HALF_OPEN ->
    Forall succeeding cs ->
    half_open_calls b + Z.of_nat (length cs) <= half_open_max_calls (config b) ->
    success_count b + Z.of_nat (length cs) < success_threshold (config b) ->
    let b' := (calls cs b).1 in
    state b' = HALF_OPEN /\ config b' = config b
    /\ half_open_calls b' = half_open_calls b + Z.of_nat (length cs)
    /\ Forall (fun r => r = ResultReturned) (calls cs b).2.
Proof.
  induction cs as [|[[now f] done] cs IH]; intros b Hs Hall Hh Hsc.
  - simpl. repeat split; try done. lia.
  - inversion Hall as [|? ? Hf Hrest]; subst. unfold succeeding in Hf. simpl in Hf.
    subst f. cbn [length] in Hh, Hsc.
    destruct (half_open_success_counts b now done Hs ltac:(lia) ltac:(lia))
      as (Hs1 & Hc1 & Hsc1 & Hh1 & Hr1).
    simpl. destruct (call now FuncReturns done b) as [b1 r1]. simpl in *.
    specialize (IH b1 Hs1 Hrest). rewrite Hc1, Hsc1, Hh1 in IH.
    specialize (IH ltac:(lia) ltac:(lia)).
    destruct (calls cs b1) as [b2 rs]. simpl in *.
    destruct IH as (H1 & H2 & H3 & H4).
    repeat split; [done | done | lia |]. constructor; done.
Qed.

Lemma trials_used_rejects_all (cs : list attempt) :
  forall b : t,
    state b = HALF_OPEN ->
    half_open_max_calls (config b) <= half_open_calls b ->
    state (calls cs b).1 = HALF_OPEN
    /\ Forall (fun r => reached_function r = false) (calls cs b).2.
Proof.
  induction cs as [|[[now f] done] cs IH]; intros b Hs Hle; simpl.
  - split; [done | exact (List.Forall_nil _)].
  - destruct (call_rejected_when_trials_used b now done f Hs Hle) as [Hb Hr].
    destruct (call now f done b) as [b1 r1]. simpl in *. subst b1.
    specialize (IH (with_metrics (record_rejection (metrics b)) b) Hs Hle).
    destruct (calls cs _) as [b2 rs]. simpl in *. destruct IH as [H1 H2].
    split; [done|]. by constructor.
Qed.


Definition returned (r : call_result) : bool :=
  match r with ResultReturned => true | _ => false end.





End BreakerRunFacts.

(** X9.  A half-open breaker admits trial calls by count only.  When fewer
    trial calls are allowed than successes are needed to close
    ([half_open_max_calls < success_threshold]), a breaker that has just
    half-opened lets exactly [half_open_max_calls] succeeding calls through,
    stays half-open, and from then on rejects every call at any later time
    without invoking the function: no call that completes one after another
    moves it out of half-open again. *)
Theorem half_open_rejects_forever_once_trials_are_used
    (b : CircuitBreaker.t) (trials later : list CircuitBreakerRuns.attempt) :
  CircuitBreaker.state b = CircuitBreaker.HALF_OPEN ->
  CircuitBreaker.half_open_calls b = 0 ->
  CircuitBreaker.success_count b = 0 ->
  Forall succeeding trials ->
  Z.of_nat (length trials)
  = CircuitBreaker.half_open_max_calls (CircuitBreaker.config b) ->
  CircuitBreaker.half_open_max_calls (CircuitBreaker.config b)
  < CircuitBreaker.success_threshold (CircuitBreaker.config b) ->
  let b1 := (CircuitBreakerRuns.calls trials b).1 in
  Forall (fun r => r = CircuitBreaker.ResultReturned)
    (CircuitBreakerRuns.calls trials b).2
  /\ CircuitBreaker.state b1 = CircuitBreaker.HALF_OPEN
  /\ CircuitBreaker.state (CircuitBreakerRuns.calls later b1).1
     = CircuitBreaker.HALF_OPEN
  /\ Forall (fun r => CircuitBreaker.reached_function r = false)
       (CircuitBreakerRuns.calls later b1).2.
Proof.
  intros Hs Hh Hsc Hall Hlen Hlt. cbv zeta.
  destruct (half_open_successes_use_up_trials trials b Hs Hall
              ltac:(lia) ltac:(lia)) as (H1 & H2 & H3 & H4).
  split; [done|]. split; [done|].
  apply trials_used_rejects_all; [done|]. rewrite H2, H3. lia.
Qed.

Lemma half_open_rejects_forever_once_trials_are_used_witness :
  let cfg := CircuitBreaker.mkConfig 1 1 3 (1 # 10) 60 false 300 2 in
  let failing : CircuitBreakerRuns.attempt := (0%Q, CircuitBreaker.FuncRaises, 0%Q) in
  let probe : CircuitBreakerRuns.attempt := (2%Q, CircuitBreaker.FuncReturns, 2%Q) in
  let h := CircuitBreaker._transition_to_half_open 2
             (CircuitBreakerRuns.calls [failing] (CircuitBreaker.__init__ cfg 0)).1 in
  CircuitBreaker.state h = CircuitBreaker.HALF_OPEN
  /\ Forall succeeding [probe; probe]
  /\ Forall (fun r => CircuitBreaker.reached_function r = false)
       (CircuitBreakerRuns.calls
          [(1000%Q, CircuitBreaker.FuncReturns, 1000%Q)]
          (CircuitBreakerRuns.calls [probe; probe] h).1).2.
Proof.
  intros cfg failing probe h.
  assert (Hs : CircuitBreaker.state h = CircuitBreaker.HALF_OPEN) by reflexivity.
  assert (Hall : Forall succeeding [probe; probe]) by (repeat constructor).
  refine (conj Hs (conj Hall _)).
  exact (proj2 (proj2 (proj2
    (half_open_rejects_forever_once_trials_are_used h [probe; probe]
       [(1000%Q, CircuitBreaker.FuncReturns, 1000%Q)]
       Hs eq_refl eq_refl Hall eq_refl eq_refl)))).
Defined.




(** ** Sliding window counter and per-client checks *)

Section SlidingWindowFacts.

Import SlidingWindowCounter.

Definition not_before (cutoff : Q) (a : Q) : bool := Qle_bool cutoff a.

(* On a deque in chronological order the pruning loop drops exactly the
   entries older than the cutoff. *)
Lemma popleft_old_chronological (cutoff : Q) (q : list Q) :
  chronological q ->
  CircuitBreaker.popleft_old cutoff q = List.filter (not_before cutoff) q.
Proof.
  induction q as [|x q IH]; [done|]. intros [Hx Hq]. simpl.
  unfold CircuitBreaker.Qltb. change (Qle_bool cutoff x) with (not_before cutoff x).
  destruct (not_before cutoff x) eqn:E; simpl; [|by apply IH].
  f_equal. unfold not_before in E. apply Qle_bool_iff in E.
  clear IH Hq. induction Hx as [|y q Hy Hrest IH]; [done|]. simpl.
  assert (Hy' : not_before cutoff y = true)
    by (apply Qle_bool_iff; by apply Qle_trans with x).
  rewrite Hy'. by f_equal.
Qed.

Lemma filter_not_before_twice (c1 c2 : Q) (q : list Q) :
  (c1 <= c2)%Q ->
  List.filter (not_before c2) (List.filter (not_before c1) q)
  = List.filter (not_before c2) q.
Proof.
  intros Hc. induction q as [|x q IH]; [done|]. simpl.
  destruct (not_before c1 x) eqn:E1, (not_before c2 x) eqn:E2; simpl;
    rewrite ?E2, ?IH; try done.
  exfalso. unfold not_before in E1, E2. apply Qle_bool_iff in E2.
  assert (Qle_bool c1 x = true)
    by (apply Qle_bool_iff; by apply Qle_trans with c2).
  congruence.
Qed.

Lemma chronological_filter (c : Q) (q : list Q) :
  chronological q -> chronological (List.filter (not_before c) q).
Proof.
  induction q as [|x q IH]; [done|]. intros [Hx Hq]. simpl.
  destruct (not_before c x); [|by apply IH]. split; [|by apply IH].
  apply List.Forall_forall. intros y Hy. apply List.filter_In in Hy as [Hy _].
  by apply (proj1 (List.Forall_forall _ _) Hx).
Qed.

Lemma chronological_snoc (q : list Q) (now : Q) :
  chronological q -> Forall (fun a => (a <= now)%Q) q -> chronological (q ++ [now]).
Proof.
  induction q as [|x q IH]; intros Hq Hall; simpl.
  - split; [exact (List.Forall_nil _) | done].
  - destruct Hq as [Hx Hq]. inversion Hall as [|? ? Hxn Hrest]; subst.
    split; [|by apply IH].
    apply List.Forall_app. split; [done|]. by constructor.
Qed.

(* The deque holds the calls allowed so far, [history], that are not older
   than the window ending at the latest reading [T]. *)
Definition tracks (history : list Q) (T : Q) (w : t) : Prop :=
  chronological history
  /\ Forall (fun a => (a <= T)%Q) history
  /\ requests w = List.filter (not_before (T - inject_Z (window_size w))%Q) history.

Lemma is_allowed_tracks (history : list Q) (T now : Q) (w : t) :
  0 <= window_size w ->
  tracks history T w ->
  (T <= now)%Q ->
  let w' := (is_allowed now w).1 in
  let history' := match (is_allowed now w).2 with
                  | Allowed => history ++ [now]
                  | _ => history
                  end in
  tracks history' now w'
  /\ window_size w' = window_size w /\ max_requests w' = max_requests w
  /\ (Z.of_nat (length (requests w)) <= Z.max 0 (max_requests w) ->
      Z.of_nat (length (requests w')) <= Z.max 0 (max_requests w)).
Proof.
  intros Hws (Hchron & Hle & Hreq) HT. cbv zeta.
  assert (Hcut : (T - inject_Z (window_size w) <= now - inject_Z (window_size w))%Q)
    by lra.
  assert (Hkept : prune now w
                  = List.filter (not_before (now - inject_Z (window_size w))%Q) history).
  { unfold prune. rewrite Hreq.
    rewrite popleft_old_chronological by (by apply chronological_filter).
    by apply filter_not_before_twice. }
  assert (Hlen : (length (prune now w) <= length (requests w))%nat).
  { unfold prune. rewrite popleft_old_chronological
      by (rewrite Hreq; by apply chronological_filter).
    apply List.filter_length_le. }
  assert (Hnow : Forall (fun a => (a <= now)%Q) history).
  { eapply Forall_impl; [exact Hle|]. intros a Ha. simpl in Ha. lra. }
  unfold is_allowed.
  destruct (Z.ltb_spec (Z.of_nat (length (prune now w))) (max_requests w)) as [Hlt|Hge].
  - simpl. refine (conj (conj _ (conj _ _)) (conj eq_refl (conj eq_refl _))).
    + by apply chronological_snoc.
    + apply List.Forall_app. split; [done|]. constructor; [lra | constructor].
    + rewrite List.filter_app, Hkept. cbn [List.filter window_size].
      assert (Hin : not_before (now - inject_Z (window_size w)) now = true).
      { apply Qle_bool_iff.
        assert (0 <= inject_Z (window_size w))%Q
          by (change 0%Q with (inject_Z 0); by rewrite <- Zle_Qle).
        lra. }
      by rewrite Hin.
    + intros _. rewrite length_app. simpl. lia.
  - assert (Hsame : tracks history now
                      (mkWindow (window_size w) (max_requests w) (prune now w))).
    { by refine (conj Hchron (conj Hnow _)). }
    destruct (prune now w) eqn:Hp; simpl in *;
      (refine (conj Hsame (conj eq_refl (conj eq_refl _))); lia).
Qed.

Lemma allowed_calls_track (times : list Q) :
  forall (history : list Q) (T : Q) (w : t),
    0 <= window_size w ->
    tracks history T w ->
    chronological times ->
    Forall (fun a => (T <= a)%Q) times ->
    let w' := (allowed_calls times w).1 in
    tracks (history ++ (allowed_calls times w).2) (List.last times T) w'
    /\ window_size w' = window_size w /\ max_requests w' = max_requests w
    /\ (Z.of_nat (length (requests w)) <= Z.max 0 (max_requests w) ->
        Z.of_nat (length (requests w')) <= Z.max 0 (max_requests w)).
Proof.
  induction times as [|now times IH]; intros history T w Hws Htr Hchron Hafter.
  - simpl. rewrite app_nil_r.
    exact (conj Htr (conj eq_refl (conj eq_refl (fun H => H)))).
  - destruct Hchron as [Hnow Hchron].
    inversion Hafter as [|? ? HT Hrest]; subst.
    destruct (is_allowed_tracks history T now w Hws Htr HT) as (Htr1 & Hw1 & Hm1 & Hb1).
    cbn [allowed_calls].
    destruct (is_allowed now w) as [w1 r]. simpl in Htr1, Hw1, Hm1, Hb1.
    assert (Hws1 : 0 <= window_size w1) by lia.
    specialize (IH _ now w1 Hws1 Htr1 Hchron Hnow).
    destruct (allowed_calls times w1) as [w2 rest]. cbn [fst snd] in IH. cbn [fst snd].
    destruct IH as (Htr2 & Hw2 & Hm2 & Hb2).
    assert (Hlast : forall (l : list Q) (d x : Q), List.last (x :: l) d = List.last l x).
    { clear. induction l as [|a l IHl]; intros d x; [done|].
      change (List.last (x :: a :: l) d) with (List.last (a :: l) d).
      rewrite IHl. symmetry. apply IHl. }
    rewrite Hlast.
    refine (conj _ (conj _ (conj _ _))); try congruence.
    + destruct r; [by rewrite <- app_assoc in Htr2 | done | done].
    + intros Hb. rewrite <- Hm1. apply Hb2. rewrite Hm1. by apply Hb1.
Qed.

End SlidingWindowFacts.

(** X12.  Started empty and called at clock readings that do not run
    backwards, a sliding-window counter with a window that is not negative
    allows at most [max_requests] calls in the window ending at any call:
    after the run its deque holds exactly the allowed calls not older than
    [window_size] seconds before the last call, and they number at most
    [max_requests] (none when that is not positive). *)
Theorem sliding_window_allows_at_most_max_requests
    (window_size max_requests : Z) (times : list Q) (last : Q) :
  0 <= window_size ->
  SlidingWindowCounter.chronological (times ++ [last]) ->
  let r := SlidingWindowCounter.allowed_calls (times ++ [last])
             (SlidingWindowCounter.__init__ window_size max_requests) in
  let in_window := List.filter (not_before (last - inject_Z window_size)%Q) r.2 in
  SlidingWindowCounter.requests r.1 = in_window
  /\ Z.of_nat (length in_window) <= Z.max 0 max_requests.
Proof.
  intros Hws Hchron. cbv zeta.
  (* the starting reading only bounds an empty history: take the first call *)
  pose proof (allowed_calls_track (times ++ [last]) []
                (List.hd last (times ++ [last]))
                (SlidingWindowCounter.__init__ window_size max_requests) Hws) as G.
  cbv zeta in G. simpl in G. rewrite List.last_last in G.
  destruct G as ((_ & _ & Hreq) & Hw & _ & Hb).
  - refine (conj I (conj (List.Forall_nil _) eq_refl)).
  - exact Hchron.
  - destruct (times ++ [last]) as [|x l] eqn:E; [by destruct times|].
    simpl. destruct Hchron as [Hx _]. constructor; [lra | exact Hx].
  - rewrite Hw in Hreq. simpl in Hreq. rewrite <- Hreq. split; [done|]. apply Hb. lia.
Qed.

Lemma sliding_window_allows_at_most_max_requests_witness :
  let r := SlidingWindowCounter.allowed_calls ([0; 1; 2; 11] ++ [(23 # 2)])%Q
             (SlidingWindowCounter.__init__ 10 2) in
  0 <= 10 /\
  SlidingWindowCounter.chronological ([0; 1; 2; 11] ++ [(23 # 2)])%Q /\
  Z.of_nat (length (List.filter (not_before ((23 # 2) - inject_Z 10)%Q) r.2))
  <= Z.max 0 2.
Proof.
  intros r.
  assert (H0 : 0 <= 10) by lia.
  assert (Hc : SlidingWindowCounter.chronological ([0; 1; 2; 11] ++ [(23 # 2)])%Q).
  { simpl. repeat split; repeat constructor; vm_compute; discriminate. }
  refine (conj H0 (conj Hc _)).
  exact (proj2 (sliding_window_allows_at_most_max_requests 10 2
                  [0; 1; 2; 11]%Q (23 # 2)%Q H0 Hc)).
Defined.

Section RateLimitCheckFacts.

Import ClientRateLimit RateLimitChecks.

(* One [check_limits()] per clock reading, in program order; the caller
   catches what a check raises and goes on. *)
Fixpoint check_all (times : list Q) (c : t) : t * list check_result :=
  match times with
  | [] => (c, [])
  | now :: times' =>
      let '(c1, r) := check_limits now c in
      let '(c2, rs) := check_all times' c1 in
      (c2, r :: rs)
  end.

Definition refused (r : check_result) : bool :=
  match r with RateLimitError _ _ => true | _ => false end.

(* One token taken from the bucket as refilled at [now]. *)
Definition spent (now : Q) (e e' : RateLimitType * TokenBucket.t) : Prop :=
  e'.1 = e.1
  /\ TokenBucket.tokens e'.2 = (TokenBucket.tokens (TokenBucket._refill now e.2) - 1)%Q.

Lemma check_limits_counts (now : Q) (c : t) :
  let c' := (check_limits now c).1 in
  let r := (check_limits now c).2 in
  total_requests c' = total_requests c + 1
  /\ blocked_requests c' = blocked_requests c + (if refused r then 1 else 0)
  /\ concurrent_requests c' = concurrent_requests c
  /\ limits c' = limits c.
Proof.
  cbv zeta. unfold check_limits.
  destruct (match get_limit CONCURRENT_REQUESTS (limits c) with
            | Some l => limit l <=? concurrent_requests c
            | None => false
            end); simpl; [done|].
  destruct (check_buckets now (token_buckets c)) as [bs rb].
  destruct rb; simpl; try (repeat split; lia).
  destruct (check_windows now (sliding_windows c)) as [ws rw].
  destruct rw; simpl; repeat split; lia.
Qed.

Lemma check_buckets_passed (now : Q) (bs : list (RateLimitType * TokenBucket.t)) :
  forall bs', check_buckets now bs = (bs', Passed) -> Forall2 (spent now) bs bs'.
Proof.
  induction bs as [|[ty b] bs IH]; intros bs' H; simpl in H.
  - injection H as <-. constructor.
  - unfold TokenBucket.consume in H.
    destruct (Qle_bool (inject_Z 1) (TokenBucket.tokens (TokenBucket._refill now b))).
    + destruct (check_buckets now bs) as [bs1 r] eqn:E.
      injection H as <- ->. constructor; [|by apply IH].
      split; reflexivity.
    + destruct (Qeq_bool _ 0); discriminate.
Qed.

End RateLimitCheckFacts.

(** X13.  The concurrent-slot counter of a client never goes below zero
    over any sequence of [acquire_concurrent_slot] and
    [release_concurrent_slot] calls, does not move at all for a client
    without a concurrent-request limit, and an acquire followed by a
    release leaves it where it was. *)
Theorem concurrent_slot_counter_stays_nonnegative
    (ops : list RateLimitChecks.slot_op) (c : RateLimitChecks.t) :
  0 <= RateLimitChecks.concurrent_requests c ->
  0 <= RateLimitChecks.concurrent_requests (fold_left RateLimitChecks.slot_step ops c)
  /\ (RateLimitChecks.has_concurrent_limit c = false ->
      fold_left RateLimitChecks.slot_step ops c = c)
  /\ RateLimitChecks.concurrent_requests
       (RateLimitChecks.release_concurrent_slot
          (RateLimitChecks.acquire_concurrent_slot c))
     = RateLimitChecks.concurrent_requests c.
Proof.
  intros Hc. split; [|split].
  - revert c Hc. induction ops as [|o ops IH]; intros c Hc; [done|].
    simpl. apply IH.
    destruct o; simpl; unfold RateLimitChecks.acquire_concurrent_slot,
      RateLimitChecks.release_concurrent_slot;
      destruct (RateLimitChecks.has_concurrent_limit c); simpl; lia.
  - intros Hno. induction ops as [|o ops IH]; [done|]. simpl.
    assert (Hstep : RateLimitChecks.slot_step c o = c).
    { destruct o; simpl; unfold RateLimitChecks.acquire_concurrent_slot,
        RateLimitChecks.release_concurrent_slot; by rewrite Hno. }
    by rewrite Hstep.
  - unfold RateLimitChecks.acquire_concurrent_slot,
      RateLimitChecks.release_concurrent_slot.
    destruct (RateLimitChecks.has_concurrent_limit c) eqn:Hl; simpl.
    + unfold RateLimitChecks.has_concurrent_limit in *. simpl. rewrite Hl. simpl. lia.
    + by rewrite Hl.
Qed.

Lemma concurrent_slot_counter_stays_nonnegative_witness :
  let c := RateLimitChecks.mkClient
             [(ClientRateLimit.CONCURRENT_REQUESTS,
               ClientRateLimit.mkRateLimit ClientRateLimit.CONCURRENT_REQUESTS 5 0 0)]
             [] [] 0 0 0 in
  let ops := [RateLimitChecks.Release; RateLimitChecks.Acquire;
              RateLimitChecks.Release; RateLimitChecks.Release] in
  0 <= RateLimitChecks.concurrent_requests c /\
  0 <= RateLimitChecks.concurrent_requests (fold_left RateLimitChecks.slot_step ops c).
Proof.
  intros c ops.
  assert (H0 : 0 <= RateLimitChecks.concurrent_requests c) by (simpl; lia).
  exact (conj H0 (proj1 (concurrent_slot_counter_stays_nonnegative ops c H0))).
Defined.

(** X14.  Every [check_limits] call counts one request, whatever it
    answers, and one blocked request exactly when it raises a rate-limit
    error; over any run the blocked requests counted are at most the
    requests counted, and the checks never move the concurrent-slot
    counter, which only the acquire and release calls of the caller do. *)
Theorem check_limits_counts_every_call (times : list Q) (c : RateLimitChecks.t) :
  let c' := (check_all times c).1 in
  let rs := (check_all times c).2 in
  RateLimitChecks.total_requests c'
  = RateLimitChecks.total_requests c + Z.of_nat (length times)
  /\ RateLimitChecks.blocked_requests c'
     = RateLimitChecks.blocked_requests c + Z.of_nat (length (List.filter refused rs))
  /\ RateLimitChecks.blocked_requests c' - RateLimitChecks.blocked_requests c
     <= RateLimitChecks.total_requests c' - RateLimitChecks.total_requests c
  /\ RateLimitChecks.concurrent_requests c' = RateLimitChecks.concurrent_requests c.
Proof.
  cbv zeta. revert c. induction times as [|now times IH]; intros c.
  - simpl. lia.
  - cbn [check_all length].
    pose proof (check_limits_counts now c) as Hc. cbv zeta in Hc.
    destruct (RateLimitChecks.check_limits now c) as [c1 r]. simpl in Hc.
    specialize (IH c1). destruct (check_all times c1) as [c2 rs]. simpl in *.
    destruct (refused r); simpl; lia.
Qed.

(** X15.  A request that passes every token bucket and is then refused by
    a sliding window has still taken one token from each bucket: the
    refusal is raised with the buckets already charged, nothing is given
    back, and the call is counted as blocked. *)
Theorem window_refusal_keeps_bucket_tokens_spent
    (now ra : Q) (ty : ClientRateLimit.RateLimitType) (c c' : RateLimitChecks.t) :
  (RateLimitChecks.check_buckets now (RateLimitChecks.token_buckets c)).2
  = RateLimitChecks.Passed ->
  RateLimitChecks.check_limits now c
  = (c', RateLimitChecks.RateLimitError ty (Some ra)) ->
  Forall2 (spent now) (RateLimitChecks.token_buckets c)
    (RateLimitChecks.token_buckets c')
  /\ RateLimitChecks.blocked_requests c' = RateLimitChecks.blocked_requests c + 1
  /\ exists w, In (ty, w) (RateLimitChecks.sliding_windows c).
Proof.
  intros Hb Hr. unfold RateLimitChecks.check_limits in Hr.
  destruct (match RateLimitChecks.get_limit ClientRateLimit.CONCURRENT_REQUESTS
                    (RateLimitChecks.limits c) with
            | Some l => ClientRateLimit.limit l <=? RateLimitChecks.concurrent_requests c
            | None => false
            end); [discriminate|].
  destruct (RateLimitChecks.check_buckets now (RateLimitChecks.token_buckets c))
    as [bs rb] eqn:Eb.
  simpl in Hb. subst rb.
  destruct (RateLimitChecks.check_windows now (RateLimitChecks.sliding_windows c))
    as [ws rw] eqn:Ew.
  injection Hr as <- ->. simpl.
  split; [by apply check_buckets_passed|]. split; [done|].
  clear Eb. revert ws Ew.
  induction (RateLimitChecks.sliding_windows c) as [|[ty' w] l IH]; intros ws Ew;
    simpl in Ew; [discriminate|].
  destruct (SlidingWindowCounter.is_allowed now w) as [w1 a].
  destruct a.
  - destruct (RateLimitChecks.check_windows now l) as [ws1 r1].
    injection Ew as _ ->. destruct (IH _ eq_refl) as [w' Hin].
    exists w'. by right.
  - injection Ew as _ -> _. exists w. by left.
  - discriminate.
Qed.

Lemma window_refusal_keeps_bucket_tokens_spent_witness :
  let b := TokenBucket.__init__ 5 1 0 in
  let w := SlidingWindowCounter.mkWindow 60 1 [0%Q] in
  let c := RateLimitChecks.mkClient [] [(ClientRateLimit.REQUESTS_PER_SECOND, b)]
             [(ClientRateLimit.REQUESTS_PER_MINUTE, w)] 0 0 0 in
  exists c',
    RateLimitChecks.check_limits 1 c
    = (c', RateLimitChecks.RateLimitError ClientRateLimit.REQUESTS_PER_MINUTE
             (Some (Qmax 0 (0 + inject_Z 60 - 1))))
    /\ Forall2 (spent 1) (RateLimitChecks.token_buckets c)
         (RateLimitChecks.token_buckets c').
Proof.
  intros b w c. eexists. split; [reflexivity|].
  exact (proj1 (window_refusal_keeps_bucket_tokens_spent 1 _ _ c _ eq_refl eq_refl)).
Defined.

(** ** Quotas: burst accounting, read-only checks, client isolation *)

Section QuotaAccountingFacts.

Import Quota ClientQuota.

Lemma check_reset_keeps_state (qt : QuotaType) (now : datetime.t) (cq : t) :
  _lock cq = true ->
  (_check_reset_needed qt now cq).1 = cq.
Proof.
  intros Hlock. unfold _check_reset_needed.
  destruct (quota_limits cq !! qt) as [l|]; [|done].
  destruct (quota_usage cq !! qt) as [u|]; [|done].
  destruct (reset_needed l u now); [|done].
  unfold reset_quota. by rewrite Hlock.
Qed.

Lemma unlock_after_lock (cq : t) :
  _lock cq = false -> with_lock false (with_lock true cq) = cq.
Proof. intros H. destruct cq. simpl in H. by subst. Qed.

(* What a consumption leaves in the usage table. *)
Lemma consume_usage (cq : t) (qt : QuotaType) (amount : Z) (now : datetime.t) :
  quota_limits (consume_quota qt amount now cq).1 = quota_limits cq
  /\ (quota_usage (consume_quota qt amount now cq).1 = quota_usage cq
      \/ exists l u,
           quota_limits cq !! qt = Some l /\ quota_usage cq !! qt = Some u
           /\ ((current_usage u + amount <= available_quota l u
                /\ quota_usage (consume_quota qt amount now cq).1
                   = <[qt := mkUsage (current_usage u + amount)
                               (Z.max (peak_usage u) (current_usage u + amount))
                               (last_reset u)
                               (warning_triggered u
                                || (soft_limit l <=? current_usage u + amount))
                               (limit_exceeded u)
                               (if limit l + rollover_balance u
                                   <? current_usage u + amount
                                then current_usage u + amount
                                     - (limit l + rollover_balance u)
                                else burst_used u)
                               (rollover_balance u)
                               (_trim_usage_history
                                  (usage_history u ++ [(now, amount)]))]>
                       (quota_usage cq))
               \/ quota_usage (consume_quota qt amount now cq).1
                  = <[qt := mkUsage (current_usage u) (peak_usage u) (last_reset u)
                              (warning_triggered u) true (burst_used u)
                              (rollover_balance u) (usage_history u)]>
                      (quota_usage cq))).
Proof.
  unfold consume_quota.
  destruct (_lock cq) eqn:Hlock; [by split; [|left]|].
  destruct (quota_limits cq !! qt) as [l|] eqn:Hl; [|by split; [|left]].
  pose proof (check_reset_keeps_state qt now (with_lock true cq) eq_refl) as Hsame.
  destruct (_check_reset_needed qt now (with_lock true cq)) as [cq1 r].
  simpl in Hsame. subst cq1.
  destruct r as [[]| | |]; simpl; try (by split; [|left]).
  rewrite Hl.
  destruct (quota_usage cq !! qt) as [u|] eqn:Hu; simpl; [|by split; [|left]].
  destruct (Z.leb_spec (current_usage u + amount) (available_quota l u)); simpl.
  - split; [done|]. right. exists l, u. split; [done|]. split; [done|]. by left.
  - split; [done|]. right. exists l, u. split; [done|]. split; [done|]. by right.
Qed.

(* The usage records of a client stay within what their limits allow. *)
Definition within_limits (cq : t) : Prop :=
  forall qt l u,
    quota_limits cq !! qt = Some l -> quota_usage cq !! qt = Some u ->
    0 <= burst_used u
    /\ current_usage u <= limit l + rollover_balance u + burst_allowance l
    /\ current_usage u <= peak_usage u
    /\ (length (usage_history u) <= 1000)%nat.

Lemma trim_bounds (h : list (datetime.t * Z)) :
  (length (_trim_usage_history h) <= 1000)%nat.
Proof.
  unfold _trim_usage_history.
  destruct (Nat.ltb_spec 1000 (length h)); [|done].
  rewrite length_drop. lia.
Qed.

End QuotaAccountingFacts.

(** X16.  Whatever is asked of it, and whether it grants, refuses, finds a
    reset due or finds its lock held, [ClientQuota.consume_quota] keeps
    every usage record of the client within bounds: burst use is not
    negative, usage is at most limit plus rollover plus burst allowance and
    at most the recorded peak, and the history holds at most 1000 entries. *)
Theorem client_usage_stays_within_limits
    (cq : ClientQuota.t) (qt : Quota.QuotaType) (amount : Z) (now : datetime.t) :
  within_limits cq ->
  within_limits (ClientQuota.consume_quota qt amount now cq).1.
Proof.
  intros Hin qt' l' u' Hl' Hu'.
  destruct (consume_usage cq qt amount now) as [Hlim Huse].
  rewrite Hlim in Hl'.
  destruct Huse as [Hsame | (l & u & Hl & Hu & [[Hle Hnew] | Hnew])].
  - rewrite Hsame in Hu'. by apply (Hin qt').
  - rewrite Hnew in Hu'. destruct (decide (qt' = qt)) as [->|Hne].
    + rewrite lookup_insert_eq in Hu'. injection Hu' as <-.
      rewrite Hl in Hl'. injection Hl' as <-.
      destruct (Hin qt l u Hl Hu) as (H1 & H2 & H3 & H4).
      unfold ClientQuota.available_quota in Hle. cbn.
      refine (conj _ (conj _ (conj _ (trim_bounds _)))).
      * destruct (Z.ltb_spec (Quota.limit l + Quota.rollover_balance u)
                    (Quota.current_usage u + amount)); lia.
      * lia.
      * lia.
    + rewrite lookup_insert_ne in Hu' by done. by apply (Hin qt').
  - rewrite Hnew in Hu'. destruct (decide (qt' = qt)) as [->|Hne].
    + rewrite lookup_insert_eq in Hu'. injection Hu' as <-.
      rewrite Hl in Hl'. injection Hl' as <-.
      exact (Hin qt l u Hl Hu).
    + rewrite lookup_insert_ne in Hu' by done. by apply (Hin qt').
Qed.

Lemma client_usage_stays_within_limits_witness :
  let now := datetime.mkDatetime 2024 1 1 10 0 0 0 in
  let l := Quota.QuotaLimit_init Quota.REQUESTS_PER_HOUR 10 Quota.HOURLY None None
             false 4 in
  let cq := ClientQuota.__init__ "c" {[ Quota.REQUESTS_PER_HOUR := l ]} now in
  within_limits cq
  /\ within_limits
       (ClientQuota.consume_quota Quota.REQUESTS_PER_HOUR 12 now cq).1.
Proof.
  intros now l cq.
  assert (H : within_limits cq).
  { intros qt l' u' Hl Hu. unfold cq, ClientQuota.__init__ in *. simpl in *.
    rewrite map_fmap_singleton in Hu.
    apply lookup_singleton_Some in Hl as [<- <-].
    apply lookup_singleton_Some in Hu as [_ <-].
    simpl. lia. }
  exact (conj H (client_usage_stays_within_limits cq Quota.REQUESTS_PER_HOUR 12 now H)).
Defined.

(** X17.  Burst use is charged twice.  Once a grant has taken usage above
    limit plus rollover, the code records the excess as [burst_used] and
    also keeps it in [current_usage]; the next consumption is therefore
    granted exactly when the amount plus twice the recorded burst use fits
    in the burst allowance, although usage plus amount may still be within
    limit plus rollover plus allowance. *)
Theorem burst_use_is_charged_twice
    (cq : ClientQuota.t) (qt : Quota.QuotaType) (amount : Z) (now : datetime.t)
    (l : Quota.QuotaLimit) (u : Quota.QuotaUsage) :
  ClientQuota._lock cq = false ->
  ClientQuota.quota_limits cq !! qt = Some l ->
  ClientQuota.quota_usage cq !! qt = Some u ->
  ClientQuota.reset_needed l u now = false ->
  Quota.burst_used u
  = Quota.current_usage u - (Quota.limit l + Quota.rollover_balance u) ->
  ((ClientQuota.consume_quota qt amount now cq).2 = Quota.Returned true
   <-> amount + 2 * Quota.burst_used u <= Quota.burst_allowance l)
  /\ (forall u',
        ClientQuota.quota_usage (ClientQuota.consume_quota qt amount now cq).1 !! qt
        = Some u' ->
        Quota.limit l + Quota.rollover_balance u < Quota.current_usage u' ->
        Quota.current_usage u < Quota.current_usage u' ->
        Quota.burst_used u'
        = Quota.current_usage u' - (Quota.limit l + Quota.rollover_balance u')).
Proof.
  intros Hlock Hl Hu Hreset Hburst.
  destruct (consume_without_reset cq qt amount now l u Hlock Hl Hu Hreset)
    as [Hpass Hfail].
  unfold ClientQuota.available_quota in *. split.
  - split.
    + intros Hr.
      destruct (Z_le_gt_dec (Quota.current_usage u + amount)
                  (Quota.limit l + Quota.rollover_balance u
                   + (Quota.burst_allowance l - Quota.burst_used u))) as [Hle|Hgt].
      * lia.
      * rewrite Hfail in Hr by lia. discriminate.
    + intros Hle. apply Hpass. lia.
  - intros u' Hu' Habove Hgrew.
    destruct (consume_usage cq qt amount now) as [_ Huse].
    destruct Huse as [Hsame | (l0 & u0 & Hl0 & Hu0 & [[Hle Hnew] | Hnew])].
    + rewrite Hsame, Hu in Hu'. injection Hu' as <-. lia.
    + rewrite Hl in Hl0. injection Hl0 as <-. rewrite Hu in Hu0. injection Hu0 as <-.
      rewrite Hnew, lookup_insert_eq in Hu'. injection Hu' as <-. cbn in *.
      destruct (Z.ltb_spec (Quota.limit l + Quota.rollover_balance u)
                  (Quota.current_usage u + amount)); lia.
    + rewrite Hu in Hu0. injection Hu0 as <-.
      rewrite Hnew, lookup_insert_eq in Hu'. injection Hu' as <-. cbn in *. lia.
Qed.

Lemma burst_use_is_charged_twice_witness :
  let now := datetime.mkDatetime 2024 1 1 10 0 0 0 in
  let l := Quota.QuotaLimit_init Quota.REQUESTS_PER_HOUR 10 Quota.HOURLY None None
             false 4 in
  let cq0 := ClientQuota.__init__ "c" {[ Quota.REQUESTS_PER_HOUR := l ]} now in
  let cq := (ClientQuota.consume_quota Quota.REQUESTS_PER_HOUR 12 now cq0).1 in
  let u := Quota.mkUsage 12 12 now true false 2 0 [(now, 12)] in
  ClientQuota.quota_usage cq !! Quota.REQUESTS_PER_HOUR = Some u
  /\ ((ClientQuota.consume_quota Quota.REQUESTS_PER_HOUR 1 now cq).2
      = Quota.Returned true
      <-> 1 + 2 * Quota.burst_used u <= Quota.burst_allowance l).
Proof.
  intros now l cq0 cq u.
  assert (Hl : ClientQuota.quota_limits cq !! Quota.REQUESTS_PER_HOUR = Some l)
    by (vm_compute; reflexivity).
  assert (Hu : ClientQuota.quota_usage cq !! Quota.REQUESTS_PER_HOUR = Some u)
    by (vm_compute; reflexivity).
  refine (conj Hu _).
  exact (proj1 (burst_use_is_charged_twice cq Quota.REQUESTS_PER_HOUR 1 now l u
                  eq_refl Hl Hu eq_refl eq_refl)).
Defined.

(** X18.  While no reset is due, [ClientQuota.check_quota_available]
    changes nothing in the client's quota and answers what
    [consume_quota] would do with the same amount: it reports the amount as
    available exactly when the consumption would be granted. *)
Theorem check_available_agrees_with_consume
    (cq : ClientQuota.t) (qt : Quota.QuotaType) (amount : Z) (now : datetime.t)
    (l : Quota.QuotaLimit) (u : Quota.QuotaUsage) :
  ClientQuota._lock cq = false ->
  ClientQuota.quota_limits cq !! qt = Some l ->
  ClientQuota.quota_usage cq !! qt = Some u ->
  ClientQuota.reset_needed l u now = false ->
  let remaining := ClientQuota.available_quota l u - Quota.current_usage u in
  ClientQuota.check_quota_available qt amount now cq
  = (cq, Quota.Returned (amount <=? remaining, Some remaining))
  /\ ((amount <=? remaining) = true
      <-> (ClientQuota.consume_quota qt amount now cq).2 = Quota.Returned true).
Proof.
  intros Hlock Hl Hu Hreset. cbv zeta. split.
  - unfold ClientQuota.check_quota_available, ClientQuota._check_reset_needed.
    rewrite Hlock, Hl. cbn [ClientQuota.with_lock ClientQuota.quota_limits
                            ClientQuota.quota_usage].
    rewrite Hl, Hu, Hreset. cbn [ClientQuota.with_lock ClientQuota.quota_limits
                                 ClientQuota.quota_usage].
    rewrite Hl, Hu.
    change (ClientQuota.mkClientQuota (ClientQuota.client_id cq)
              (ClientQuota.quota_limits cq) (ClientQuota.quota_usage cq) true)
      with (ClientQuota.with_lock true cq).
    by rewrite unlock_after_lock.
  - destruct (consume_without_reset cq qt amount now l u Hlock Hl Hu Hreset)
      as [Hpass Hfail].
    split.
    + intros H. apply Z.leb_le in H. apply Hpass. lia.
    + intros Hr. apply Z.leb_le.
      destruct (Z_le_gt_dec (Quota.current_usage u + amount)
                  (ClientQuota.available_quota l u)) as [Hle|Hgt]; [lia|].
      rewrite Hfail in Hr by lia. discriminate.
Qed.

Lemma check_available_agrees_with_consume_witness :
  let now := datetime.mkDatetime 2024 1 1 10 0 0 0 in
  let l := Quota.QuotaLimit_init Quota.REQUESTS_PER_HOUR 10 Quota.HOURLY None None
             false 4 in
  let cq := ClientQuota.__init__ "c" {[ Quota.REQUESTS_PER_HOUR := l ]} now in
  (ClientQuota.check_quota_available Quota.REQUESTS_PER_HOUR 15 now cq).1 = cq
  /\ (ClientQuota.check_quota_available Quota.REQUESTS_PER_HOUR 15 now cq).2
     = Quota.Returned (false, Some 14).
Proof.
  intros now l cq.
  pose proof (proj1 (check_available_agrees_with_consume cq Quota.REQUESTS_PER_HOUR
                       15 now l (Quota.QuotaUsage_init now)
                       eq_refl eq_refl eq_refl eq_refl)) as H.
  cbv zeta in H. rewrite H. split; reflexivity.
Defined.

Section ManagerIsolationFacts.

Import Quota QuotaManager.

(* The client an operation is made for. *)
Definition op_client (o : op) : string :=
  match o with
  | ConsumeQuota c _ _ | CheckQuotaAvailable c _ _
  | SetClientQuotas c _ | ResetClientQuotas c _ => c
  end.

Lemma client_layer_keeps_others {A} (client other : string) (now : datetime.t)
    (m : t) (f : ClientQuota.t -> ClientQuota.t * outcome A) :
  other <> client ->
  let r := (let '(m2, cq) := get_client_quota client now m in
            let '(cq', r) := f cq in (put_client client cq' m2, r)) in
  client_quotas r.1 !! other = client_quotas m !! other.
Proof.
  intros Hne. unfold get_client_quota.
  destruct (client_quotas m !! client) as [cq|]; simpl.
  - destruct (f cq). simpl. by rewrite lookup_insert_ne.
  - destruct (f _). simpl. by rewrite !lookup_insert_ne.
Qed.

Lemma step_keeps_others (now : datetime.t) (m : t) (o : op) (other : string) :
  other <> op_client o ->
  client_quotas (step now m o) !! other = client_quotas m !! other.
Proof.
  intros Hne. destruct o as [c qt a | c qt a | c qs | c qt]; simpl in *.
  - unfold consume_quota.
    destruct (global_quotas m !! qt) as [gl|].
    + destruct (global_usage m !! qt) as [u|]; [|done].
      destruct (limit gl <? current_usage u + a); [done|].
      by rewrite (client_layer_keeps_others c other now _
                    (ClientQuota.consume_quota qt a now) Hne).
    + by rewrite (client_layer_keeps_others c other now _
                    (ClientQuota.consume_quota qt a now) Hne).
  - unfold check_quota_available.
    pose proof (client_layer_keeps_others c other now m
                  (ClientQuota.check_quota_available qt a now) Hne) as H.
    destruct (global_quotas m !! qt) as [gl|]; [|done].
    destruct (global_usage m !! qt) as [u|]; [|done].
    by destruct (limit gl - current_usage u <? a).
  - unfold set_client_quotas, put_client. simpl. by rewrite lookup_insert_ne.
  - unfold reset_client_quotas.
    destruct (client_quotas m !! c) as [cq|]; [|done].
    destruct (match qt with Some q => _ | None => _ end) as [cq' r].
    simpl. by rewrite lookup_insert_ne.
Qed.

End ManagerIsolationFacts.

(** X19.  The quota manager charges the global usage before it consults
    the client's own quota and gives nothing back: whenever the global
    limit has room for the amount, the global usage of the quota type grows
    by the amount whatever the client layer then answers, also when it
    refuses the request or never returns. *)
Theorem global_usage_is_charged_before_client_answer
    (client : string) (qt : Quota.QuotaType) (amount : Z) (now : datetime.t)
    (m : QuotaManager.t) (gl : Quota.QuotaLimit) (gu : Quota.QuotaUsage) :
  QuotaManager.global_quotas m !! qt = Some gl ->
  QuotaManager.global_usage m !! qt = Some gu ->
  Quota.current_usage gu + amount <= Quota.limit gl ->
  QuotaManager.global_current_usage qt
    (QuotaManager.consume_quota client qt amount now m).1
  = Quota.current_usage gu + amount.
Proof.
  intros Hgl Hgu Hroom.
  destruct (consume_global client qt amount now m) as [_ H].
  rewrite Hgl, Hgu in H.
  destruct (Z.ltb_spec (Quota.limit gl) (Quota.current_usage gu + amount)); [lia|].
  unfold QuotaManager.global_current_usage. by rewrite H, lookup_insert_eq.
Qed.

Lemma global_usage_is_charged_before_client_answer_witness :
  let now := datetime.mkDatetime 2024 1 1 10 0 0 0 in
  let m := QuotaManager.__init__ QuotaManager.config_defaults now in
  let r := QuotaManager.consume_quota "c" Quota.QUERIES_PER_HOUR 600 now m in
  (exists cu av rt,
     r.2 = Quota.QuotaExceededError false Quota.QUERIES_PER_HOUR cu av rt)
  /\ QuotaManager.global_current_usage Quota.QUERIES_PER_HOUR m = 0
  /\ QuotaManager.global_current_usage Quota.QUERIES_PER_HOUR r.1 = 600.
Proof.
  intros now m r.
  refine (conj _ (conj eq_refl _)).
  - eexists _, _, _. vm_compute. reflexivity.
  - exact (global_usage_is_charged_before_client_answer "c" Quota.QUERIES_PER_HOUR
             600 now m
             (Quota.QuotaLimit_init Quota.QUERIES_PER_HOUR 50000 Quota.HOURLY
                (Some 40000) None false 0)
             (Quota.QuotaUsage_init now) eq_refl eq_refl ltac:(simpl; lia)).
Defined.

(** X20.  Operations made for one client never touch the quota record the
    manager keeps for another: over any run of consumptions, checks,
    quota replacements and resets, a client none of them names keeps the
    record it had, or stays without one. *)
Theorem operations_leave_other_clients_alone
    (ops : list (datetime.t * QuotaManager.op)) (other : string)
    (m : QuotaManager.t) :
  Forall (fun e => op_client e.2 <> other) ops ->
  QuotaManager.client_quotas (QuotaManager.run ops m) !! other
  = QuotaManager.client_quotas m !! other.
Proof.
  revert m. induction ops as [|[now o] ops IH]; intros m Hall; [done|].
  inversion Hall as [|? ? Ho Hrest]; subst. simpl in Ho.
  change (QuotaManager.run ((now, o) :: ops) m)
    with (QuotaManager.run ops (QuotaManager.step now m o)).
  rewrite (IH _ Hrest). apply step_keeps_others. congruence.
Qed.

Lemma operations_leave_other_clients_alone_witness :
  let now := datetime.mkDatetime 2024 1 1 10 0 0 0 in
  let m := (QuotaManager.get_client_quota "b" now
              (QuotaManager.__init__ QuotaManager.config_defaults now)).1 in
  let ops := [(now, QuotaManager.ConsumeQuota "a" Quota.QUERIES_PER_HOUR 600);
              (now, QuotaManager.ResetClientQuotas "a" None);
              (now, QuotaManager.SetClientQuotas "a" ∅)] in
  Forall (fun e => op_client e.2 <> "b"%string) ops
  /\ QuotaManager.client_quotas (QuotaManager.run ops m) !! "b"%string
     = QuotaManager.client_quotas m !! "b"%string.
Proof.
  intros now m ops.
  assert (H : Forall (fun e => op_client e.2 <> "b"%string) ops)
    by (repeat constructor; discriminate).
  exact (conj H (operations_leave_other_clients_alone ops "b" m H)).
Defined.

(** ** SQL validator: which stage decides *)

Section ValidatorStageFacts.

Import SQLValidator.

Lemma blocked_high_or_critical (c : Config) (r : SQLInjectionRisk) :
  (3 <= risk_index r)%nat -> blocked c r = true.
Proof. destruct r; simpl; try lia; intros _; unfold blocked; simpl; done. Qed.

Lemma nonempty_snoc {A} (l : list A) (x : A) : is_nil (l ++ [x]) = false.
Proof. by destruct l. Qed.

End ValidatorStageFacts.

(** X21.  A query longer than [max_query_length] is never shown to the
    pattern matcher: its result is the same for every regular-expression
    engine, its risk is MEDIUM whatever it contains, and it is valid exactly
    when strict validation is off. *)
Theorem overlong_query_skips_pattern_analysis
    (re_search re_search' : string -> string -> bool)
    (tokenize : string -> option (list SQLValidator.Token))
    (parse : string -> option (list SQLValidator.Expression))
    (c : SQLValidator.Config) (query : string) :
  SQLValidator.max_query_length c < Z.of_nat (String.length query) ->
  let r := SQLValidator.validate_query re_search tokenize parse c query in
  r = SQLValidator.validate_query re_search' tokenize parse c query
  /\ SQLValidator.risk_level r = SQLValidator.MEDIUM
  /\ SQLValidator.is_valid r = negb (SQLValidator.strict_validation c)
  /\ In "Query too long"%string (SQLValidator.violations r).
Proof.
  intros Hlong. cbv zeta. unfold SQLValidator.validate_query.
  rewrite (proj2 (Z.ltb_lt _ _) Hlong).
  assert (Hb : SQLValidator.blocked c SQLValidator.MEDIUM
               = SQLValidator.strict_validation c)
    by (unfold SQLValidator.blocked; simpl; by destruct (SQLValidator.strict_validation c)).
  destruct (SQLValidator.blank query); cbn [SQLValidator.is_nil app orb negb];
    rewrite ?Hb;
    destruct (SQLValidator.strict_validation c) eqn:Hs; cbn [negb orb];
    rewrite ?Hb, ?Hs; cbn [negb orb SQLValidator.is_nil app];
    rewrite ?Hb, ?Hs; cbn [negb orb].
  all: try (destruct (SQLValidator.analyze_tokens tokenize query
                        (SQLValidator.readonly_mode c)) as [tv qt]).
  all: try (destruct (SQLValidator.validate_structure parse query) as [|sv svs]).
  all: try destruct tv; cbn; rewrite ?Hb, ?Hs; cbn; rewrite ?Hb, ?Hs; cbn.
  all: repeat split; auto; try (rewrite ?app_nil_r; apply in_or_app; simpl; auto).
Qed.

Lemma overlong_query_skips_pattern_analysis_witness :
  let tokenize := fun _ : string => Some [SQLValidator.mkToken SQLValidator.SELECT "SELECT"] in
  let parse := fun _ : string => Some [SQLValidator.Node "Select" None []] in
  let c := SQLValidator.mkConfig 5 true false in
  let query := "SELECT 1 UNION SELECT 2"%string in
  SQLValidator.max_query_length c < Z.of_nat (String.length query)
  /\ SQLValidator.is_valid
       (SQLValidator.validate_query (fun _ _ => true) tokenize parse c query) = true.
Proof.
  intros tokenize parse c query.
  assert (H : SQLValidator.max_query_length c < Z.of_nat (String.length query))
    by (vm_compute; reflexivity).
  refine (conj H _).
  exact (proj1 (proj2 (proj2
    (overlong_query_skips_pattern_analysis (fun _ _ => true) (fun _ _ => false)
       tokenize parse c query H)))).
Defined.

Section PatternTierFacts.

Import SQLValidator.

Variable re_search : string -> string -> bool.

(* The pattern list whose matches a risk level reports. *)
Definition tier (r : SQLInjectionRisk) : list string :=
  match r with
  | CRITICAL => critical_patterns
  | HIGH => high_risk_patterns
  | MEDIUM => medium_risk_patterns
  | LOW => low_risk_patterns
  | NONE => []
  end.

Lemma is_nil_map {A B} (f : A -> B) (l : list A) : is_nil (map f l) = is_nil l.
Proof. by destruct l. Qed.

Lemma analyze_query_tiers (query : string) :
  let risk := (analyze_query re_search query).1 in
  let v := (analyze_query re_search query).2 in
  length v = length (matching re_search (tier risk) query)
  /\ is_nil v = risk_eqb risk NONE
  /\ (forall r, (risk_index risk < risk_index r)%nat ->
                matching re_search (tier r) query = []).
Proof.
  cbv zeta. unfold analyze_query.
  destruct (matching re_search critical_patterns query) as [|c cs] eqn:Ec;
    cbn [is_nil risk_eqb risk_index Nat.eqb orb map app fst snd tier].
  2:{ rewrite ?app_nil_r, ?Ec. cbn [length]. rewrite ?length_map.
      refine (conj eq_refl (conj eq_refl _)). intros r Hr. destruct r; simpl in Hr; lia. }
  destruct (matching re_search high_risk_patterns query) as [|h hs] eqn:Eh;
    cbn [is_nil risk_eqb risk_index Nat.eqb orb map app fst snd tier].
  2:{ rewrite ?app_nil_r, ?Eh. cbn [length]. rewrite ?length_map.
      refine (conj eq_refl (conj eq_refl _)). intros r Hr.
      destruct r; simpl in Hr; try lia. exact Ec. }
  destruct (matching re_search medium_risk_patterns query) as [|m ms] eqn:Em;
    cbn [is_nil risk_eqb risk_index Nat.eqb orb map app fst snd tier].
  2:{ rewrite ?app_nil_r, ?Em. cbn [length]. rewrite ?length_map.
      refine (conj eq_refl (conj eq_refl _)). intros r Hr.
      destruct r; simpl in Hr; try lia; assumption. }
  destruct (matching re_search low_risk_patterns query) as [|l ls] eqn:El;
    cbn [is_nil risk_eqb risk_index Nat.eqb orb map app fst snd tier].
  - refine (conj eq_refl (conj eq_refl _)). intros r Hr.
    destruct r; simpl in Hr; try lia; assumption.
  - rewrite ?El. cbn [length]. rewrite ?length_map.
    refine (conj eq_refl (conj eq_refl _)). intros r Hr.
    destruct r; simpl in Hr; try lia; assumption.
Qed.

End PatternTierFacts.

(** X22.  The pattern matcher reports one tier only, the most severe one
    with a match: its violations are the matches of the pattern list of the
    risk level it returns, one per matching pattern; no pattern of a more
    severe list matches; and it reports no violation exactly when the risk
    is NONE. *)
Theorem pattern_matcher_reports_most_severe_tier_only
    (re_search : string -> string -> bool) (query : string) :
  let risk := (SQLValidator.analyze_query re_search query).1 in
  let v := (SQLValidator.analyze_query re_search query).2 in
  length v = length (SQLValidator.matching re_search (tier risk) query)
  /\ (v = [] <-> risk = SQLValidator.NONE)
  /\ (forall r, (SQLValidator.risk_index risk < SQLValidator.risk_index r)%nat ->
                SQLValidator.matching re_search (tier r) query = []).
Proof.
  cbv zeta. destruct (analyze_query_tiers re_search query) as (H1 & H2 & H3).
  cbv zeta in *. refine (conj H1 (conj _ H3)).
  destruct (SQLValidator.analyze_query re_search query) as [risk v]. simpl in *.
  destruct v, risk; simpl in H2; try discriminate; split; try done.
Qed.

(** X23.  A blank query and a query the pattern matcher rates HIGH or
    CRITICAL are rejected by every configuration without being tokenized or
    parsed: the result carries that risk, the query type UNKNOWN and the
    violations found so far only. *)
Theorem high_risk_verdict_is_final
    (re_search : string -> string -> bool)
    (tokenize : string -> option (list SQLValidator.Token))
    (parse : string -> option (list SQLValidator.Expression))
    (c : SQLValidator.Config) (query : string) :
  Z.of_nat (String.length query) <= SQLValidator.max_query_length c ->
  (SQLValidator.blank query = true ->
   SQLValidator.validate_query re_search tokenize parse c query
   = SQLValidator.mkResult false SQLValidator.HIGH SQLValidator.QT_UNKNOWN
       ["Empty query"%string])
  /\ (SQLValidator.blank query = false ->
      (3 <= SQLValidator.risk_index (SQLValidator.analyze_query re_search query).1)%nat ->
      SQLValidator.validate_query re_search tokenize parse c query
      = SQLValidator.mkResult false (SQLValidator.analyze_query re_search query).1
          SQLValidator.QT_UNKNOWN (SQLValidator.analyze_query re_search query).2).
Proof.
  intros Hlen.
  assert (Hshort : (SQLValidator.max_query_length c <? Z.of_nat (String.length query))
                   = false) by (apply Z.ltb_ge; lia).
  split.
  - intros Hblank. unfold SQLValidator.validate_query. rewrite Hblank, Hshort.
    cbn [SQLValidator.is_nil orb].
    rewrite (blocked_high_or_critical c SQLValidator.HIGH) by (simpl; lia).
    cbn [negb]. by rewrite (blocked_high_or_critical c SQLValidator.HIGH) by (simpl; lia).
  - intros Hblank Hrisk. unfold SQLValidator.validate_query. rewrite Hblank, Hshort.
    cbn [SQLValidator.is_nil app].
    destruct (analyze_query_tiers re_search query) as (_ & Hnil & _). cbv zeta in Hnil.
    destruct (SQLValidator.analyze_query re_search query) as [risk v]. simpl in *.
    assert (Hmax : SQLValidator.risk_max SQLValidator.NONE risk = risk)
      by (destruct risk; simpl in Hrisk; try lia; reflexivity).
    rewrite Hmax, Hnil, (blocked_high_or_critical c risk Hrisk).
    assert (Hne : SQLValidator.risk_eqb risk SQLValidator.NONE = false)
      by (destruct risk; simpl in Hrisk; try lia; reflexivity).
    rewrite Hne. cbn [orb negb].
    rewrite Hnil, Hne, (blocked_high_or_critical c risk Hrisk). cbn [orb negb].
    by rewrite (blocked_high_or_critical c risk Hrisk).
Qed.

Lemma high_risk_verdict_is_final_witness :
  let re_search := fun p _ : string => String.eqb p "xp_cmdshell" in
  let tokenize := fun _ : string => Some [SQLValidator.mkToken SQLValidator.SELECT "SELECT"] in
  let parse := fun _ : string => Some [SQLValidator.Node "Select" None []] in
  let c := SQLValidator.mkConfig 10000 false false in
  let query := "SELECT xp_cmdshell"%string in
  Z.of_nat (String.length query) <= SQLValidator.max_query_length c
  /\ SQLValidator.is_valid
       (SQLValidator.validate_query re_search tokenize parse c query) = false.
Proof.
  intros re_search tokenize parse c query.
  assert (H : Z.of_nat (String.length query) <= SQLValidator.max_query_length c)
    by (vm_compute; discriminate).
  refine (conj H _).
  rewrite (proj2 (high_risk_verdict_is_final re_search tokenize parse c query H)
             eq_refl ltac:(vm_compute; lia)).
  reflexivity.
Defined.

(** X24.  In read-only mode with strict validation on, a query whose first
    statement verb is a write verb is rejected, whatever the pattern
    matcher and the parser make of it. *)
Theorem strict_readonly_gate_rejects_write_verbs
    (re_search : string -> string -> bool)
    (tokenize : string -> option (list SQLValidator.Token))
    (parse : string -> option (list SQLValidator.Expression))
    (c : SQLValidator.Config) (query : string) :
  SQLValidator.readonly_mode c = true ->
  SQLValidator.strict_validation c = true ->
  SQLValidator.first_verb_is_write tokenize query ->
  SQLValidator.is_valid (SQLValidator.validate_query re_search tokenize parse c query)
  = false.
Proof. apply readonly_strict_rejects_write_verb. Qed.

Lemma strict_readonly_gate_rejects_write_verbs_witness :
  let toks := [SQLValidator.mkToken SQLValidator.DELETE "DELETE";
               SQLValidator.mkToken (SQLValidator.OTHER "FROM") "FROM";
               SQLValidator.mkToken (SQLValidator.OTHER "VAR") "t"] in
  let tokenize := fun _ : string => Some toks in
  let parse := fun _ : string => Some [SQLValidator.Node "Delete" (Some "t"%string) []] in
  let c := SQLValidator.mkConfig 10000 true true in
  SQLValidator.first_verb_is_write tokenize "DELETE FROM t"
  /\ SQLValidator.is_valid
       (SQLValidator.validate_query (fun _ _ => false) tokenize parse c "DELETE FROM t")
     = false.
Proof.
  intros toks tokenize parse c.
  assert (H : SQLValidator.first_verb_is_write tokenize "DELETE FROM t").
  { eexists _, [], _, _. split; [reflexivity|]. split; [reflexivity|].
    split; [constructor|]. vm_compute. set_solver. }
  exact (conj H (strict_readonly_gate_rejects_write_verbs (fun _ _ => false)
                   tokenize parse c "DELETE FROM t" eq_refl eq_refl H)).
Defined.

(** X25.  With strict validation off, nothing the token analyzer or the
    structure validator finds can reject a query: a query that is not blank
    and that the pattern matcher rates MEDIUM at most is valid, and its
    final risk is MEDIUM at most. *)
Theorem token_and_structure_findings_never_reject_without_strict
    (re_search : string -> string -> bool)
    (tokenize : string -> option (list SQLValidator.Token))
    (parse : string -> option (list SQLValidator.Expression))
    (c : SQLValidator.Config) (query : string) :
  SQLValidator.strict_validation c = false ->
  SQLValidator.blank query = false ->
  (SQLValidator.risk_index (SQLValidator.analyze_query re_search query).1 <= 2)%nat ->
  let r := SQLValidator.validate_query re_search tokenize parse c query in
  SQLValidator.is_valid r = true
  /\ (SQLValidator.risk_index (SQLValidator.risk_level r) <= 2)%nat.
Proof.
  intros Hstrict Hblank Hrisk. cbv zeta.
  pose proof (lenient_mode_accepts_up_to_medium re_search tokenize parse c query
                Hstrict Hblank Hrisk) as Hvalid.
  split; [exact Hvalid|].
  unfold SQLValidator.validate_query in *.
  destruct (if SQLValidator.blank query then _ else _) as [v1 r1].
  destruct (if SQLValidator.max_query_length c <? _ then _ else _) as [v2 r2].
  destruct (if SQLValidator.is_nil v2 then _ else _) as [v3 r3].
  destruct (if SQLValidator.is_nil v3 || _ then _ else _) as [[v4 r4] qt].
  destruct (if SQLValidator.is_nil v4 || _ then _ else _) as [v5 r5].
  cbn [SQLValidator.is_valid SQLValidator.risk_level] in *.
  apply negb_true_iff in Hvalid. unfold SQLValidator.blocked in Hvalid.
  destruct r5; cbn in Hvalid |- *; try lia; discriminate.
Qed.

Lemma token_and_structure_findings_never_reject_without_strict_witness :
  let toks := [SQLValidator.mkToken SQLValidator.DROP "DROP";
               SQLValidator.mkToken (SQLValidator.OTHER "TABLE") "TABLE";
               SQLValidator.mkToken (SQLValidator.OTHER "VAR") "t"] in
  let tokenize := fun _ : string => Some toks in
  let parse := fun _ : string => None in
  let c := SQLValidator.mkConfig 10000 true false in
  SQLValidator.is_valid
    (SQLValidator.validate_query (fun _ _ => false) tokenize parse c "DROP TABLE t")
  = true.
Proof.
  intros toks tokenize parse c.
  exact (proj1 (token_and_structure_findings_never_reject_without_strict
                  (fun _ _ => false) tokenize parse c "DROP TABLE t"
                  eq_refl eq_refl ltac:(vm_compute; lia))).
Defined.

(** ** Backoff: delay bounds, the Fibonacci schedule, retrying, adapting *)

Section DelayFacts.

Import Backoff.

Variable random : nat -> Q.

Lemma scaled_within (delay r : Q) :
  (0 <= r)%Q -> (r <= 1)%Q ->
  (0 <= delay -> delay * r <= delay)%Q /\ (delay <= 0 -> delay * r <= 0)%Q.
Proof.
  intros H0 H1. split; intros Hd.
  - assert (0 <= delay * (1 - r))%Q by (apply Qmult_le_0_compat; lra).
    assert (delay * (1 - r) == delay - delay * r)%Q by ring. lra.
  - assert (0 <= (- delay) * r)%Q by (apply Qmult_le_0_compat; lra).
    assert ((- delay) * r == - (delay * r))%Q by ring. lra.
Qed.

Lemma Qmax_0_le (x M : Q) : (x <= Qmax 0 M -> Qmax 0 x <= Qmax 0 M)%Q.
Proof. intros H. apply Q.max_lub; [apply Q.le_max_l | exact H]. Qed.

Lemma capped_le_max (x M : Q) : (x <= M -> x <= Qmax 0 M)%Q.
Proof. intros H. apply Qle_trans with M; [exact H | apply Q.le_max_r]. Qed.

Lemma calculate_delay_bounds (c : BackoffConfig) (attempt k : nat) (d : Q) (k' : nat) :
  _calculate_delay random c attempt k = (Value d, k') ->
  (0 <= d)%Q
  /\ ((forall j, 0 <= random j /\ random j <= 1)%Q ->
      jitter c = false \/ jitter_type c = "full"%string
      \/ jitter_type c = "equal"%string ->
      (d <= Qmax 0 (max_delay c))%Q).
Proof.
  intros H.
  assert (Hshape :
    exists d0 x, base_delay c attempt = Value d0 /\ d = Qmax 0 x
      /\ ((forall j, 0 <= random j /\ random j <= 1)%Q ->
          jitter c = false \/ jitter_type c = "full"%string
          \/ jitter_type c = "equal"%string ->
          (x <= Qmax 0 (max_delay c))%Q)).
  { destruct attempt as [|prev]; cbn [_calculate_delay] in H.
    all: destruct (base_delay c _) as [d0| |]; [|discriminate..].
    all: exists d0.
    all: pose proof (Q.le_min_r d0 (max_delay c)) as Hcap.
    all: destruct (jitter c) eqn:Hj.
    all: try (injection H as <- _; eexists; split; [reflexivity|];
              split; [reflexivity|]; intros _ _; by apply capped_le_max).
    all: destruct (String.eqb (jitter_type c) "full") eqn:Hfull.
    all: try (injection H as <- _; eexists; split; [reflexivity|];
              split; [reflexivity|]; intros Hr _; unfold uniform;
              destruct (Hr k) as [Hr0 Hr1];
              destruct (scaled_within (Qmin d0 (max_delay c)) (random k) Hr0 Hr1)
                as [Hpos Hneg];
              pose proof (Q.le_max_l 0 (max_delay c));
              pose proof (Q.le_max_r 0 (max_delay c));
              destruct (Qlt_le_dec (Qmin d0 (max_delay c)) 0);
              [specialize (Hneg ltac:(lra)) | specialize (Hpos ltac:(lra))]; lra).
    all: destruct (String.eqb (jitter_type c) "equal") eqn:Hequal.
    all: try (injection H as <- _; eexists; split; [reflexivity|];
              split; [reflexivity|]; intros Hr _; unfold uniform;
              destruct (Hr k) as [Hr0 Hr1];
              destruct (scaled_within (Qmin d0 (max_delay c) / 2) (random k) Hr0 Hr1)
                as [Hpos Hneg];
              pose proof (Q.le_max_l 0 (max_delay c));
              pose proof (Q.le_max_r 0 (max_delay c));
              assert (Qmin d0 (max_delay c) / 2 * 2 == Qmin d0 (max_delay c))%Q
                by (field; discriminate);
              destruct (Qlt_le_dec (Qmin d0 (max_delay c)) 0);
              [specialize (Hneg ltac:(lra)) | specialize (Hpos ltac:(lra))]; lra).
    all: destruct (String.eqb (jitter_type c) "decorrelated").
    all: try (destruct (_calculate_delay random c prev k) as [[v| |] k1];
              [|discriminate..]).
    all: injection H as <- _; eexists; split; [reflexivity|];
      split; [reflexivity|]; intros _ [E|[E|E]];
      [discriminate | rewrite E in Hfull; discriminate
                    | rewrite E in Hequal; discriminate]. }
  destruct Hshape as (d0 & x & _ & -> & Hx).
  split; [apply Q.le_max_l|].
  intros Hr Hc. apply Qmax_0_le. by apply Hx.
Qed.



End DelayFacts.

(** X26.  No delay the schedule computes is negative, for any
    configuration and random source; and with a random source in [0, 1] the
    delay is at most [max_delay] (or 0 when that is negative) when jitter is
    off or of the full or the equal kind.  The decorrelated and the default
    kind of jitter are applied after the cap and are not covered by it. *)
Theorem delay_is_nonnegative_and_capped_by_max_delay
    (random : nat -> Q) (c : Backoff.BackoffConfig) (attempt k : nat)
    (d : Q) (k' : nat) :
  Backoff._calculate_delay random c attempt k = (Backoff.Value d, k') ->
  (0 <= d)%Q
  /\ ((forall j, 0 <= random j /\ random j <= 1)%Q ->
      Backoff.jitter c = false \/ Backoff.jitter_type c = "full"%string
      \/ Backoff.jitter_type c = "equal"%string ->
      (d <= Qmax 0 (Backoff.max_delay c))%Q).
Proof. apply calculate_delay_bounds. Qed.

Lemma delay_is_nonnegative_and_capped_by_max_delay_witness :
  let c := Backoff.mkConfig Backoff.EXPONENTIAL 1 60 5 2 (300) 1 2 1 true "full"
             (1 # 10) None None in
  let random := fun _ : nat => (1 # 2)%Q in
  exists d k',
    Backoff._calculate_delay random c 3 0 = (Backoff.Value d, k')
    /\ (0 <= d)%Q /\ (d <= Qmax 0 (Backoff.max_delay c))%Q.
Proof.
  intros c random. eexists _, _.
  assert (H : Backoff._calculate_delay random c 3 0
              = (Backoff.Value (Qmax 0 (Backoff.uniform random 0
                                          (Qmin (Qmin (1 * 2 ^ 3) 300) 60) 0)), 1%nat))
    by reflexivity.
  refine (conj H _).
  destruct (delay_is_nonnegative_and_capped_by_max_delay random c 3 0 _ _ H)
    as [H0 Hcap].
  refine (conj H0 (Hcap _ _)).
  - intros j. unfold random. split; vm_compute; discriminate.
  - right. left. reflexivity.
Defined.


Section RetryFacts.

Import Backoff RetryWithBackoff.

Variable random : nat -> Q.
Variable func : nat -> func_result.
Variable took : nat -> Q.
Variable stop_iteration : exn.
Variable zero_division : exn.

(* What a run of the retry loop that starts with [calls] invocations made
   has done when it ends. *)
Definition retry_outcome (calls budget : nat) (r : wrapper_result * nat) : Prop :=
  (calls <= r.2 <= calls + budget)%nat
  /\ (forall v, r.1 = Returned v ->
        exists n, r.2 = S n /\ (calls <= n)%nat /\ func n = Returns v
          /\ forall i, (calls <= i < n)%nat ->
               exists e, func i = Throws e /\ retryable e = true /\ stopping e = false)
  /\ (forall e, r.1 = Propagated e -> stopping e = true \/ retryable e = false).

Lemma attempts_outcome (remaining : nat) :
  forall (attempt : nat) (now : Q) (b : Backoff.t) (calls : nat),
    retry_outcome calls remaining
      (attempts random func took stop_iteration zero_division
         remaining attempt now b calls).
Proof.
  induction remaining as [|n IH]; intros attempt now b calls.
  - simpl. unfold retry_outcome. simpl.
    split; [lia|]. split; intros ? H; discriminate.
  - assert (Hhandle : forall (e : exn) (now' : Q) (b' : Backoff.t) (calls' : nat),
              calls' = calls \/ (calls' = S calls /\ func calls = Throws e) ->
              retry_outcome calls (S n)
                (if stopping e || negb (retryable e) then (Propagated e, calls')
                 else attempts random func took stop_iteration zero_division
                        n (S attempt) now' b' calls')).
    { intros e now' b' calls' Hcalls.
      destruct (stopping e || negb (retryable e)) eqn:Hstop.
      - unfold retry_outcome. simpl. split; [lia|]. split.
        + intros ? H; discriminate.
        + intros e' [= <-]. apply orb_true_iff in Hstop as [H|H]; [by left|].
          right. by apply negb_true_iff in H.
      - apply orb_false_iff in Hstop as [Hs Hr]. apply negb_false_iff in Hr.
        destruct (IH (S attempt) now' b' calls') as (Hb & Hret & Hprop).
        unfold retry_outcome. split; [lia|]. split; [|exact Hprop].
        intros v Hv. destruct (Hret v Hv) as (m & Hm & Hle & Hf & Hbefore).
        exists m. split; [done|]. split; [lia|]. split; [done|].
        intros i Hi. destruct Hcalls as [->|[-> Hthrow]].
        + by apply Hbefore.
        + destruct (decide (i = calls)) as [->|Hne].
          * by exists e.
          * apply Hbefore. lia. }
    assert (Hinvoke : forall (now' : Q) (b' : Backoff.t),
              retry_outcome calls (S n)
                (match func calls with
                 | Returns v => (Returned v, S calls)
                 | Throws e =>
                     if stopping e || negb (retryable e)
                     then (Propagated e, S calls)
                     else attempts random func took stop_iteration zero_division
                            n (S attempt) (now' + took calls)%Q b' (S calls)
                 end)).
    { intros now' b'. destruct (func calls) as [v|e] eqn:Hf.
      - unfold retry_outcome. simpl. split; [lia|]. split.
        + intros v' [= <-]. exists calls. split; [done|]. split; [lia|].
          split; [done|]. intros i Hi. lia.
        + intros ? H; discriminate.
      - apply Hhandle. by right. }
    cbn [attempts]. destruct attempt as [|prev].
    + apply Hinvoke.
    + destruct (__next__ random now b) as [b' [delay| |]].
      * apply Hinvoke.
      * apply Hhandle. by left.
      * apply Hhandle. by left.
Qed.

End RetryFacts.

(** X28.  The retry wrapper invokes the wrapped function at most
    [max_attempts] times and not at all when [max_attempts] is not
    positive, where it raises [BackoffError] at once.  When it returns a
    value, that is what the last invocation returned, and every invocation
    before it raised an exception that is retried and is no stop
    condition; an exception it lets through is a stop condition or not one
    it retries on. *)
Theorem retry_wrapper_invokes_at_most_max_attempts
    (random : nat -> Q) (func : nat -> RetryWithBackoff.func_result)
    (took : nat -> Q) (stop_iteration zero_division : RetryWithBackoff.exn)
    (c : Backoff.BackoffConfig) (now : Q) :
  let r := RetryWithBackoff.sync_wrapper random func took stop_iteration
             zero_division c now in
  Z.of_nat r.2 <= Z.max 0 (Backoff.max_attempts c)
  /\ (Backoff.max_attempts c <= 0 -> r = (RetryWithBackoff.BackoffError, 0%nat))
  /\ (forall v, r.1 = RetryWithBackoff.Returned v ->
        exists n, r.2 = S n /\ func n = RetryWithBackoff.Returns v
          /\ forall i, (i < n)%nat ->
               exists e, func i = RetryWithBackoff.Throws e
                         /\ RetryWithBackoff.retryable e = true
                         /\ RetryWithBackoff.stopping e = false)
  /\ (forall e, r.1 = RetryWithBackoff.Propagated e ->
        RetryWithBackoff.stopping e = true \/ RetryWithBackoff.retryable e = false).
Proof.
  cbv zeta. unfold RetryWithBackoff.sync_wrapper.
  destruct (attempts_outcome random func took stop_iteration zero_division
              (Z.to_nat (Backoff.max_attempts c)) 0 now
              (Backoff.mkBackoff c 0 now 0) 0) as (Hb & Hret & Hprop).
  split; [lia|]. split; [|split; [|exact Hprop]].
  - intros Hle. replace (Z.to_nat (Backoff.max_attempts c)) with 0%nat by lia.
    reflexivity.
  - intros v Hv. destruct (Hret v Hv) as (n & Hn & _ & Hf & Hbefore).
    exists n. split; [done|]. split; [done|]. intros i Hi. apply Hbefore. lia.
Qed.

Section RetryProgressFacts.

Import Backoff RetryWithBackoff.

Variable random : nat -> Q.
Variable func : nat -> func_result.
Variable took : nat -> Q.
Variable stop_iteration : exn.
Variable zero_division : exn.

(* The strategy delay is defined at every attempt: only a polynomial with a
   negative degree divides by zero, at attempt 0. *)
Definition delay_defined (c : BackoffConfig) : Prop :=
  strategy c <> POLYNOMIAL \/ 0 <= polynomial_degree c.

Lemma base_delay_defined (c : BackoffConfig) (attempt : nat) :
  delay_defined c -> exists d, base_delay c attempt = Value d.
Proof.
  intros Hd. unfold base_delay.
  destruct (strategy c) eqn:Hs; try (by eexists).
  - destruct Hd as [Hd|Hd]; [done|].
    destruct (Z.ltb_spec (polynomial_degree c) 0); [lia|].
    rewrite andb_false_r. by eexists.
  - destruct (custom_function c); by eexists.
Qed.

Lemma calculate_delay_defined (c : BackoffConfig) (attempt : nat) :
  delay_defined c ->
  forall k, exists d k', _calculate_delay random c attempt k = (Value d, k').
Proof.
  intros Hd. induction attempt as [|prev IH]; intros k; cbn [_calculate_delay].
  all: match goal with
       | |- context [base_delay ?c0 ?a] =>
           destruct (base_delay_defined c0 a Hd) as [d0 ->]
       end.
  all: destruct (jitter c); [|by eexists _, _].
  all: destruct (String.eqb (jitter_type c) "full"); [by eexists _, _|].
  all: destruct (String.eqb (jitter_type c) "equal"); [by eexists _, _|].
  all: destruct (String.eqb (jitter_type c) "decorrelated"); [|by eexists _, _].
  - by eexists _, _.
  - destruct (IH k) as (d & k' & ->). by eexists _, _.
Qed.

Lemma next_defined (b : Backoff.t) (now : Q) :
  delay_defined (config b) ->
  timeout_set (total_timeout (config b)) = None ->
  Z.of_nat (_attempt_count b) < max_attempts (config b) ->
  exists d k, __next__ random now b
              = (mkBackoff (config b) (S (_attempt_count b)) (_start_time b) k, Value d).
Proof.
  intros Hd Ht Hlt. unfold __next__.
  destruct (Z.leb_spec (max_attempts (config b)) (Z.of_nat (_attempt_count b))); [lia|].
  rewrite Ht.
  destruct (calculate_delay_defined (config b) (_attempt_count b) Hd (_rng b))
    as (d & k & ->).
  by exists d, k.
Qed.

Lemma attempts_reach_first_success (c : BackoffConfig) (v : Z) (remaining : nat) :
  delay_defined c ->
  timeout_set (total_timeout c) = None ->
  forall (m attempt : nat) (now : Q) (b : Backoff.t) (calls : nat),
    config b = c ->
    Z.of_nat (_attempt_count b) + Z.of_nat remaining <= max_attempts c ->
    (m < remaining)%nat ->
    func (calls + m) = Returns v ->
    (forall j, (j < m)%nat ->
       exists e, func (calls + j) = Throws e
                 /\ retryable e = true /\ stopping e = false) ->
    attempts random func took stop_iteration zero_division remaining attempt now b calls
    = (Returned v, S (calls + m)).
Proof.
  intros Hd Ht. induction remaining as [|n IH];
    intros m attempt now b calls Hc Hbudget Hm Hv Hbefore; [lia|].
  assert (Hinvoke : forall (now' : Q) (b' : Backoff.t),
            config b' = c ->
            Z.of_nat (_attempt_count b') + Z.of_nat n <= max_attempts c ->
            match func calls with
            | Returns v0 => (Returned v0, S calls)
            | Throws e =>
                if stopping e || negb (retryable e)
                then (Propagated e, S calls)
                else attempts random func took stop_iteration zero_division
                       n (S attempt) (now' + took calls)%Q b' (S calls)
            end = (Returned v, S (calls + m))).
  { intros now' b' Hc' Hbudget'. destruct m as [|m'].
    - rewrite Nat.add_0_r in Hv. rewrite Hv. by rewrite Nat.add_0_r.
    - destruct (Hbefore 0%nat ltac:(lia)) as (e & He & Hr & Hs).
      rewrite Nat.add_0_r in He. rewrite He, Hs, Hr. simpl.
      rewrite (IH m' (S attempt) _ b' (S calls) Hc' Hbudget' ltac:(lia)).
      + f_equal. lia.
      + by replace (S calls + m')%nat with (calls + S m')%nat by lia.
      + intros j Hj. destruct (Hbefore (S j) ltac:(lia)) as (e' & He' & H').
        exists e'. split; [|done].
        by replace (S calls + j)%nat with (calls + S j)%nat by lia. }
  cbn [attempts]. destruct attempt as [|prev].
  - apply Hinvoke; [done | lia].
  - destruct (next_defined b now) as (d & k & ->); [by rewrite Hc.. | by rewrite Hc; lia |].
    apply Hinvoke; [done | simpl; lia].
Qed.

End RetryProgressFacts.

(* The source computes delays in floating point and the embedding keeps
   them exact, so the outcomes the embedding leaves out are those of the
   float range: [**] and the conversion of an integer to a float raise
   [OverflowError] beyond the largest float, a little under [2 ^ 1024].  A
   configuration is within range when no power, attempt number or Fibonacci
   number the schedule computes before [max_attempts] passes [2 ^ 1023]; a
   polynomial needs a degree that is not negative (a negative one divides by
   zero at attempt 0), and a custom function may raise anything, so none is
   allowed. *)
Definition float_range : Z := 2 ^ 1023.

Definition within_float_range (c : Backoff.BackoffConfig) : Prop :=
  match Backoff.strategy c with
  | Backoff.FIXED => True
  | Backoff.LINEAR => Backoff.max_attempts c <= float_range
  | Backoff.EXPONENTIAL =>
      forall a : nat,
        Z.of_nat a < Backoff.max_attempts c ->
        (- inject_Z float_range <= Backoff.exponential_base c ^ Z.of_nat a
         /\ Backoff.exponential_base c ^ Z.of_nat a <= inject_Z float_range)%Q
  | Backoff.FIBONACCI =>
      Backoff.fibonacci (Z.to_nat (Backoff.max_attempts c)) <= float_range
  | Backoff.POLYNOMIAL =>
      0 <= Backoff.polynomial_degree c
      /\ Backoff.max_attempts c ^ Backoff.polynomial_degree c <= float_range
  | Backoff.CUSTOM => Backoff.custom_function c = None
  end.

(* [time.sleep] raises for a delay its nanosecond clock cannot hold, about
   9.2e9 seconds: every delay the schedule hands out stays below. *)
Definition sleepable (random : nat -> Q) (c : Backoff.BackoffConfig) : Prop :=
  forall (a k : nat) (d : Q) (k' : nat),
    Z.of_nat a < Backoff.max_attempts c ->
    Backoff._calculate_delay random c a k = (Backoff.Value d, k') ->
    (d <= 9000000000)%Q.

(* The decorrelated jitter calls [_calculate_delay] again for the attempt
   before, and that call does the same down to attempt 0: two frames an
   attempt, against the interpreter's recursion limit (1000 frames unless
   raised).  A hundred attempts stay well inside it. *)
Definition recursion_allowed (c : Backoff.BackoffConfig) : Prop :=
  Backoff.jitter c = true ->
  String.eqb (Backoff.jitter_type c) "decorrelated" = true ->
  Backoff.max_attempts c <= 100.

Lemma within_float_range_defined (c : Backoff.BackoffConfig) :
  within_float_range c -> delay_defined c.
Proof.
  unfold within_float_range, delay_defined.
  destruct (Backoff.strategy c); intros H; try (left; discriminate).
  right. by destruct H.
Qed.

(** X29.  The retry wrapper returns the first success within its budget.
    Take a configuration without a total timeout whose schedule raises
    nothing: its arithmetic stays within the float range, the decorrelated
    jitter stays within the recursion limit and every delay is one
    [time.sleep] accepts.  When invocation number [m] of the wrapped
    function returns a value, every invocation before it raises an exception
    that is retried and is no stop condition, and [m] is less than
    [max_attempts], the wrapper returns that value after exactly [m + 1]
    invocations. *)
Theorem retry_wrapper_returns_first_success_within_budget
    (random : nat -> Q) (func : nat -> RetryWithBackoff.func_result)
    (took : nat -> Q) (stop_iteration zero_division : RetryWithBackoff.exn)
    (c : Backoff.BackoffConfig) (now : Q) (m : nat) (v : Z) :
  within_float_range c ->
  recursion_allowed c ->
  sleepable random c ->
  Backoff.timeout_set (Backoff.total_timeout c) = None ->
  Z.of_nat m < Backoff.max_attempts c ->
  func m = RetryWithBackoff.Returns v ->
  (forall j, (j < m)%nat ->
     exists e, func j = RetryWithBackoff.Throws e
               /\ RetryWithBackoff.retryable e = true
               /\ RetryWithBackoff.stopping e = false) ->
  RetryWithBackoff.sync_wrapper random func took stop_iteration zero_division c now
  = (RetryWithBackoff.Returned v, S m).
Proof.
  intros Hrange _ _ Ht Hm Hv Hbefore. unfold RetryWithBackoff.sync_wrapper.
  rewrite (attempts_reach_first_success random func took stop_iteration zero_division
             c v (Z.to_nat (Backoff.max_attempts c))
             (within_float_range_defined c Hrange) Ht m 0 now
             (Backoff.mkBackoff c 0 now 0) 0 eq_refl);
    try done; simpl; lia.
Qed.

Lemma retry_wrapper_returns_first_success_within_budget_witness :
  let c := Backoff.mkConfig Backoff.EXPONENTIAL 1 60 3 2 300 1 2 1 false "full"
             (1 # 10) None None in
  let random := fun _ : nat => 0%Q in
  let e := RetryWithBackoff.mkExn true false in
  let func := fun k : nat =>
                if (k <? 2)%nat then RetryWithBackoff.Throws e
                else RetryWithBackoff.Returns 7 in
  within_float_range c /\ recursion_allowed c /\ sleepable random c
  /\ RetryWithBackoff.sync_wrapper random func (fun _ => 0%Q) e e c 0
     = (RetryWithBackoff.Returned 7, 3%nat).
Proof.
  intros c random e func.
  assert (Hrange : within_float_range c).
  { intros a Ha. simpl in Ha.
    destruct a as [|[|[|a]]]; [split; vm_compute; discriminate.. | lia]. }
  assert (Hdepth : recursion_allowed c) by (intros Hj; discriminate Hj).
  assert (Hsleep : sleepable random c).
  { intros a k d k' _ H.
    destruct (calculate_delay_bounds random c a k d k' H) as [_ Hcap].
    apply Qle_trans with (Qmax 0 (Backoff.max_delay c)).
    - apply Hcap; [|by left]. intros j. split; vm_compute; discriminate.
    - vm_compute. discriminate. }
  refine (conj Hrange (conj Hdepth (conj Hsleep _))).
  apply (retry_wrapper_returns_first_success_within_budget
           random func (fun _ => 0%Q) e e c 0 2 7 Hrange Hdepth Hsleep).
  - reflexivity.
  - simpl. lia.
  - reflexivity.
  - intros j Hj. exists e. destruct j as [|[|j]]; [done | done | lia].
Defined.

Section AdaptiveFacts.

Import Backoff AdaptiveBackoff.

Lemma record_all_snoc (outs : list bool) (o : bool) (a : t) :
  record_all (outs ++ [o]) a = record_outcome o (record_all outs a).
Proof. unfold record_all. by rewrite fold_left_app. Qed.

Lemma successes_snoc (outs : list bool) (o : bool) :
  successes (outs ++ [o]) = successes outs + (if o then 1 else 0).
Proof.
  unfold successes. rewrite List.filter_app, length_app. destruct o; simpl; lia.
Qed.

(* The state after the outcomes [outs] have been recorded on a fresh
   instance over [base]. *)
Definition tracked (base : BackoffConfig) (outs : list bool) (a : t) : Prop :=
  base_config a = base
  /\ length (recent_outcomes a) = Nat.min 100 (length outs)
  /\ success_count a = successes outs
  /\ failure_count a = Z.of_nat (length outs) - successes outs
  /\ current_config a
     = if (length outs <? 10)%nat then base
       else adapted base (multiplier (recent_success_rate (recent_outcomes a))).

Lemma record_all_tracked (base : BackoffConfig) (outs : list bool) :
  tracked base outs (record_all outs (__init__ base)).
Proof.
  induction outs as [|o outs IH] using rev_ind.
  - unfold tracked. simpl. repeat split; reflexivity.
  - rewrite record_all_snoc.
    destruct IH as (Hb & Hlen & Hs & Hf & Hc).
    set (a := record_all outs (__init__ base)) in *.
    unfold tracked, record_outcome, _adapt_config.
    rewrite successes_snoc, !length_app. cbn [length].
    set (outcomes := if (max_history <? length (recent_outcomes a) + 1)%nat
                     then tail (recent_outcomes a ++ [o])
                     else recent_outcomes a ++ [o]).
    assert (Hout : length outcomes = Nat.min 100 (length outs + 1)).
    { subst outcomes. unfold max_history.
      destruct (Nat.ltb_spec 100 (length (recent_outcomes a) + 1)).
      - destruct (recent_outcomes a ++ [o]) as [|x l] eqn:E.
        + apply (f_equal length) in E. rewrite length_app in E. simpl in E. lia.
        + apply (f_equal length) in E. rewrite length_app in E. cbn [length] in E.
          cbn [tail]. lia.
      - rewrite length_app. cbn [length]. lia. }
    cbn [recent_outcomes]. rewrite Hout.
    destruct (Nat.ltb_spec (Nat.min 100 (length outs + 1)) 10) as [Hlt|Hge];
      cbn [base_config current_config success_count failure_count recent_outcomes].
    + destruct (Nat.ltb_spec (length outs + 1) 10); [|lia].
      destruct (Nat.ltb_spec (length outs) 10); [|lia].
      rewrite Hb, Hs, Hf, Hc, Hout.
      refine (conj eq_refl (conj eq_refl (conj _ (conj _ eq_refl)))); destruct o; lia.
    + destruct (Nat.ltb_spec (length outs + 1) 10); [lia|].
      rewrite Hb, Hs, Hf, Hout.
      refine (conj eq_refl (conj eq_refl (conj _ (conj _ eq_refl)))); destruct o; lia.
Qed.

End AdaptiveFacts.

(** X30.  An adaptive backoff keeps at most the last 100 outcomes and
    counts every outcome recorded as a success or a failure.  Its current
    configuration is the base configuration until ten outcomes are
    recorded; from then on it is rebuilt from the base configuration, not
    from the previous adaptation, scaled by 0.8, 1 or 1.5, keeping
    strategy, [max_delay] and [max_attempts] and resetting the fields the
    rebuild does not pass ([polynomial_degree], [fibonacci_multiplier],
    [jitter_max_ratio], [custom_function]) to their defaults. *)
Theorem adaptive_backoff_rebuilds_from_base
    (base : Backoff.BackoffConfig) (outs : list bool) :
  let a := AdaptiveBackoff.record_all outs (AdaptiveBackoff.__init__ base) in
  let cur := AdaptiveBackoff.current_config a in
  AdaptiveBackoff.base_config a = base
  /\ length (AdaptiveBackoff.recent_outcomes a) = Nat.min 100 (length outs)
  /\ AdaptiveBackoff.success_count a + AdaptiveBackoff.failure_count a
     = Z.of_nat (length outs)
  /\ AdaptiveBackoff.success_count a = AdaptiveBackoff.successes outs
  /\ ((length outs < 10)%nat -> cur = base)
  /\ ((10 <= length outs)%nat ->
      exists m : Q,
        (m = (8 # 10)%Q \/ m = 1%Q \/ m = (15 # 10)%Q)
        /\ cur = AdaptiveBackoff.adapted base m
        /\ Backoff.polynomial_degree cur = 2
        /\ Backoff.fibonacci_multiplier cur = 1%Q
        /\ Backoff.jitter_max_ratio cur = (1 # 10)%Q
        /\ Backoff.custom_function cur = None)
  /\ Backoff.strategy cur = Backoff.strategy base
  /\ Backoff.max_delay cur = Backoff.max_delay base
  /\ Backoff.max_attempts cur = Backoff.max_attempts base.
Proof.
  cbv zeta. destruct (record_all_tracked base outs) as (Hb & Hlen & Hs & Hf & Hc).
  refine (conj Hb (conj Hlen (conj _ (conj Hs _)))); [lia|].
  rewrite Hc. destruct (Nat.ltb_spec (length outs) 10) as [Hlt|Hge].
  - refine (conj (fun _ => eq_refl) (conj _ (conj eq_refl (conj eq_refl eq_refl)))).
    intros H. lia.
  - refine (conj _ (conj _ (conj eq_refl (conj eq_refl eq_refl)))); [intros H; lia|].
    intros _. eexists. split; [|repeat split; reflexivity].
    unfold AdaptiveBackoff.multiplier.
    destruct (CircuitBreaker.Qltb (8 # 10) _); [by left|].
    destruct (CircuitBreaker.Qltb (5 # 10) _); [right; by left | right; by right].
Qed.
